(** * VIKOR compromise ranking ([topsisx/vikor.py]): model and verification

    The development embeds the function [vikor] of [topsisx/vikor.py] and the
    numpy / pandas operations it calls, and proves the properties the
    specification states about it.

    Modelling choices, all of them visible in the definitions below:

    - A Python float is a value of [float]: an exact rational, or one of the
      IEEE special values [+inf], [-inf], [nan].  Arithmetic on finite values
      is exact (binary64 rounding and overflow are not modelled); the special
      values follow IEEE 754, so that a division by zero yields an infinity or
      a NaN exactly where numpy does, and a NaN propagates as in numpy.  There
      is one zero; it behaves as [+0.0].
    - A pandas DataFrame is a mutable object in a store ([heap]); a Python
      variable holding a frame is a location.  [copy] allocates, column and
      cell assignments update the store in place.
    - Every frame carries pandas' default [RangeIndex] (row label = row
      position), which is what [pd.DataFrame(list)] and [pd.read_csv] build.
    - [sort_values] keeps rows with equal keys in table order. *)

From Stdlib Require Import QArith Qcanon.
From stdpp Require Import base numbers list sorting strings gmap pretty.

(** ** Floats *)

Module Float.

Local Open Scope Qc_scope.

Inductive float : Type :=
  | Fin (q : Qc)
  | PInf
  | NInf
  | NaN.

#[global] Instance float_eq_dec : EqDecision float.
Proof. solve_decision. Defined.

Definition of_Z (z : Z) : float := Fin (Qc_of_Z z).
Definition of_nat (n : nat) : float := of_Z (Z.of_nat n).

Definition isnan (x : float) : bool :=
  match x with NaN => true | _ => false end.

Definition isfinite (x : float) : bool :=
  match x with Fin _ => true | _ => false end.

Definition Qcltb (a b : Qc) : bool := bool_decide (a < b).
Definition Qcleb (a b : Qc) : bool := bool_decide (a ≤ b).

(** sign of a finite value, zero counted as positive (there is no [-0.0]) *)
Definition neg (a : Qc) : bool := Qcltb a 0.

Definition opp (x : float) : float :=
  match x with
  | Fin a => Fin (- a)
  | PInf => NInf
  | NInf => PInf
  | NaN => NaN
  end.

Definition add (x y : float) : float :=
  match x, y with
  | NaN, _ | _, NaN => NaN
  | Fin a, Fin b => Fin (a + b)
  | PInf, NInf | NInf, PInf => NaN
  | PInf, _ | _, PInf => PInf
  | NInf, _ | _, NInf => NInf
  end.

Definition sub (x y : float) : float := add x (opp y).

(** infinity of the given sign ([true] = negative) *)
Definition inf (s : bool) : float := if s then NInf else PInf.

Definition mul (x y : float) : float :=
  match x, y with
  | NaN, _ | _, NaN => NaN
  | Fin a, Fin b => Fin (a * b)
  | Fin a, PInf | PInf, Fin a =>
      if decide (a = 0) then NaN else inf (neg a)
  | Fin a, NInf | NInf, Fin a =>
      if decide (a = 0) then NaN else inf (negb (neg a))
  | PInf, PInf | NInf, NInf => PInf
  | PInf, NInf | NInf, PInf => NInf
  end.

Definition div (x y : float) : float :=
  match x, y with
  | NaN, _ | _, NaN => NaN
  | Fin a, Fin b =>
      if decide (b = 0)
      then (if decide (a = 0) then NaN else inf (neg a))
      else Fin (a / b)
  | Fin _, (PInf | NInf) => Fin 0
  | PInf, Fin b => inf (neg b)
  | NInf, Fin b => inf (negb (neg b))
  | (PInf | NInf), (PInf | NInf) => NaN
  end.

Definition abs (x : float) : float :=
  match x with
  | Fin a => Fin (if neg a then - a else a)
  | PInf | NInf => PInf
  | NaN => NaN
  end.

(** [x < y]; false as soon as one side is a NaN *)
Definition ltb (x y : float) : bool :=
  match x, y with
  | NaN, _ | _, NaN => false
  | Fin a, Fin b => Qcltb a b
  | NInf, (Fin _ | PInf) => true
  | Fin _, PInf => true
  | _, _ => false
  end.

(** [x <= y] *)
Definition leb (x y : float) : bool :=
  match x, y with
  | NaN, _ | _, NaN => false
  | Fin a, Fin b => Qcleb a b
  | NInf, _ => true
  | _, PInf => true
  | _, _ => false
  end.

Definition gtb (x y : float) : bool := ltb y x.
Definition geb (x y : float) : bool := leb y x.

End Float.

Export Float.

#[global] Instance float_inhabited : Inhabited float := populate NaN.

Declare Scope float_scope.
Delimit Scope float_scope with F.
Bind Scope float_scope with float.
Infix "+" := Float.add : float_scope.
Infix "-" := Float.sub : float_scope.
Infix "*" := Float.mul : float_scope.
Infix "/" := Float.div : float_scope.
Infix "<?" := Float.ltb : float_scope.
Infix "<=?" := Float.leb : float_scope.
Infix ">?" := Float.gtb : float_scope.
Infix ">=?" := Float.geb : float_scope.

(** decimal literal [n / d] *)
Definition dec (n : Z) (d : positive) : Qc := Q2Qc (n # d).

(** the literals of the source *)
Definition eps : float := Fin (dec 1 10000000000).        (* 1e-10 *)
Definition tol : float := Fin (dec 1 1000000).             (* 1e-6 *)
Definition one : float := Fin 1%Qc.                            (* 1.0 *)
Definition zero : float := Fin 0%Qc.


(** ** The interpreter state: a store of frames, the standard output, exceptions *)

Inductive label : Type :=
  | LInt (k : nat)        (* the labels 0, 1, ... pandas gives the columns of a list *)
  | LStr (s : string).

#[global] Instance label_eq_dec : EqDecision label.
Proof. solve_decision. Defined.

Coercion LStr : string >-> label.

Inductive column : Type :=
  | FloatCol (xs : list float)
  | IntCol (xs : list nat)
  | BoolCol (xs : list bool).

#[global] Instance column_eq_dec : EqDecision column.
Proof. solve_decision. Defined.

Inductive attr : Type :=
  | ABool (b : bool)
  | AFloat (x : float)
  | AStr (s : string)
  | AList (l : list nat).

#[global] Instance attr_eq_dec : EqDecision attr.
Proof. solve_decision. Defined.

(** A frame: [nrows] rows labelled [0 .. nrows-1], labelled columns in
    insertion order, and the free-form [attrs] dictionary. *)
Record Frame : Type := mkFrame {
  nrows : nat;
  columns : list (label * column);
  attrs : gmap string attr
}.

#[global] Instance Frame_eq_dec : EqDecision Frame.
Proof. solve_decision. Defined.

Definition loc := nat.

Record world : Type := World {
  heap : gmap loc Frame;
  stdout : list string
}.

#[global] Instance world_eq_dec : EqDecision world.
Proof. solve_decision. Defined.

Inductive exn : Type :=
  | ValueError (msg : string)
  | IndexError (msg : string)
  | KeyError (msg : string).

#[global] Instance exn_eq_dec : EqDecision exn.
Proof. solve_decision. Defined.

Inductive outcome (A : Type) : Type :=
  | Ok (a : A) (w : world)
  | Raise (e : exn).
Arguments Ok {A} a w.
Arguments Raise {A} e.

#[global] Instance outcome_eq_dec `{EqDecision A} : EqDecision (outcome A).
Proof. solve_decision. Defined.

Definition M (A : Type) : Type := world → outcome A.

#[global] Instance M_ret : MRet M := λ A a w, Ok a w.
#[global] Instance M_bind : MBind M := λ A B k c w,
  match c w with
  | Ok a w' => k a w'
  | Raise e => Raise e
  end.
#[global] Instance M_throw : MThrow exn M := λ A e w, Raise e.

Definition raise {A} (e : exn) : M A := mthrow e.

(** [for x in l: body] with the loop-carried variables [s] *)
Fixpoint for_each {A S : Type} (l : list A) (body : A → S → M S) (s : S) : M S :=
  match l with
  | [] => mret s
  | x :: l' => s' ← body x s; for_each l' body s'
  end.

(** [range(n)] *)
Definition range (n : nat) : list nat := seq 0 n.

Definition alloc (f : Frame) : M loc := λ w,
  let l := fresh (dom (heap w)) in
  Ok l (World (<[l := f]> (heap w)) (stdout w)).

Definition load (l : loc) : M Frame := λ w,
  match heap w !! l with
  | Some f => Ok f w
  | None => Raise (KeyError "dangling frame reference")
  end.

Definition store (l : loc) (f : Frame) : M () := λ w,
  Ok () (World (<[l := f]> (heap w)) (stdout w)).

Definition print (s : string) : M () := λ w,
  Ok () (World (heap w) (stdout w ++ [s])).

(** ** numpy *)

Module np.

(** [np.array(l, dtype=float)] on a list of numbers *)
Definition array (l : list Qc) : list float := Fin <$> l.

Definition zeros (n : nat) : list float := replicate n zero.

(** elementwise operations on arrays of one shape, and array-with-scalar *)
Definition vadd (a b : list float) : list float := zip_with Float.add a b.
Definition vsub (a b : list float) : list float := zip_with Float.sub a b.
Definition vmul (a b : list float) : list float := zip_with Float.mul a b.
Definition vdiv (a b : list float) : list float := zip_with Float.div a b.
Definition vadds (a : list float) (c : float) : list float := (λ x, x + c)%F <$> a.
Definition vsubs (a : list float) (c : float) : list float := (λ x, x - c)%F <$> a.
Definition vdivs (a : list float) (c : float) : list float := (λ x, x / c)%F <$> a.
Definition smul (c : float) (a : list float) : list float := (λ x, c * x)%F <$> a.

(** [a.sum()]: the additions of the model are exact, so the order in which
    numpy adds is immaterial; a NaN or two opposite infinities give NaN in
    any order. *)
Definition sum (a : list float) : float := foldl Float.add zero a.

(** [np.maximum] / [np.minimum] on two scalars: a NaN wins *)
Definition maximum (x y : float) : float :=
  if isnan x then x else if isnan y then y else if (x <? y)%F then y else x.
Definition minimum (x y : float) : float :=
  if isnan x then x else if isnan y then y else if (y <? x)%F then y else x.

(** [np.max(a)], [np.min(a)]: an empty array has no maximum *)
Definition max (a : list float) : M float :=
  match a with
  | [] => raise (ValueError
      "zero-size array to reduction operation maximum which has no identity")
  | x :: a' => mret (foldl maximum x a')
  end.
Definition min (a : list float) : M float :=
  match a with
  | [] => raise (ValueError
      "zero-size array to reduction operation minimum which has no identity")
  | x :: a' => mret (foldl minimum x a')
  end.

(** a 2-d array: its shape and its rows *)
Record ndarray2 : Type := mkArray {
  shape : nat * nat;
  rows : list (list float)
}.

(** [matrix[:, j]] and [matrix[i, :]]; the indices of the source are always
    in range *)
Definition col (matrix : ndarray2) (j : nat) : list float :=
  (λ row, row !!! j) <$> rows matrix.
Definition row (matrix : ndarray2) (i : nat) : list float :=
  rows matrix !!! i.

End np.

(** ** pandas *)

Module pd.

(** the value of row [i] of a column, as [astype(float)] converts it *)
Definition cell_float (c : column) (i : nat) : float :=
  match c with
  | FloatCol xs => xs !!! i
  | IntCol xs => default NaN (of_nat <$> xs !! i)
  | BoolCol xs => default NaN ((λ b : bool, if b then one else zero) <$> xs !! i)
  end.

(** [pd.DataFrame(rows)] for a list (or 2-d array) of rows: columns
    labelled [0 .. n-1], short rows padded with NaN *)
Definition DataFrame_of_rows (rows : list (list float)) : Frame :=
  let n := max_list (length <$> rows) in
  mkFrame (length rows)
          ((λ j, (LInt j, FloatCol ((λ r, default NaN (r !! j)) <$> rows))) <$> range n)
          ∅.

Definition DataFrame (rows : list (list float)) : M loc :=
  alloc (DataFrame_of_rows rows).

(** [data.copy()] *)
Definition copy (l : loc) : M loc := f ← load l; alloc f.

(** [df.values.astype(float)]: the [nrows] x [ncols] array, by rows *)
Definition values (f : Frame) : np.ndarray2 :=
  np.mkArray (nrows f, length (columns f))
             ((λ i, (λ c, cell_float c.2 i) <$> columns f) <$> range (nrows f)).

Definition col_length (c : column) : nat :=
  match c with
  | FloatCol xs => length xs
  | IntCol xs => length xs
  | BoolCol xs => length xs
  end.

Fixpoint set_assoc (k : label) (c : column) (cols : list (label * column))
  : list (label * column) :=
  match cols with
  | [] => [(k, c)]
  | (k', c') :: cols' =>
      if decide (k' = k) then (k, c) :: cols' else (k', c') :: set_assoc k c cols'
  end.

Fixpoint get_assoc (k : label) (cols : list (label * column)) : option column :=
  match cols with
  | [] => None
  | (k', c') :: cols' => if decide (k' = k) then Some c' else get_assoc k cols'
  end.

(** [frame[k] = array]: replaces the column labelled [k], or appends it *)
Definition setitem (l : loc) (k : label) (c : column) : M () :=
  f ← load l;
  if decide (col_length c = nrows f)
  then store l (mkFrame (nrows f) (set_assoc k c (columns f)) (attrs f))
  else raise (ValueError ("Length of values (" +:+ pretty (col_length c) +:+
         ") does not match length of index (" +:+ pretty (nrows f) +:+ ")")).

(** [frame[k] = b] for a scalar boolean [b] *)
Definition setitem_scalar (l : loc) (k : label) (b : bool) : M () :=
  f ← load l;
  store l (mkFrame (nrows f) (set_assoc k (BoolCol (replicate (nrows f) b)) (columns f))
                   (attrs f)).

(** [frame[k]] *)
Definition getitem (l : loc) (k : label) : M column :=
  f ← load l;
  match get_assoc k (columns f) with
  | Some c => mret c
  | None => raise (KeyError "column")
  end.

(** [frame.loc[idx, k] = b] on an existing boolean column and an existing
    row (the only use in the source: the column was created just before and
    [idx] is a row label of the frame) *)
Definition loc_set (l : loc) (idx : nat) (k : label) (b : bool) : M () :=
  f ← load l;
  match get_assoc k (columns f) with
  | Some (BoolCol xs) =>
      store l (mkFrame (nrows f) (set_assoc k (BoolCol (<[idx := b]> xs)) (columns f))
                       (attrs f))
  | _ => raise (KeyError "column")
  end.

(** [frame.attrs[key] = a] *)
Definition set_attr (l : loc) (key : string) (a : attr) : M () :=
  f ← load l;
  store l (mkFrame (nrows f) (columns f) (<[key := a]> (attrs f))).

(** [pd.Series(x).rank(ascending=True, method='min')]: one plus the number of
    strictly smaller values, so that equal values share the lowest place; a
    NaN is given no rank ([None] stands for the NaN pandas returns). *)
Definition rank (x : list float) : list (option nat) :=
  (λ xi, if isnan xi then None
         else Some (S (length (filter (λ y, (y <? xi)%F = true) x)))) <$> x.

(** [.astype(int)] on a rank series: NaN cannot be converted *)
Fixpoint astype_int (r : list (option nat)) : M (list nat) :=
  match r with
  | [] => mret []
  | None :: _ =>
      raise (ValueError "Cannot convert non-finite values (NA or inf) to integer")
  | Some k :: r' => ks ← astype_int r'; mret (k :: ks)
  end.

(** insertion of row [i] before the rows already placed that have a key at
    least as large: rows with equal keys stay in table order *)
Fixpoint insert_row (key : nat → nat) (i : nat) (l : list nat) : list nat :=
  match l with
  | [] => [i]
  | j :: l' => if decide (key i ≤ key j) then i :: j :: l'
               else j :: insert_row key i l'
  end.

(** A frame sorted by a key is used by the source only through its index,
    one column and a lookup by label: it is kept as the order of the row
    labels together with the frame as it was when sorted. *)
Record SortedFrame : Type := mkSorted {
  sorted_index : list nat;
  sorted_of : Frame
}.

(** [frame.sort_values(k)] for an integer column [k] *)
Definition sort_values (l : loc) (k : label) : M SortedFrame :=
  f ← load l;
  match get_assoc k (columns f) with
  | Some (IntCol keys) =>
      mret (mkSorted (foldr (insert_row (λ i, keys !!! i)) [] (range (nrows f))) f)
  | _ => raise (KeyError "column")
  end.

(** [sorted[k].values] for a float column [k] *)
Definition sorted_values (s : SortedFrame) (k : label) : M (list float) :=
  match get_assoc k (columns (sorted_of s)) with
  | Some c => mret ((λ i, cell_float c i) <$> sorted_index s)
  | None => raise (KeyError "column")
  end.

(** [sorted.loc[idx, k]] *)
Definition sorted_loc (s : SortedFrame) (idx : nat) (k : label) : M float :=
  match get_assoc k (columns (sorted_of s)) with
  | Some c => mret (cell_float c idx)
  | None => raise (KeyError "column")
  end.

(** [frame[frame[k] == 1].index[0]] for an integer column [k] *)
Definition first_with_rank_1 (l : loc) (k : label) : M nat :=
  f ← load l;
  match get_assoc k (columns f) with
  | Some (IntCol ranks) =>
      match list_find (λ r, r = 1) ranks with
      | Some (i, _) => mret i
      | None => raise (IndexError "index 0 is out of bounds for axis 0 with size 0")
      end
  | _ => raise (KeyError "column")
  end.

End pd.

(** ** Python built-ins used by the source *)

(** [l[i]] on a list or 1-d array *)
Definition py_index {A} (l : list A) (i : nat) : M A :=
  match l !! i with
  | Some x => mret x
  | None => raise (IndexError "list index out of range")
  end.

Definition nl : string := String (Ascii.ascii_of_nat 10) EmptyString.

Fixpoint str_repeat (s : string) (n : nat) : string :=
  match n with
  | O => EmptyString
  | S n' => s +:+ str_repeat s n'
  end.

(** [f"{x:.4f}"] *)
Definition fmt4 (x : float) : string :=
  match x with
  | Fin q =>
      let a := (Z.abs (Qnum q) * 10000)%Z in
      let d := Zpos (Qden q) in
      let k0 := (a / d)%Z in
      let r := (a mod d)%Z in
      let k := if (d <? 2 * r)%Z then (k0 + 1)%Z
               else if (2 * r =? d)%Z then (if Z.even k0 then k0 else k0 + 1)%Z
               else k0 in
      (if (Qnum q <? 0)%Z then "-" else "") +:+ pretty (k / 10000)%Z +:+ "." +:+
      match pretty (10000 + k mod 10000)%Z with
      | String _ digits => digits
      | EmptyString => EmptyString
      end
  | PInf => "inf"
  | NInf => "-inf"
  | NaN => "nan"
  end.

(** [f"{l}"] for a list of integers *)
Definition fmt_list (l : list nat) : string :=
  "[" +:+ String.concat ", " (pretty <$> l) +:+ "]".

(** what the caller passes as [data] *)
Inductive py_data : Type :=
  | PyList (rows : list (list float))
  | PyArray (rows : list (list float))
  | PyFrame (l : loc)
  | PyOther.

(** ** [vikor]

    The arrays [S], [R] and [Q] of the source are [S_], [R_] and [Q_] here
    ([S] is the successor of [nat]). *)

Definition vikor (data : py_data) (weights : list Qc) (impacts : list string)
    (v : Qc) (verbose : bool) : M loc :=
  (* Convert to DataFrame if needed *)
  data ← match data with
          | PyList rows | PyArray rows => pd.DataFrame rows
          | PyFrame l => mret l
          | PyOther =>
              raise (ValueError "Input data must be a DataFrame, list, or NumPy array.")
          end;
  (* Make a copy to avoid modifying original *)
  df ← pd.copy data;
  (* Validate inputs *)
  f ← load df;
  let matrix := pd.values f in
  let weights := np.array weights in
  let m := (np.shape matrix).1 in
  let n := (np.shape matrix).2 in
  if decide (length weights ≠ n) then
    raise (ValueError ("Number of weights (" +:+ pretty (length weights) +:+
             ") must match number of criteria (" +:+ pretty n +:+ ")."))
  else if decide (length impacts ≠ n) then
    raise (ValueError ("Number of impacts (" +:+ pretty (length impacts) +:+
             ") must match number of criteria (" +:+ pretty n +:+ ")."))
  else if negb (forallb (λ i, bool_decide (i ∈ ["+"; "-"])) impacts) then
    raise (ValueError "Impacts must be '+' or '-' only.")
  else
  (* Normalize weights if needed *)
  let weights :=
    if (Float.abs (np.sum weights - one) >? tol)%F
    then np.vdivs weights (np.sum weights) else weights in
  (* Calculate ideal and anti-ideal for each criterion *)
  '(ideal, anti_ideal) ←
    for_each (range n) (λ j '(ideal, anti_ideal),
      imp ← py_index impacts j;
      if decide (imp = "+") then
        hi ← np.max (np.col matrix j);
        lo ← np.min (np.col matrix j);
        mret (<[j := hi]> ideal, <[j := lo]> anti_ideal)
      else
        lo ← np.min (np.col matrix j);
        hi ← np.max (np.col matrix j);
        mret (<[j := lo]> ideal, <[j := hi]> anti_ideal))
      (np.zeros n, np.zeros n);
  (* Calculate S (group utility) and R (individual regret) *)
  '(S_, R_) ←
    for_each (range m) (λ i '(S_, R_),
      let weighted_distances :=
        np.vdiv (np.vmul weights (np.vsub ideal (np.row matrix i)))
                (np.vadds (np.vsub ideal anti_ideal) eps) in
      let s := np.sum weighted_distances in
      r ← np.max weighted_distances;
      mret (<[i := s]> S_, <[i := r]> R_))
      (np.zeros m, np.zeros m);
  (* Calculate Q values using the strategy weight v *)
  S_star ← np.min S_;
  S_minus ← np.max S_;
  R_star ← np.min R_;
  R_minus ← np.max R_;
  let Q_ :=
    np.vadd (np.vdivs (np.smul (Fin v) (np.vsubs S_ S_star)) (S_minus - S_star + eps)%F)
            (np.vdivs (np.smul (one - Fin v)%F (np.vsubs R_ R_star))
                      (R_minus - R_star + eps)%F) in
  (* Create result dataframe with original data *)
  result ← pd.copy df;
  pd.setitem result "S" (FloatCol S_);;
  pd.setitem result "R" (FloatCol R_);;
  pd.setitem result "Q" (FloatCol Q_);;
  (* Rank by Q, S, and R (lower is better for all) *)
  Q_Rank ← pd.astype_int (pd.rank Q_);
  pd.setitem result "Q_Rank" (IntCol Q_Rank);;
  S_Rank ← pd.astype_int (pd.rank S_);
  pd.setitem result "S_Rank" (IntCol S_Rank);;
  R_Rank ← pd.astype_int (pd.rank R_);
  pd.setitem result "R_Rank" (IntCol R_Rank);;
  (* Main ranking by Q *)
  Rank ← pd.getitem result "Q_Rank";
  pd.setitem result "Rank" Rank;;
  (* Sort by Q rank to check conditions *)
  sorted_result ← pd.sort_values result "Q_Rank";
  (* Check C1: Acceptable Advantage *)
  let DQ := if decide (1 < m) then (one / of_nat (m - 1))%F else one in
  Q_sorted ← pd.sorted_values sorted_result "Q";
  '(Q_diff, C1_satisfied) ←
    (if decide (1 < m) then
       q1 ← py_index Q_sorted 1;
       q0 ← py_index Q_sorted 0;
       let Q_diff := (q1 - q0)%F in
       mret (Some Q_diff, (Q_diff >=? DQ)%F)
     else mret (None, true));
  (* Check C2: Acceptable Stability in Decision Making *)
  best_Q_idx ← py_index (pd.sorted_index sorted_result) 0;
  best_S_idx ← pd.first_with_rank_1 result "S_Rank";
  best_R_idx ← pd.first_with_rank_1 result "R_Rank";
  let C2_satisfied :=
    bool_decide (best_Q_idx = best_S_idx) || bool_decide (best_Q_idx = best_R_idx) in
  (* Determine compromise solution *)
  pd.setitem_scalar result "Is_Compromise" false;;
  '(compromise_set, compromise_status) ←
    (if C1_satisfied && C2_satisfied then
       (* Best alternative is the compromise solution *)
       pd.loc_set result best_Q_idx "Is_Compromise" true;;
       mret ([best_Q_idx], "Single compromise solution (C1 and C2 satisfied)")
     else if negb C1_satisfied then
       (* Multiple alternatives in compromise set *)
       compromise_set ←
         for_each (pd.sorted_index sorted_result) (λ idx compromise_set,
           q ← pd.sorted_loc sorted_result idx "Q";
           q0 ← py_index Q_sorted 0;
           if (q - q0 <? DQ)%F then
             pd.loc_set result idx "Is_Compromise" true;;
             mret (compromise_set ++ [idx])
           else mret compromise_set) [];
       mret (compromise_set,
             "Multiple compromise solutions: " +:+ pretty (length compromise_set) +:+
             " alternatives (C1 not satisfied)")
     else
       (* Compromise set includes best by Q and best by S and R *)
       compromise_set ←
         for_each [best_Q_idx; best_S_idx; best_R_idx] (λ idx compromise_set,
           pd.loc_set result idx "Is_Compromise" true;;
           if decide (idx ∉ compromise_set) then mret (compromise_set ++ [idx])
           else mret compromise_set) [];
       mret (compromise_set,
             "Compromise set: " +:+ pretty (length compromise_set) +:+
             " alternatives (C2 not satisfied)"));
  (* Add metadata to result *)
  pd.set_attr result "C1_satisfied" (ABool C1_satisfied);;
  pd.set_attr result "C2_satisfied" (ABool C2_satisfied);;
  pd.set_attr result "DQ" (AFloat DQ);;
  pd.set_attr result "compromise_status" (AStr compromise_status);;
  pd.set_attr result "compromise_set" (AList compromise_set);;
  (* Print verification info if verbose mode enabled *)
  (if verbose then
     print (nl +:+ str_repeat "=" 70);;
     print "VIKOR ACCEPTANCE CONDITIONS CHECK";;
     print (str_repeat "=" 70);;
     print (nl +:+ "C1 (Acceptable Advantage): " +:+
            (if C1_satisfied : bool then "‚úÖ SATISFIED" else "‚ùå NOT SATISFIED"));;
     print ("   Required difference (DQ): " +:+ fmt4 DQ);;
     (match Q_diff with
      | Some Q_diff => print ("   Actual difference Q(2) - Q(1): " +:+ fmt4 Q_diff)
      | None => mret ()
      end : M ());;
     print (nl +:+ "C2 (Acceptable Stability): " +:+
            (if C2_satisfied : bool then "‚úÖ SATISFIED" else "‚ùå NOT SATISFIED"));;
     print ("   Best by Q: Alternative " +:+ pretty (best_Q_idx + 1));;
     print ("   Best by S: Alternative " +:+ pretty (best_S_idx + 1));;
     print ("   Best by R: Alternative " +:+ pretty (best_R_idx + 1));;
     print (nl +:+ "üìä COMPROMISE SOLUTION:");;
     print ("   " +:+ compromise_status);;
     print ("   Alternative(s): " +:+ fmt_list ((λ i, i + 1) <$> compromise_set));;
     print (str_repeat "=" 70 +:+ nl)
   else mret ());;
  (* Return in ORIGINAL order (no sorting) *)
  mret result.

(** ** Closed forms

    What the loops and the successive assignments of [vikor] compute, written
    as expressions.  They are related to [vikor] by [vikor_run] below and
    serve to state the theorems. *)

(** the value of [np.max(a)] / [np.min(a)] when [a] is not empty *)
Definition amax (a : list float) : float :=
  match a with
  | [] => NaN
  | x :: a' => foldl np.maximum x a'
  end.
Definition amin (a : list float) : float :=
  match a with
  | [] => NaN
  | x :: a' => foldl np.minimum x a'
  end.

(** the weights once normalized (line 50-51) *)
Definition normalize (weights : list float) : list float :=
  if (Float.abs (np.sum weights - one) >? tol)%F
  then np.vdivs weights (np.sum weights) else weights.

(** [ideal] and [anti_ideal] after the first loop *)
Definition ideal_of (matrix : np.ndarray2) (impacts : list string) : list float :=
  (λ j, if decide (impacts !! j = Some "+") then amax (np.col matrix j)
        else amin (np.col matrix j)) <$> range (np.shape matrix).2.
Definition anti_ideal_of (matrix : np.ndarray2) (impacts : list string) : list float :=
  (λ j, if decide (impacts !! j = Some "+") then amin (np.col matrix j)
        else amax (np.col matrix j)) <$> range (np.shape matrix).2.

(** [weighted_distances] of one row *)
Definition weighted_distances (weights ideal anti_ideal row : list float) : list float :=
  np.vdiv (np.vmul weights (np.vsub ideal row))
          (np.vadds (np.vsub ideal anti_ideal) eps).

(** [S] and [R] after the second loop *)
Definition S_of (matrix : np.ndarray2) (weights ideal anti_ideal : list float)
  : list float :=
  (λ i, np.sum (weighted_distances weights ideal anti_ideal (np.row matrix i)))
    <$> range (np.shape matrix).1.
Definition R_of (matrix : np.ndarray2) (weights ideal anti_ideal : list float)
  : list float :=
  (λ i, amax (weighted_distances weights ideal anti_ideal (np.row matrix i)))
    <$> range (np.shape matrix).1.

(** [Q] (lines 78-85) *)
Definition Q_of (v : Qc) (S_ R_ : list float) : list float :=
  np.vadd (np.vdivs (np.smul (Fin v) (np.vsubs S_ (amin S_)))
                    (amax S_ - amin S_ + eps)%F)
          (np.vdivs (np.smul (one - Fin v)%F (np.vsubs R_ (amin R_)))
                    (amax R_ - amin R_ + eps)%F).

(** the integer ranks of a series without NaN *)
Definition ranks (x : list float) : list nat :=
  (λ xi, S (length (filter (λ y, (y <? xi)%F = true) x))) <$> x.

(** the row labels in the order [sort_values] puts them *)
Definition sorted_by (keys : list nat) : list nat :=
  foldr (pd.insert_row (λ i, keys !!! i)) [] (range (length keys)).

(** the first row whose rank is 1 *)
Definition first_rank_1 (rk : list nat) : nat :=
  default 0 (fst <$> list_find (λ r, r = 1) rk).

Definition DQ_of (m : nat) : float :=
  if decide (1 < m) then (one / of_nat (m - 1))%F else one.

(** the values [vikor] computes from the input frame *)
Record Run : Type := mkRun {
  r_S : list float;
  r_R : list float;
  r_Q : list float;
  r_Q_Rank : list nat;
  r_S_Rank : list nat;
  r_R_Rank : list nat;
  r_order : list nat;          (* [sorted_result.index] *)
  r_Q_sorted : list float;
  r_DQ : float;
  r_Q_diff : option float;
  r_C1 : bool;
  r_C2 : bool;
  r_best_Q : nat;
  r_best_S : nat;
  r_best_R : nat;
  r_flags : list bool;         (* the column [Is_Compromise] *)
  r_set : list nat;            (* [compromise_set] *)
  r_status : string
}.

(** membership test of the second branch (line 139) *)
Definition close_to_best (Q_ Q_sorted : list float) (DQ : float) (idx : nat) : bool :=
  ((Q_ !!! idx) - (Q_sorted !!! 0) <? DQ)%F.

Definition run_of (f0 : Frame) (weights : list Qc) (impacts : list string) (v : Qc)
  : Run :=
  let matrix := pd.values f0 in
  let m := nrows f0 in
  let ws := normalize (np.array weights) in
  let ideal := ideal_of matrix impacts in
  let anti_ideal := anti_ideal_of matrix impacts in
  let S_ := S_of matrix ws ideal anti_ideal in
  let R_ := R_of matrix ws ideal anti_ideal in
  let Q_ := Q_of v S_ R_ in
  let Q_Rank := ranks Q_ in
  let S_Rank := ranks S_ in
  let R_Rank := ranks R_ in
  let order := sorted_by Q_Rank in
  let DQ := DQ_of m in
  let Q_sorted := (λ i, Q_ !!! i) <$> order in
  let Q_diff := if decide (1 < m)
                then Some ((Q_sorted !!! 1) - (Q_sorted !!! 0))%F else None in
  let C1 := match Q_diff with Some d => (d >=? DQ)%F | None => true end in
  let best_Q := order !!! 0 in
  let best_S := first_rank_1 S_Rank in
  let best_R := first_rank_1 R_Rank in
  let C2 := bool_decide (best_Q = best_S) || bool_decide (best_Q = best_R) in
  let clear := replicate m false in
  if C1 && C2 then
    mkRun S_ R_ Q_ Q_Rank S_Rank R_Rank order Q_sorted DQ Q_diff C1 C2
          best_Q best_S best_R
          (<[best_Q := true]> clear) [best_Q]
          "Single compromise solution (C1 and C2 satisfied)"
  else if negb C1 then
    let members := filter (λ idx, close_to_best Q_ Q_sorted DQ idx = true) order in
    mkRun S_ R_ Q_ Q_Rank S_Rank R_Rank order Q_sorted DQ Q_diff C1 C2
          best_Q best_S best_R
          (foldl (λ fl idx, <[idx := true]> fl) clear members) members
          ("Multiple compromise solutions: " +:+ pretty (length members) +:+
           " alternatives (C1 not satisfied)")
  else
    let members :=
      foldl (λ cs idx, if decide (idx ∉ cs) then cs ++ [idx] else cs) []
            [best_Q; best_S; best_R] in
    mkRun S_ R_ Q_ Q_Rank S_Rank R_Rank order Q_sorted DQ Q_diff C1 C2
          best_Q best_S best_R
          (<[best_R := true]> (<[best_S := true]> (<[best_Q := true]> clear))) members
          ("Compromise set: " +:+ pretty (length members) +:+
           " alternatives (C2 not satisfied)").

(** the frame [vikor] returns *)
Definition frame_of_run (f0 : Frame) (r : Run) : Frame :=
  mkFrame (nrows f0)
    (pd.set_assoc "Is_Compromise" (BoolCol (r_flags r))
    (pd.set_assoc "Rank" (IntCol (r_Q_Rank r))
    (pd.set_assoc "R_Rank" (IntCol (r_R_Rank r))
    (pd.set_assoc "S_Rank" (IntCol (r_S_Rank r))
    (pd.set_assoc "Q_Rank" (IntCol (r_Q_Rank r))
    (pd.set_assoc "Q" (FloatCol (r_Q r))
    (pd.set_assoc "R" (FloatCol (r_R r))
    (pd.set_assoc "S" (FloatCol (r_S r)) (columns f0)))))))))
    (<["compromise_set" := AList (r_set r)]>
    (<["compromise_status" := AStr (r_status r)]>
    (<["DQ" := AFloat (r_DQ r)]>
    (<["C2_satisfied" := ABool (r_C2 r)]>
    (<["C1_satisfied" := ABool (r_C1 r)]> (attrs f0)))))).

(** what [vikor] prints when [verbose] *)
Definition log_lines (C1_satisfied : bool) (DQ : float) (Q_diff : option float)
    (C2_satisfied : bool) (best_Q_idx best_S_idx best_R_idx : nat)
    (compromise_status : string) (compromise_set : list nat) : list string :=
  [ nl +:+ str_repeat "=" 70;
    "VIKOR ACCEPTANCE CONDITIONS CHECK";
    str_repeat "=" 70;
    nl +:+ "C1 (Acceptable Advantage): " +:+
      (if C1_satisfied then "‚úÖ SATISFIED" else "‚ùå NOT SATISFIED");
    "   Required difference (DQ): " +:+ fmt4 DQ ] ++
  match Q_diff with
  | Some d => ["   Actual difference Q(2) - Q(1): " +:+ fmt4 d]
  | None => []
  end ++
  [ nl +:+ "C2 (Acceptable Stability): " +:+
      (if C2_satisfied then "‚úÖ SATISFIED" else "‚ùå NOT SATISFIED");
    "   Best by Q: Alternative " +:+ pretty (best_Q_idx + 1);
    "   Best by S: Alternative " +:+ pretty (best_S_idx + 1);
    "   Best by R: Alternative " +:+ pretty (best_R_idx + 1);
    nl +:+ "üìä COMPROMISE SOLUTION:";
    "   " +:+ compromise_status;
    "   Alternative(s): " +:+ fmt_list ((λ i, i + 1) <$> compromise_set);
    str_repeat "=" 70 +:+ nl ].

Definition log_of_run (r : Run) : list string :=
  log_lines (r_C1 r) (r_DQ r) (r_Q_diff r) (r_C2 r) (r_best_Q r) (r_best_S r)
            (r_best_R r) (r_status r) (r_set r).

(** the frame passed as [data], and the store once [data] is a frame *)
Definition input_frame (data : py_data) (w : world) : option Frame :=
  match data with
  | PyList rows | PyArray rows => Some (pd.DataFrame_of_rows rows)
  | PyFrame l => heap w !! l
  | PyOther => None
  end.

Definition heap_of_input (data : py_data) (w : world) : gmap loc Frame :=
  match data with
  | PyList rows | PyArray rows =>
      <[fresh (dom (heap w)) := pd.DataFrame_of_rows rows]> (heap w)
  | _ => heap w
  end.

(** the locations of [df] and of [result] *)
Definition df_loc (data : py_data) (w : world) : loc :=
  fresh (dom (heap_of_input data w)).
Definition result_loc (data : py_data) (w : world) (f0 : Frame) : loc :=
  fresh (dom (<[df_loc data w := f0]> (heap_of_input data w))).

(** the conditions under which [vikor] returns *)
Definition no_nan (x : list float) : bool := forallb (λ y, negb (isnan y)) x.

Definition vikor_ok (f0 : Frame) (weights : list Qc) (impacts : list string) (v : Qc)
  : bool :=
  bool_decide (length weights = length (columns f0)) &&
  bool_decide (length impacts = length (columns f0)) &&
  forallb (λ i, bool_decide (i ∈ ["+"; "-"])) impacts &&
  bool_decide (0 < nrows f0) &&
  bool_decide (0 < length (columns f0)) &&
  no_nan (r_Q (run_of f0 weights impacts v)).

(** the world [vikor] leaves *)
Definition world_after (data : py_data) (weights : list Qc) (impacts : list string)
    (v : Qc) (verbose : bool) (w : world) (f0 : Frame) : world :=
  let r := run_of f0 weights impacts v in
  World (<[result_loc data w f0 := frame_of_run f0 r]>
           (<[df_loc data w := f0]> (heap_of_input data w)))
        (stdout w ++ if verbose then log_of_run r else []).

(** ** Reading a frame of the store *)

Definition column_of (w : world) (l : loc) (k : label) : option column :=
  f ← heap w !! l; pd.get_assoc k (columns f).

Definition attr_of (w : world) (l : loc) (key : string) : option attr :=
  f ← heap w !! l; attrs f !! key.

(** ** Vocabulary of the specification *)

(** [x] is the largest / the smallest entry of [a] *)
Definition is_max (x : float) (a : list float) : Prop :=
  x ∈ a ∧ ∀ y, y ∈ a → (y <=? x)%F = true.
Definition is_min (x : float) (a : list float) : Prop :=
  x ∈ a ∧ ∀ y, y ∈ a → (x <=? y)%F = true.

(** the weighted normalized distance of one value to the ideal *)
Definition distance (weight ideal antiideal value : float) : float :=
  (weight * (ideal - value) / (ideal - antiideal + eps))%F.

(** the compromise index of one alternative *)
Definition Q_index (v : Qc) (s s_star s_minus r r_star r_minus : float) : float :=
  (Fin v * (s - s_star) / (s_minus - s_star + eps)
   + (one - Fin v) * (r - r_star) / (r_minus - r_star + eps))%F.

(** all entries are finite numbers *)
Definition all_finite (a : list float) : bool := forallb isfinite a.

(** the number of entries of [x] strictly below [y] *)
Definition count_below (x : list float) (y : float) : nat :=
  length (filter (λ z, (z <? y)%F = true) x).

(** row [i] comes before row [j] when sorting by [key]: smaller key first,
    table order among equal keys *)
Definition before (key : nat → nat) (i j : nat) : Prop :=
  key i < key j ∨ (key i = key j ∧ i < j).

(** the value of alternative [i] on criterion [j], as [vikor] reads it *)
Definition cell (f0 : Frame) (i j : nat) : float := np.row (pd.values f0) i !!! j.

(** [b] is the first alternative, in table order, whose rank is 1 *)
Definition first_best (rk : list nat) (b : nat) : Prop :=
  rk !! b = Some 1 ∧ ∀ k, k < b → rk !! k ≠ Some 1.

(** [i] comes before [j] in the order by ascending [x], ties in table order *)
Definition ascending (x : list float) (i j : nat) : Prop :=
  (x !!! i <? x !!! j)%F = true ∨ (x !!! i = x !!! j ∧ i < j).

(** the labels of the columns [vikor] adds to the copy of the table *)
Definition annotations : list label :=
  [LStr "S"; LStr "R"; LStr "Q"; LStr "Q_Rank"; LStr "S_Rank"; LStr "R_Rank";
   LStr "Rank"; LStr "Is_Compromise"].

(** two outcomes with the same returned reference and the same store, or the
    same exception *)
Definition agree (o1 o2 : outcome loc) : Prop :=
  match o1, o2 with
  | Ok l1 w1, Ok l2 w2 => l1 = l2 ∧ heap w1 = heap w2
  | Raise e1, Raise e2 => e1 = e2
  | _, _ => False
  end.

(** the three checks of the source (lines 40-47) on the table [f0] *)
Definition checks (f0 : Frame) (weights : list Qc) (impacts : list string) : bool :=
  bool_decide (length weights = length (columns f0)) &&
  bool_decide (length impacts = length (columns f0)) &&
  forallb (λ i, bool_decide (i ∈ ["+"; "-"])) impacts.

(** the sum of the weights *)
Definition weight_sum (weights : list Qc) : Qc := foldl Qcplus 0%Qc weights.

(** every entry of the table is a finite number *)
Definition finite_table (f0 : Frame) : bool :=
  forallb all_finite (np.rows (pd.values f0)).

(** no cost criterion has its largest value exactly [eps] above its smallest *)
Definition cost_ranges_ok (f0 : Frame) (impacts : list string) : bool :=
  forallb (λ j,
    if decide (impacts !! j = Some "-")
    then negb (bool_decide
      ((amin (np.col (pd.values f0) j) - amax (np.col (pd.values f0) j) + eps)%F = zero))
    else true) (range (length (columns f0))).

(** the exception of the first check that fails (lines 40-47) *)
Definition check_error (f0 : Frame) (weights : list Qc) (impacts : list string)
  : option exn :=
  let n := length (columns f0) in
  if decide (length weights ≠ n) then
    Some (ValueError ("Number of weights (" +:+ pretty (length weights) +:+
            ") must match number of criteria (" +:+ pretty n +:+ ")."))
  else if decide (length impacts ≠ n) then
    Some (ValueError ("Number of impacts (" +:+ pretty (length impacts) +:+
            ") must match number of criteria (" +:+ pretty n +:+ ")."))
  else if negb (forallb (λ i, bool_decide (i ∈ ["+"; "-"])) impacts) then
    Some (ValueError "Impacts must be '+' or '-' only.")
  else None.

(** the weights multiplied by [c] *)
Definition scale (c : Qc) (weights : list Qc) : list Qc := Qcmult c <$> weights.

(** the sum [s] is exactly 1, or further than [tol] from 1: the test of line
    50 then normalizes exactly the weights that do not sum to 1 *)
Definition settled (s : Qc) : bool :=
  bool_decide (s = 1%Qc) || (Float.abs (Fin s - one) >? tol)%F.

(** ** The table of the repository's test

    [test_vikor] of [test_topsisx.py]: four alternatives, three benefit
    criteria, the frame held by the caller at reference 0. *)

Definition ex_frame : Frame :=
  mkFrame 4 [(LStr "C1", IntCol [7; 8; 6; 9]);
             (LStr "C2", IntCol [9; 7; 8; 6]);
             (LStr "C3", IntCol [9; 6; 8; 7])] ∅.
Definition ex_world : world := World {[ 0 := ex_frame ]} [].
Definition ex_weights : list Qc := [dec 33 100; dec 33 100; dec 34 100].
Definition ex_impacts : list string := ["+"; "+"; "+"].
Definition ex_v : Qc := dec 1 2.

(** the reference and the world the call of the test returns *)
Definition ex_result : loc := result_loc (PyFrame 0) ex_world ex_frame.
Definition ex_after (v : Qc) : world :=
  world_after (PyFrame 0) ex_weights ex_impacts v false ex_world ex_frame.

(** weights that are all zero, and weights that sum to 1.0000005 *)
Definition zero_weights : list Qc := [0%Qc; 0%Qc; 0%Qc].
Definition near_weights : list Qc := [dec 33 100; dec 33 100; dec 3400005 10000000].

(** ** Closed forms of the failures and of the printed report *)

(** the exception numpy raises on a table without rows or without columns
    that passed the checks: the first reduction of an empty array *)
Definition empty_error (f0 : Frame) (impacts : list string) : exn :=
  if decide (0 < length (columns f0)) then
    if decide (impacts !! 0 = Some "+")
    then ValueError "zero-size array to reduction operation maximum which has no identity"
    else ValueError "zero-size array to reduction operation minimum which has no identity"
  else if decide (0 < nrows f0)
    then ValueError "zero-size array to reduction operation maximum which has no identity"
    else ValueError "zero-size array to reduction operation minimum which has no identity".

(** the exception of a call that does not return, for a table [f0] *)
Definition failure (f0 : Frame) (weights : list Qc) (impacts : list string) : exn :=
  match check_error f0 weights impacts with
  | Some e => e
  | None =>
      if decide (0 < nrows f0 ∧ 0 < length (columns f0))
      then ValueError "Cannot convert non-finite values (NA or inf) to integer"
      else empty_error f0 impacts
  end.

(** a table with a missing value, held by the caller at reference 0 *)
Definition nan_frame : Frame :=
  mkFrame 2 [(LStr "C1", FloatCol [Fin (dec 1 1); NaN]);
             (LStr "C2", FloatCol [Fin (dec 2 1); Fin (dec 3 1)])] ∅.
Definition nan_world : world := World {[ 0 := nan_frame ]} [].

(** [rk] ranks [m] alternatives: one rank each, between 1 and [m], and some
    alternative has rank 1 *)
Definition rank_column (m : nat) (rk : list nat) : Prop :=
  length rk = m ∧
  (∀ i r, rk !! i = Some r → 1 ≤ r ≤ m) ∧
  ∃ i, rk !! i = Some 1.

(** the keys of [result.attrs] that [vikor] writes (lines 151-156) *)
Definition attr_keys : list string :=
  ["C1_satisfied"; "C2_satisfied"; "DQ"; "compromise_status"; "compromise_set"].

(** the text of [compromise_status] (lines 131, 142, 149) *)
Definition status_text (C1 C2 : bool) (k : nat) : string :=
  if C1 && C2 then "Single compromise solution (C1 and C2 satisfied)"
  else if negb C1
  then "Multiple compromise solutions: " +:+ pretty k +:+
       " alternatives (C1 not satisfied)"
  else "Compromise set: " +:+ pretty k +:+ " alternatives (C2 not satisfied)".

(** a table with a single alternative, held by the caller at reference 0 *)
Definition one_frame : Frame :=
  mkFrame 1 [(LStr "C1", IntCol [5]); (LStr "C2", IntCol [3])] ∅.
Definition one_world : world := World {[ 0 := one_frame ]} [].
Definition half_weights : list Qc := [dec 1 2; dec 1 2].

(** a table whose second criterion is constant *)
Definition const_frame : Frame :=
  mkFrame 3 [(LStr "C1", IntCol [7; 8; 6]); (LStr "C2", IntCol [5; 5; 5])] ∅.
Definition const_world : world := World {[ 0 := const_frame ]} [].

(** * Verification *)

(** ** The monad *)

Lemma bind_ok {A B} (c : M A) (k : A → M B) w a w1 :
  c w = Ok a w1 → (c ≫= k) w = k a w1.
Proof. unfold mbind, M_bind. by intros ->. Qed.

Lemma bind_raise {A B} (c : M A) (k : A → M B) w e :
  c w = Raise e → (c ≫= k) w = Raise e.
Proof. unfold mbind, M_bind. by intros ->. Qed.

Lemma bind_inv {A B} (c : M A) (k : A → M B) w b w' :
  (c ≫= k) w = Ok b w' → ∃ a w1, c w = Ok a w1 ∧ k a w1 = Ok b w'.
Proof. unfold mbind, M_bind. destruct (c w); [eauto | done]. Qed.

Lemma bind_assoc {A B C} (c : M A) (k1 : A → M B) (k2 : B → M C) w :
  ((c ≫= k1) ≫= k2) w = (c ≫= λ a, k1 a ≫= k2) w.
Proof. unfold mbind, M_bind. by destruct (c w). Qed.

Lemma ret_bind {A B} (a : A) (k : A → M B) w : (mret a ≫= k) w = k a w.
Proof. done. Qed.

(** run the first command of the goal's computation, given its outcome *)
Ltac step H := rewrite ?bind_assoc; rewrite (bind_ok _ _ _ _ _ H); cbv beta.

Lemma for_each_app {A St} (l1 l2 : list A) (body : A → St → M St) s w :
  for_each (l1 ++ l2) body s w =
  (s' ← for_each l1 body s; for_each l2 body s') w.
Proof.
  revert s w. induction l1 as [|x l1 IH]; intros s w; [done|].
  simpl. unfold mbind, M_bind. destruct (body x s w); [apply IH | done].
Qed.

(** a loop over [range n] whose state after [j] rounds is [inv j] *)
Lemma for_each_range_ok {St} (body : nat → St → M St) (inv : nat → St) n w :
  (∀ j, j < n → body j (inv j) w = Ok (inv (S j)) w) →
  for_each (range n) body (inv 0) w = Ok (inv n) w.
Proof.
  unfold range. intros Hstep.
  cut (∀ n' k, k + n' = n → for_each (seq k n') body (inv k) w = Ok (inv n) w).
  { intros H. by apply H. }
  induction n' as [|n' IH]; intros k Hk; simpl.
  - by replace k with n by lia.
  - rewrite (bind_ok _ _ _ _ _ (Hstep k ltac:(lia))). apply IH. lia.
Qed.

(** ** Lists used as arrays *)

Lemma fill_step {A} (full : list A) (z x : A) n j :
  length full = n → full !! j = Some x →
  <[j := x]> (take j full ++ replicate (n - j) z) =
  take (S j) full ++ replicate (n - S j) z.
Proof.
  intros Hn Hj. assert (j < n) by (rewrite <-Hn; by eapply lookup_lt_Some).
  replace (n - j) with (S (n - S j)) by lia. simpl.
  rewrite insert_app_r_alt by (rewrite length_take; lia).
  rewrite length_take, Nat.min_l by lia. rewrite Nat.sub_diag. simpl.
  rewrite (take_S_r _ _ _ Hj). by rewrite <-app_assoc.
Qed.

Lemma fill_done {A} (full : list A) (z : A) n :
  length full = n → take n full ++ replicate (n - n) z = full.
Proof.
  intros <-. rewrite Nat.sub_diag, take_ge by done. apply app_nil_r.
Qed.

Lemma lookup_fmap_range {A} (f : nat → A) n j :
  j < n → (f <$> range n) !! j = Some (f j).
Proof.
  intros Hj. unfold range. rewrite list_lookup_fmap, lookup_seq_lt by done. done.
Qed.

Lemma length_fmap_range {A} (f : nat → A) n : length (f <$> range n) = n.
Proof. unfold range. by rewrite length_fmap, length_seq. Qed.

(** ** numpy *)

Lemma np_max_ok (a : list float) w : a ≠ [] → np.max a w = Ok (amax a) w.
Proof. by destruct a. Qed.
Lemma np_min_ok (a : list float) w : a ≠ [] → np.min a w = Ok (amin a) w.
Proof. by destruct a. Qed.
Lemma np_max_raise w : ∃ e, np.max [] w = Raise e.
Proof. by eexists. Qed.
Lemma np_min_raise w : ∃ e, np.min [] w = Raise e.
Proof. by eexists. Qed.

Lemma length_col matrix j : length (np.col matrix j) = length (np.rows matrix).
Proof. unfold np.col. by rewrite length_fmap. Qed.

Lemma length_values f :
  length (np.rows (pd.values f)) = nrows f.
Proof. simpl. apply length_fmap_range. Qed.

Lemma length_row f i :
  i < nrows f → length (np.row (pd.values f) i) = length (columns f).
Proof.
  intros Hi. unfold np.row. simpl.
  rewrite (list_lookup_total_correct _ _ _ (lookup_fmap_range _ _ _ Hi)).
  by rewrite length_fmap.
Qed.

Lemma length_ideal_of matrix impacts :
  length (ideal_of matrix impacts) = (np.shape matrix).2.
Proof. apply length_fmap_range. Qed.
Lemma length_anti_ideal_of matrix impacts :
  length (anti_ideal_of matrix impacts) = (np.shape matrix).2.
Proof. apply length_fmap_range. Qed.

Lemma length_normalize ws : length (normalize ws) = length ws.
Proof. unfold normalize, np.vdivs. case_match; [by rewrite length_fmap | done]. Qed.

Lemma length_weighted_distances ws ideal anti row n :
  length ws = n → length ideal = n → length anti = n → length row = n →
  length (weighted_distances ws ideal anti row) = n.
Proof.
  intros. unfold weighted_distances, np.vdiv, np.vmul, np.vsub, np.vadds.
  rewrite !length_zip_with, !length_fmap, !length_zip_with. lia.
Qed.

Lemma length_S_of matrix ws ideal anti :
  length (S_of matrix ws ideal anti) = (np.shape matrix).1.
Proof. apply length_fmap_range. Qed.
Lemma length_R_of matrix ws ideal anti :
  length (R_of matrix ws ideal anti) = (np.shape matrix).1.
Proof. apply length_fmap_range. Qed.

Lemma length_Q_of v S_ R_ :
  length R_ = length S_ → length (Q_of v S_ R_) = length S_.
Proof.
  intros H. unfold Q_of, np.vadd, np.vdivs, np.smul, np.vsubs.
  rewrite length_zip_with, !length_fmap. lia.
Qed.

Lemma length_ranks x : length (ranks x) = length x.
Proof. unfold ranks. by rewrite length_fmap. Qed.

(** ** pandas: the store *)

Lemma load_ok h out l f :
  h !! l = Some f → load l (World h out) = Ok f (World h out).
Proof. unfold load. simpl. by intros ->. Qed.

Lemma copy_ok h out l f :
  h !! l = Some f →
  pd.copy l (World h out) =
  Ok (fresh (dom h)) (World (<[fresh (dom h) := f]> h) out).
Proof. intros H. unfold pd.copy. by rewrite (bind_ok _ _ _ _ _ (load_ok _ _ _ _ H)). Qed.

Lemma fresh_lookup (h : gmap loc Frame) : h !! fresh (dom h) = None.
Proof. apply not_elem_of_dom, is_fresh. Qed.

Lemma setitem_ok h out l f k c :
  pd.col_length c = nrows f →
  pd.setitem l k c (World (<[l := f]> h) out) =
  Ok () (World (<[l := mkFrame (nrows f) (pd.set_assoc k c (columns f)) (attrs f)]> h) out).
Proof.
  intros Hc. unfold pd.setitem.
  rewrite (bind_ok _ _ _ _ _ (load_ok _ _ _ _ (lookup_insert_eq _ _ _))).
  rewrite decide_True by done. unfold store. simpl. by rewrite insert_insert_eq.
Qed.

Lemma setitem_scalar_ok h out l f k b :
  pd.setitem_scalar l k b (World (<[l := f]> h) out) =
  Ok () (World (<[l := mkFrame (nrows f)
                   (pd.set_assoc k (BoolCol (replicate (nrows f) b)) (columns f))
                   (attrs f)]> h) out).
Proof.
  unfold pd.setitem_scalar.
  rewrite (bind_ok _ _ _ _ _ (load_ok _ _ _ _ (lookup_insert_eq _ _ _))).
  unfold store. simpl. by rewrite insert_insert_eq.
Qed.

Lemma getitem_ok h out l f k c :
  pd.get_assoc k (columns f) = Some c →
  pd.getitem l k (World (<[l := f]> h) out) = Ok c (World (<[l := f]> h) out).
Proof.
  intros Hc. unfold pd.getitem.
  rewrite (bind_ok _ _ _ _ _ (load_ok _ _ _ _ (lookup_insert_eq _ _ _))).
  by rewrite Hc.
Qed.

Lemma loc_set_ok h out l f k xs idx b :
  pd.get_assoc k (columns f) = Some (BoolCol xs) →
  pd.loc_set l idx k b (World (<[l := f]> h) out) =
  Ok () (World (<[l := mkFrame (nrows f)
                   (pd.set_assoc k (BoolCol (<[idx := b]> xs)) (columns f))
                   (attrs f)]> h) out).
Proof.
  intros Hc. unfold pd.loc_set.
  rewrite (bind_ok _ _ _ _ _ (load_ok _ _ _ _ (lookup_insert_eq _ _ _))).
  rewrite Hc. unfold store. simpl. by rewrite insert_insert_eq.
Qed.

Lemma set_attr_ok h out l f key a :
  pd.set_attr l key a (World (<[l := f]> h) out) =
  Ok () (World (<[l := mkFrame (nrows f) (columns f) (<[key := a]> (attrs f))]> h) out).
Proof.
  unfold pd.set_attr.
  rewrite (bind_ok _ _ _ _ _ (load_ok _ _ _ _ (lookup_insert_eq _ _ _))).
  unfold store. simpl. by rewrite insert_insert_eq.
Qed.

Lemma sort_values_ok h out l f k keys :
  pd.get_assoc k (columns f) = Some (IntCol keys) → length keys = nrows f →
  pd.sort_values l k (World (<[l := f]> h) out) =
  Ok (pd.mkSorted (sorted_by keys) f) (World (<[l := f]> h) out).
Proof.
  intros Hc Hlen. unfold pd.sort_values.
  rewrite (bind_ok _ _ _ _ _ (load_ok _ _ _ _ (lookup_insert_eq _ _ _))).
  rewrite Hc. unfold sorted_by. by rewrite Hlen.
Qed.

Lemma sorted_values_ok order f k xs w :
  pd.get_assoc k (columns f) = Some (FloatCol xs) →
  pd.sorted_values (pd.mkSorted order f) k w = Ok ((λ i, xs !!! i) <$> order) w.
Proof. intros Hc. unfold pd.sorted_values. simpl. by rewrite Hc. Qed.

Lemma first_with_rank_1_ok h out l f k rk i :
  pd.get_assoc k (columns f) = Some (IntCol rk) →
  list_find (λ r, r = 1) rk = Some (i, 1) →
  pd.first_with_rank_1 l k (World (<[l := f]> h) out) =
  Ok (first_rank_1 rk) (World (<[l := f]> h) out).
Proof.
  intros Hc Hi. unfold pd.first_with_rank_1, first_rank_1.
  rewrite (bind_ok _ _ _ _ _ (load_ok _ _ _ _ (lookup_insert_eq _ _ _))).
  by rewrite Hc, Hi.
Qed.

Lemma print_ok h out s : print s (World h out) = Ok () (World h (out ++ [s])).
Proof. done. Qed.

Lemma py_index_ok {A} (l : list A) i x w :
  l !! i = Some x → py_index l i w = Ok x w.
Proof. unfold py_index. by intros ->. Qed.

(** ** pandas: columns *)

Lemma get_set_assoc_eq k c cols : pd.get_assoc k (pd.set_assoc k c cols) = Some c.
Proof.
  induction cols as [|[k' c'] cols IH]; simpl.
  - by rewrite decide_True.
  - destruct (decide (k' = k)) as [->|Hne]; simpl.
    + by rewrite decide_True.
    + by rewrite decide_False.
Qed.

Lemma get_set_assoc_ne k k' c cols :
  k ≠ k' → pd.get_assoc k (pd.set_assoc k' c cols) = pd.get_assoc k cols.
Proof.
  intros Hne. induction cols as [|[k'' c''] cols IH]; simpl.
  - by rewrite decide_False.
  - destruct (decide (k'' = k')) as [->|Hne']; simpl.
    + by rewrite !decide_False.
    + by rewrite IH.
Qed.

Lemma set_set_assoc k c c' cols :
  pd.set_assoc k c (pd.set_assoc k c' cols) = pd.set_assoc k c cols.
Proof.
  induction cols as [|[k'' c''] cols IH]; simpl.
  - by rewrite decide_True.
  - destruct (decide (k'' = k)) as [->|Hne]; simpl.
    + by rewrite decide_True.
    + by rewrite decide_False, IH.
Qed.

Lemma length_set_assoc_ge k c cols : length cols ≤ length (pd.set_assoc k c cols).
Proof.
  induction cols as [|[k' c'] cols IH]; simpl; [lia|].
  case_decide; simpl; lia.
Qed.

(** ** pandas: ranks *)

Lemma rank_no_nan x : no_nan x = true → pd.rank x = Some <$> ranks x.
Proof.
  unfold pd.rank, ranks, no_nan. intros H.
  rewrite <-list_fmap_compose. apply list_fmap_ext.
  intros i y Hy. simpl.
  rewrite forallb_forall in H.
  apply list_elem_of_lookup_2, list_elem_of_In, H in Hy.
  by destruct (isnan y).
Qed.

Lemma astype_int_Some rk w : pd.astype_int (Some <$> rk) w = Ok rk w.
Proof.
  revert w. induction rk as [|k rk IH]; intros w; [done|].
  simpl. by rewrite (bind_ok _ _ _ _ _ (IH w)).
Qed.

Lemma astype_int_ok x w : no_nan x = true → pd.astype_int (pd.rank x) w = Ok (ranks x) w.
Proof. intros H. rewrite (rank_no_nan _ H). apply astype_int_Some. Qed.

Lemma astype_int_raise_aux (r : list (option nat)) w :
  None ∈ r → ∃ e, pd.astype_int r w = Raise e.
Proof.
  induction r as [|[k|] r IH]; intros Hin.
  - by apply elem_of_nil in Hin.
  - apply elem_of_cons in Hin as [|Hin]; [done|].
    destruct (IH Hin) as [e He]. exists e. simpl. by rewrite (bind_raise _ _ _ _ He).
  - by eexists.
Qed.

Lemma astype_int_raise x w :
  no_nan x = false → ∃ e, pd.astype_int (pd.rank x) w = Raise e.
Proof.
  intros H. apply astype_int_raise_aux.
  unfold no_nan in H. apply not_true_iff_false in H.
  rewrite forallb_forall in H.
  apply list_elem_of_fmap.
  destruct (decide (NaN ∈ x)) as [Hin|Hnin].
  - exists NaN. split; [done|done].
  - exfalso. apply H. intros y Hy. apply list_elem_of_In in Hy.
    destruct y; try done.
Qed.

(** ** The order on floats *)

Lemma Qcltb_lt a b : Qcltb a b = true ↔ (a < b)%Qc.
Proof. unfold Qcltb. apply bool_decide_eq_true. Qed.
Lemma Qcleb_le a b : Qcleb a b = true ↔ (a ≤ b)%Qc.
Proof. unfold Qcleb. apply bool_decide_eq_true. Qed.
Lemma Qcltb_nlt a b : Qcltb a b = false ↔ (b ≤ a)%Qc.
Proof. unfold Qcltb. rewrite bool_decide_eq_false. symmetry. apply Qcle_ngt. Qed.
Lemma Qcleb_nle a b : Qcleb a b = false ↔ (b < a)%Qc.
Proof. unfold Qcleb. rewrite bool_decide_eq_false. symmetry. apply Qclt_nge. Qed.

Lemma ltb_irrefl x : (x <? x)%F = false.
Proof.
  destruct x; simpl; try done. apply Qcltb_nlt. apply Qcle_refl.
Qed.

Lemma ltb_trans x y z : (x <? y)%F = true → (y <? z)%F = true → (x <? z)%F = true.
Proof.
  destruct x, y, z; simpl; try done.
  rewrite !Qcltb_lt. apply Qclt_trans.
Qed.

Lemma ltb_asym x y : (x <? y)%F = true → (y <? x)%F = false.
Proof.
  intros H. destruct (y <? x)%F eqn:H'; [|done].
  by rewrite <-(ltb_irrefl x), (ltb_trans _ _ _ H H').
Qed.

Lemma ltb_total x y :
  isnan x = false → isnan y = false →
  (x <? y)%F = true ∨ x = y ∨ (y <? x)%F = true.
Proof.
  destruct x as [a| | |], y as [b| | |]; simpl; try done; auto.
  intros _ _. rewrite !Qcltb_lt.
  destruct (Qc_dec a b) as [[?|?]| ->]; auto.
Qed.

Lemma leb_ltb x y :
  isnan x = false → isnan y = false → (x <=? y)%F = negb (y <? x)%F.
Proof.
  destruct x as [a| | |], y as [b| | |]; simpl; try done.
  intros _ _. destruct (Qcltb b a) eqn:H.
  - apply Qcleb_nle. by apply Qcltb_lt.
  - apply Qcleb_le. by apply Qcltb_nlt.
Qed.

Lemma ltb_nan_l y : (NaN <? y)%F = false.
Proof. done. Qed.
Lemma ltb_nan_r x : (x <? NaN)%F = false.
Proof. by destruct x. Qed.

(** every non-empty array has an entry that nothing is strictly below *)
Lemma exists_least (x : list float) :
  x ≠ [] → ∃ i y, x !! i = Some y ∧ ∀ z, z ∈ x → (z <? y)%F = false.
Proof.
  induction x as [|a x IH]; [done|]. intros _.
  destruct x as [|b x].
  - exists 0, a. split; [done|]. intros z ->%list_elem_of_singleton. apply ltb_irrefl.
  - destruct IH as (i & y & Hi & Hy); [done|].
    destruct (a <? y)%F eqn:Hay.
    + exists 0, a. split; [done|]. intros z [->|Hz]%elem_of_cons.
      * apply ltb_irrefl.
      * destruct (z <? a)%F eqn:Hza; [|done].
        by rewrite <-(Hy z Hz), (ltb_trans _ _ _ Hza Hay).
    + exists (S i), y. split; [done|]. intros z [->|Hz]%elem_of_cons; auto.
Qed.

Lemma ranks_lookup x i y :
  x !! i = Some y →
  ranks x !! i = Some (S (length (filter (λ z, (z <? y)%F = true) x))).
Proof. intros H. unfold ranks. by rewrite list_lookup_fmap, H. Qed.

Lemma filter_nil_iff {A} (P : A → Prop) `{!∀ x, Decision (P x)} (l : list A) :
  length (filter P l) = 0 ↔ ∀ z, z ∈ l → ¬ P z.
Proof.
  rewrite length_zero_iff_nil. split.
  - intros Hnil z Hz HP.
    assert (z ∈ filter P l) as Hin by by apply list_elem_of_filter.
    rewrite Hnil in Hin. by apply elem_of_nil in Hin.
  - intros Hall. apply elem_of_nil_inv. intros z [HP Hz]%list_elem_of_filter.
    by apply (Hall z).
Qed.

Lemma ranks_find_1 x :
  x ≠ [] → ∃ i, list_find (λ r, r = 1) (ranks x) = Some (i, 1).
Proof.
  intros Hx. destruct (exists_least x Hx) as (i & y & Hi & Hy).
  assert (ranks x !! i = Some 1) as H1.
  { rewrite (ranks_lookup _ _ _ Hi). do 2 f_equal. apply filter_nil_iff.
    intros z Hz. rewrite (Hy z Hz). done. }
  destruct (list_find_elem_of (λ r, r = 1) (ranks x) 1) as [[i' r] Hf];
    [by eapply list_elem_of_lookup_2 | done |].
  exists i'. pose proof Hf as (_ & -> & _)%list_find_Some. done.
Qed.

(** ** Sorting *)

Lemma insert_row_perm key i l : pd.insert_row key i l ≡ₚ i :: l.
Proof.
  induction l as [|j l IH]; simpl; [done|].
  case_decide; [done|]. rewrite IH. apply Permutation_swap.
Qed.

Lemma sorted_by_perm keys : sorted_by keys ≡ₚ range (length keys).
Proof.
  unfold sorted_by. generalize (range (length keys)) as l.
  induction l as [|i l IH]; simpl; [done|].
  by rewrite insert_row_perm, IH.
Qed.

Lemma length_sorted_by keys : length (sorted_by keys) = length keys.
Proof. rewrite sorted_by_perm. unfold range. apply length_seq. Qed.

(** ** NaN in [Q] *)

Lemma Q_of_lookup v S_ R_ i s r :
  S_ !! i = Some s → R_ !! i = Some r →
  Q_of v S_ R_ !! i =
  Some (Fin v * (s - amin S_) / (amax S_ - amin S_ + eps)
        + (one - Fin v) * (r - amin R_) / (amax R_ - amin R_ + eps))%F.
Proof.
  intros Hs Hr. unfold Q_of, np.vadd, np.vdivs, np.smul, np.vsubs.
  rewrite lookup_zip_with, !list_lookup_fmap, Hs, Hr. done.
Qed.

Lemma no_nan_lookup x i y : no_nan x = true → x !! i = Some y → isnan y = false.
Proof.
  unfold no_nan. rewrite forallb_forall. intros H Hi.
  apply list_elem_of_lookup_2, list_elem_of_In, H in Hi. by destruct (isnan y).
Qed.

Lemma no_nan_intro x :
  (∀ i y, x !! i = Some y → isnan y = false) → no_nan x = true.
Proof.
  intros H. unfold no_nan. apply forallb_forall. intros y Hy.
  apply list_elem_of_In, list_elem_of_lookup_1 in Hy as [i Hi].
  by rewrite (H i y Hi).
Qed.

Lemma Q_no_nan v S_ R_ :
  length R_ = length S_ → no_nan (Q_of v S_ R_) = true →
  no_nan S_ = true ∧ no_nan R_ = true.
Proof.
  intros Hlen HQ. split; apply no_nan_intro; intros i y Hi.
  - destruct (lookup_lt_is_Some_2 R_ i) as [r Hr];
      [rewrite Hlen; by eapply lookup_lt_Some|].
    pose proof (no_nan_lookup _ _ _ HQ (Q_of_lookup v _ _ _ _ _ Hi Hr)) as Hq.
    by destruct y.
  - destruct (lookup_lt_is_Some_2 S_ i) as [s Hs];
      [rewrite <-Hlen; by eapply lookup_lt_Some|].
    pose proof (no_nan_lookup _ _ _ HQ (Q_of_lookup v _ _ _ _ _ Hs Hi)) as Hq.
    destruct y; try done.
    revert Hq. generalize (Fin v * (s - amin S_) / (amax S_ - amin S_ + eps))%F.
    by intros [].
Qed.

(** ** The two loops *)

Lemma loop_ideal_ok f impacts w :
  0 < nrows f → length impacts = length (columns f) →
  for_each (range (length (columns f))) (λ j '(ideal, anti_ideal),
      imp ← py_index impacts j;
      if decide (imp = "+") then
        hi ← np.max (np.col (pd.values f) j);
        lo ← np.min (np.col (pd.values f) j);
        mret (<[j := hi]> ideal, <[j := lo]> anti_ideal)
      else
        lo ← np.min (np.col (pd.values f) j);
        hi ← np.max (np.col (pd.values f) j);
        mret (<[j := lo]> ideal, <[j := hi]> anti_ideal))
      (np.zeros (length (columns f)), np.zeros (length (columns f))) w
  = Ok (ideal_of (pd.values f) impacts, anti_ideal_of (pd.values f) impacts) w.
Proof.
  intros Hm Himp. set (n := length (columns f)).
  set (inv := λ j, (take j (ideal_of (pd.values f) impacts) ++ replicate (n - j) zero,
                    take j (anti_ideal_of (pd.values f) impacts) ++ replicate (n - j) zero)).
  replace (np.zeros n, np.zeros n) with (inv 0)
    by (unfold inv; simpl; by rewrite Nat.sub_0_r).
  replace (ideal_of (pd.values f) impacts, anti_ideal_of (pd.values f) impacts)
    with (inv n).
  2:{ unfold inv. by rewrite !fill_done by apply length_fmap_range. }
  apply for_each_range_ok. intros j Hj. unfold inv at 1.
  destruct (lookup_lt_is_Some_2 impacts j) as [imp Himpj]; [by rewrite Himp|].
  rewrite (bind_ok _ _ _ _ _ (py_index_ok _ _ _ _ Himpj)).
  assert (np.col (pd.values f) j ≠ []) as Hcol.
  { intros H%(f_equal length). rewrite length_col, length_values in H. simpl in H. lia. }
  assert (ideal_of (pd.values f) impacts !! j
          = Some (if decide (imp = "+") then amax (np.col (pd.values f) j)
                  else amin (np.col (pd.values f) j))) as Hi.
  { unfold ideal_of. rewrite lookup_fmap_range by done. rewrite Himpj.
    f_equal. repeat case_decide; simplify_eq; done. }
  assert (anti_ideal_of (pd.values f) impacts !! j
          = Some (if decide (imp = "+") then amin (np.col (pd.values f) j)
                  else amax (np.col (pd.values f) j))) as Ha.
  { unfold anti_ideal_of. rewrite lookup_fmap_range by done. rewrite Himpj.
    f_equal. repeat case_decide; simplify_eq; done. }
  destruct (decide (imp = "+")).
  - rewrite (bind_ok _ _ _ _ _ (np_max_ok _ _ Hcol)).
    rewrite (bind_ok _ _ _ _ _ (np_min_ok _ _ Hcol)).
    unfold inv. unfold mret, M_ret. f_equal. f_equal; apply fill_step;
      try done; apply length_fmap_range.
  - rewrite (bind_ok _ _ _ _ _ (np_min_ok _ _ Hcol)).
    rewrite (bind_ok _ _ _ _ _ (np_max_ok _ _ Hcol)).
    unfold inv. unfold mret, M_ret. f_equal. f_equal; apply fill_step;
      try done; apply length_fmap_range.
Qed.

Lemma loop_SR_ok f ws ideal anti w :
  0 < length (columns f) →
  length ws = length (columns f) → length ideal = length (columns f) →
  length anti = length (columns f) →
  for_each (range (nrows f)) (λ i '(S_, R_),
      let weighted_distances :=
        np.vdiv (np.vmul ws (np.vsub ideal (np.row (pd.values f) i)))
                (np.vadds (np.vsub ideal anti) eps) in
      let s := np.sum weighted_distances in
      r ← np.max weighted_distances;
      mret (<[i := s]> S_, <[i := r]> R_))
      (np.zeros (nrows f), np.zeros (nrows f)) w
  = Ok (S_of (pd.values f) ws ideal anti, R_of (pd.values f) ws ideal anti) w.
Proof.
  intros Hn Hws Hid Han. set (m := nrows f).
  set (inv := λ i, (take i (S_of (pd.values f) ws ideal anti) ++ replicate (m - i) zero,
                    take i (R_of (pd.values f) ws ideal anti) ++ replicate (m - i) zero)).
  replace (np.zeros m, np.zeros m) with (inv 0)
    by (unfold inv; simpl; by rewrite Nat.sub_0_r).
  replace (S_of (pd.values f) ws ideal anti, R_of (pd.values f) ws ideal anti)
    with (inv m).
  2:{ unfold inv. by rewrite !fill_done by apply length_fmap_range. }
  apply for_each_range_ok. intros i Hi. unfold inv at 1. cbv zeta.
  fold (weighted_distances ws ideal anti (np.row (pd.values f) i)).
  assert (weighted_distances ws ideal anti (np.row (pd.values f) i) ≠ []) as Hne.
  { intros H%(f_equal length).
    rewrite (length_weighted_distances _ _ _ _ (length (columns f))) in H;
      try done; [simpl in H; lia | by apply length_row]. }
  rewrite (bind_ok _ _ _ _ _ (np_max_ok _ _ Hne)).
  unfold inv. unfold mret, M_ret. f_equal. f_equal; apply fill_step;
    try apply length_fmap_range.
  - unfold S_of. by rewrite lookup_fmap_range.
  - unfold R_of. by rewrite lookup_fmap_range.
Qed.

Lemma length_array ws : length (np.array ws) = length ws.
Proof. apply length_fmap. Qed.

Lemma loop_ideal_nil f impacts w :
  length (columns f) = 0 →
  for_each (range (length (columns f))) (λ j '(ideal, anti_ideal),
      imp ← py_index impacts j;
      if decide (imp = "+") then
        hi ← np.max (np.col (pd.values f) j);
        lo ← np.min (np.col (pd.values f) j);
        mret (<[j := hi]> ideal, <[j := lo]> anti_ideal)
      else
        lo ← np.min (np.col (pd.values f) j);
        hi ← np.max (np.col (pd.values f) j);
        mret (<[j := lo]> ideal, <[j := hi]> anti_ideal))
      (np.zeros (length (columns f)), np.zeros (length (columns f))) w
  = Ok ([], []) w.
Proof. intros ->. done. Qed.

Lemma loop_ideal_raise f impacts w :
  nrows f = 0 → 0 < length (columns f) → length impacts = length (columns f) →
  ∃ e, for_each (range (length (columns f))) (λ j '(ideal, anti_ideal),
      imp ← py_index impacts j;
      if decide (imp = "+") then
        hi ← np.max (np.col (pd.values f) j);
        lo ← np.min (np.col (pd.values f) j);
        mret (<[j := hi]> ideal, <[j := lo]> anti_ideal)
      else
        lo ← np.min (np.col (pd.values f) j);
        hi ← np.max (np.col (pd.values f) j);
        mret (<[j := lo]> ideal, <[j := hi]> anti_ideal))
      (np.zeros (length (columns f)), np.zeros (length (columns f))) w
  = Raise e.
Proof.
  intros Hm Hn Himp.
  destruct (length (columns f)) as [|n] eqn:Hlen; [lia|].
  destruct impacts as [|imp impacts]; [done|].
  assert (np.col (pd.values f) 0 = []) as Hcol.
  { apply length_zero_iff_nil. by rewrite length_col, length_values. }
  unfold range. simpl seq. simpl for_each.
  destruct (decide (imp = "+")) as [Heq|Hne]; eexists;
    step (py_index_ok (imp :: impacts) 0 imp w eq_refl);
    [rewrite decide_True by done | rewrite decide_False by done];
    rewrite Hcol; reflexivity.
Qed.

Lemma loop_SR_nil f ws w :
  nrows f = 0 →
  for_each (range (nrows f)) (λ i '(S_, R_),
      let weighted_distances :=
        np.vdiv (np.vmul ws (np.vsub [] (np.row (pd.values f) i)))
                (np.vadds (np.vsub [] []) eps) in
      let s := np.sum weighted_distances in
      r ← np.max weighted_distances;
      mret (<[i := s]> S_, <[i := r]> R_))
      (np.zeros (nrows f), np.zeros (nrows f)) w
  = Ok ([], []) w.
Proof. intros ->. done. Qed.

Lemma loop_SR_raise f ws w :
  0 < nrows f →
  ∃ e, for_each (range (nrows f)) (λ i '(S_, R_),
      let weighted_distances :=
        np.vdiv (np.vmul ws (np.vsub [] (np.row (pd.values f) i)))
                (np.vadds (np.vsub [] []) eps) in
      let s := np.sum weighted_distances in
      r ← np.max weighted_distances;
      mret (<[i := s]> S_, <[i := r]> R_))
      (np.zeros (nrows f), np.zeros (nrows f)) w
  = Raise e.
Proof.
  intros Hm. destruct (nrows f) as [|m]; [lia|].
  unfold range. simpl seq. simpl for_each.
  assert (np.vdiv (np.vmul ws []) [] = []) as ->.
  { unfold np.vdiv. by rewrite zip_with_nil_r. }
  by eexists.
Qed.

(** ** The compromise set and the tail of [vikor] *)

Lemma loop_members_ok (sorted_result : pd.SortedFrame) Q_ Q_sorted DQ result l :
  pd.get_assoc "Q" (columns (pd.sorted_of sorted_result)) = Some (FloatCol Q_) →
  0 < length Q_sorted →
  ∀ compromise_set xs n cols a h out,
  for_each l (λ idx compromise_set,
      q ← pd.sorted_loc sorted_result idx "Q";
      q0 ← py_index Q_sorted 0;
      if (q - q0 <? DQ)%F then
        pd.loc_set result idx "Is_Compromise" true;;
        mret (compromise_set ++ [idx])
      else mret compromise_set) compromise_set
    (World (<[result := mkFrame n (pd.set_assoc "Is_Compromise" (BoolCol xs) cols) a]> h)
           out)
  = Ok (compromise_set ++ filter (λ idx, close_to_best Q_ Q_sorted DQ idx = true) l)
       (World (<[result := mkFrame n
                 (pd.set_assoc "Is_Compromise"
                    (BoolCol (foldl (λ fl idx, <[idx := true]> fl) xs
                       (filter (λ idx, close_to_best Q_ Q_sorted DQ idx = true) l)))
                    cols) a]> h) out).
Proof.
  intros HQ Hlen. induction l as [|idx l IH]; intros cs xs n cols a h out.
  - simpl. by rewrite app_nil_r.
  - simpl for_each. rewrite bind_assoc.
    assert (pd.sorted_loc sorted_result idx "Q"
              (World (<[result := mkFrame n (pd.set_assoc "Is_Compromise" (BoolCol xs) cols) a]> h) out)
            = Ok (Q_ !!! idx)
              (World (<[result := mkFrame n (pd.set_assoc "Is_Compromise" (BoolCol xs) cols) a]> h) out))
      as Hq by (unfold pd.sorted_loc; by rewrite HQ).
    step Hq.
    destruct (lookup_lt_is_Some_2 Q_sorted 0 Hlen) as [q0 Hq0].
    step (py_index_ok _ _ _ (World (<[result := mkFrame n (pd.set_assoc "Is_Compromise" (BoolCol xs) cols) a]> h) out) Hq0).
    assert (close_to_best Q_ Q_sorted DQ idx = (Q_ !!! idx - q0 <? DQ)%F) as Hc'.
    { unfold close_to_best. by rewrite (list_lookup_total_correct Q_sorted 0 q0). }
    rewrite filter_cons, Hc'.
    destruct (Q_ !!! idx - q0 <? DQ)%F eqn:Hc.
    + rewrite decide_True by done.
      step (loc_set_ok h out result
              (mkFrame n (pd.set_assoc "Is_Compromise" (BoolCol xs) cols) a)
              "Is_Compromise" xs idx true (get_set_assoc_eq _ _ _)).
      simpl. rewrite ret_bind.
      rewrite set_set_assoc, IH. by rewrite <-app_assoc.
    + rewrite decide_False by (by rewrite not_true_iff_false).
      rewrite ret_bind. apply IH.
Qed.

Lemma loop_best_ok result l :
  ∀ compromise_set xs n cols a h out,
  for_each l (λ idx compromise_set,
      pd.loc_set result idx "Is_Compromise" true;;
      if decide (idx ∉ compromise_set) then mret (compromise_set ++ [idx])
      else mret compromise_set) compromise_set
    (World (<[result := mkFrame n (pd.set_assoc "Is_Compromise" (BoolCol xs) cols) a]> h)
           out)
  = Ok (foldl (λ cs idx, if decide (idx ∉ cs) then cs ++ [idx] else cs) compromise_set l)
       (World (<[result := mkFrame n
                 (pd.set_assoc "Is_Compromise"
                    (BoolCol (foldl (λ fl idx, <[idx := true]> fl) xs l)) cols) a]> h)
              out).
Proof.
  induction l as [|idx l IH]; intros cs xs n cols a h out; [done|].
  simpl for_each.
  step (loc_set_ok h out result
              (mkFrame n (pd.set_assoc "Is_Compromise" (BoolCol xs) cols) a)
              "Is_Compromise" xs idx true (get_set_assoc_eq _ _ _)).
  simpl. rewrite set_set_assoc.
  destruct (decide (idx ∉ cs)); rewrite ret_bind; apply IH.
Qed.

Lemma tail_ok result f h out (verbose C1_satisfied C2_satisfied : bool) DQ Q_diff
    best_Q_idx best_S_idx best_R_idx compromise_status compromise_set :
  (pd.set_attr result "C1_satisfied" (ABool C1_satisfied);;
  pd.set_attr result "C2_satisfied" (ABool C2_satisfied);;
  pd.set_attr result "DQ" (AFloat DQ);;
  pd.set_attr result "compromise_status" (AStr compromise_status);;
  pd.set_attr result "compromise_set" (AList compromise_set);;
    (if verbose then
     print (nl +:+ str_repeat "=" 70);;
     print "VIKOR ACCEPTANCE CONDITIONS CHECK";;
     print (str_repeat "=" 70);;
     print (nl +:+ "C1 (Acceptable Advantage): " +:+
            (if C1_satisfied : bool then "‚úÖ SATISFIED" else "‚ùå NOT SATISFIED"));;
     print ("   Required difference (DQ): " +:+ fmt4 DQ);;
     (match Q_diff with
      | Some Q_diff => print ("   Actual difference Q(2) - Q(1): " +:+ fmt4 Q_diff)
      | None => mret ()
      end : M ());;
     print (nl +:+ "C2 (Acceptable Stability): " +:+
            (if C2_satisfied : bool then "‚úÖ SATISFIED" else "‚ùå NOT SATISFIED"));;
     print ("   Best by Q: Alternative " +:+ pretty (best_Q_idx + 1));;
     print ("   Best by S: Alternative " +:+ pretty (best_S_idx + 1));;
     print ("   Best by R: Alternative " +:+ pretty (best_R_idx + 1));;
     print (nl +:+ "üìä COMPROMISE SOLUTION:");;
     print ("   " +:+ compromise_status);;
     print ("   Alternative(s): " +:+ fmt_list ((λ i, i + 1) <$> compromise_set));;
     print (str_repeat "=" 70 +:+ nl)
   else mret ());;
    mret result) (World (<[result := f]> h) out)
  = Ok result
      (World (<[result := mkFrame (nrows f) (columns f)
                 (<["compromise_set" := AList compromise_set]>
                 (<["compromise_status" := AStr compromise_status]>
                 (<["DQ" := AFloat DQ]>
                 (<["C2_satisfied" := ABool C2_satisfied]>
                 (<["C1_satisfied" := ABool C1_satisfied]> (attrs f))))))]> h)
             (out ++ if verbose
                     then log_lines C1_satisfied DQ Q_diff C2_satisfied best_Q_idx
                            best_S_idx best_R_idx compromise_status compromise_set
                     else [])).
Proof.
  repeat (rewrite (bind_ok _ _ _ _ _ (set_attr_ok _ _ _ _ _ _)); simpl).
  destruct verbose.
  - unfold log_lines. destruct Q_diff; simpl;
      unfold mbind, M_bind, mret, M_ret, print; simpl;
      by rewrite <-!app_assoc.
  - unfold mbind, M_bind, mret, M_ret. simpl. by rewrite app_nil_r.
Qed.

(** ** Projections of [run_of] that do not depend on the branch taken *)

Ltac run_proj :=
  unfold run_of; cbv zeta;
  repeat (match goal with
          | |- context [if ?b then mkRun _ _ _ _ _ _ _ _ _ _ _ _ _ _ _ _ _ _ else _] =>
              destruct b
          end);
  reflexivity.

Lemma run_S f0 weights impacts v :
  r_S (run_of f0 weights impacts v) =
  S_of (pd.values f0) (normalize (np.array weights))
       (ideal_of (pd.values f0) impacts) (anti_ideal_of (pd.values f0) impacts).
Proof. run_proj. Qed.
Lemma run_R f0 weights impacts v :
  r_R (run_of f0 weights impacts v) =
  R_of (pd.values f0) (normalize (np.array weights))
       (ideal_of (pd.values f0) impacts) (anti_ideal_of (pd.values f0) impacts).
Proof. run_proj. Qed.
Lemma run_Q f0 weights impacts v :
  r_Q (run_of f0 weights impacts v) =
  Q_of v (r_S (run_of f0 weights impacts v)) (r_R (run_of f0 weights impacts v)).
Proof. run_proj. Qed.
Lemma run_Q_Rank f0 weights impacts v :
  r_Q_Rank (run_of f0 weights impacts v) = ranks (r_Q (run_of f0 weights impacts v)).
Proof. run_proj. Qed.
Lemma run_S_Rank f0 weights impacts v :
  r_S_Rank (run_of f0 weights impacts v) = ranks (r_S (run_of f0 weights impacts v)).
Proof. run_proj. Qed.
Lemma run_R_Rank f0 weights impacts v :
  r_R_Rank (run_of f0 weights impacts v) = ranks (r_R (run_of f0 weights impacts v)).
Proof. run_proj. Qed.
Lemma run_order f0 weights impacts v :
  r_order (run_of f0 weights impacts v) =
  sorted_by (r_Q_Rank (run_of f0 weights impacts v)).
Proof. run_proj. Qed.
Lemma run_Q_sorted f0 weights impacts v :
  r_Q_sorted (run_of f0 weights impacts v) =
  (λ i, r_Q (run_of f0 weights impacts v) !!! i) <$> r_order (run_of f0 weights impacts v).
Proof. run_proj. Qed.
Lemma run_DQ f0 weights impacts v :
  r_DQ (run_of f0 weights impacts v) = DQ_of (nrows f0).
Proof. run_proj. Qed.
Lemma run_Q_diff f0 weights impacts v :
  r_Q_diff (run_of f0 weights impacts v) =
  if decide (1 < nrows f0)
  then Some ((r_Q_sorted (run_of f0 weights impacts v) !!! 1)
             - (r_Q_sorted (run_of f0 weights impacts v) !!! 0))%F
  else None.
Proof. run_proj. Qed.
Lemma run_C1 f0 weights impacts v :
  r_C1 (run_of f0 weights impacts v) =
  match r_Q_diff (run_of f0 weights impacts v) with
  | Some d => (d >=? r_DQ (run_of f0 weights impacts v))%F
  | None => true
  end.
Proof. run_proj. Qed.
Lemma run_best_Q f0 weights impacts v :
  r_best_Q (run_of f0 weights impacts v) = r_order (run_of f0 weights impacts v) !!! 0.
Proof. run_proj. Qed.
Lemma run_best_S f0 weights impacts v :
  r_best_S (run_of f0 weights impacts v) =
  first_rank_1 (r_S_Rank (run_of f0 weights impacts v)).
Proof. run_proj. Qed.
Lemma run_best_R f0 weights impacts v :
  r_best_R (run_of f0 weights impacts v) =
  first_rank_1 (r_R_Rank (run_of f0 weights impacts v)).
Proof. run_proj. Qed.
Lemma run_C2 f0 weights impacts v :
  r_C2 (run_of f0 weights impacts v) =
  bool_decide (r_best_Q (run_of f0 weights impacts v) = r_best_S (run_of f0 weights impacts v))
  || bool_decide (r_best_Q (run_of f0 weights impacts v) = r_best_R (run_of f0 weights impacts v)).
Proof. run_proj. Qed.

(** ** The three branches of [run_of] *)

Ltac run_branch :=
  unfold run_of in *; cbv zeta in *;
  repeat (match goal with
          | |- context [if ?b then mkRun _ _ _ _ _ _ _ _ _ _ _ _ _ _ _ _ _ _ else _] =>
              destruct b eqn:?
          end);
  cbn [r_S r_R r_Q r_Q_Rank r_S_Rank r_R_Rank r_order r_Q_sorted r_DQ r_Q_diff
       r_C1 r_C2 r_best_Q r_best_S r_best_R r_flags r_set r_status] in *;
  try done; try congruence.

Lemma run_single f0 weights impacts v :
  let r := run_of f0 weights impacts v in
  r_C1 r && r_C2 r = true →
  r_flags r = <[r_best_Q r := true]> (replicate (nrows f0) false) ∧
  r_set r = [r_best_Q r] ∧
  r_status r = "Single compromise solution (C1 and C2 satisfied)".
Proof. intros r H. unfold r in *. clear r. run_branch. Qed.

Lemma run_multiple f0 weights impacts v :
  let r := run_of f0 weights impacts v in
  r_C1 r = false →
  let members :=
    filter (λ idx, close_to_best (r_Q r) (r_Q_sorted r) (r_DQ r) idx = true)
           (r_order r) in
  r_flags r = foldl (λ fl idx, <[idx := true]> fl) (replicate (nrows f0) false) members ∧
  r_set r = members ∧
  r_status r = "Multiple compromise solutions: " +:+ pretty (length members) +:+
               " alternatives (C1 not satisfied)".
Proof.
  intros r H. unfold r in *. clear r. run_branch.
  - rewrite H in *. done.
  - rewrite H in *. done.
Qed.

Lemma run_union f0 weights impacts v :
  let r := run_of f0 weights impacts v in
  r_C1 r = true → r_C2 r = false →
  let members :=
    foldl (λ cs idx, if decide (idx ∉ cs) then cs ++ [idx] else cs) []
          [r_best_Q r; r_best_S r; r_best_R r] in
  r_flags r = <[r_best_R r := true]> (<[r_best_S r := true]>
                (<[r_best_Q r := true]> (replicate (nrows f0) false))) ∧
  r_set r = members ∧
  r_status r = "Compromise set: " +:+ pretty (length members) +:+
               " alternatives (C2 not satisfied)".
Proof.
  intros r H1 H2. unfold r in *. clear r. run_branch.
  - rewrite H1, H2 in *. done.
  - rewrite H1 in *. done.
Qed.

(** ** [vikor] and its closed form *)

Lemma shape_values f : np.shape (pd.values f) = (nrows f, length (columns f)).
Proof. done. Qed.

Lemma vikor_of_rows rows weights impacts v verbose h out :
  vikor (PyList rows) weights impacts v verbose (World h out)
  = vikor (PyFrame (fresh (dom h))) weights impacts v verbose
      (World (<[fresh (dom h) := pd.DataFrame_of_rows rows]> h) out).
Proof. done. Qed.

Lemma vikor_of_array rows weights impacts v verbose h out :
  vikor (PyArray rows) weights impacts v verbose (World h out)
  = vikor (PyFrame (fresh (dom h))) weights impacts v verbose
      (World (<[fresh (dom h) := pd.DataFrame_of_rows rows]> h) out).
Proof. done. Qed.

Ltac name_frame f :=
  lazymatch goal with |- context [<[_ := ?x]> _] => set (f := x) end.

Ltac solve_get :=
  simpl columns;
  repeat first [ apply get_set_assoc_eq | rewrite get_set_assoc_ne by discriminate ].

Lemma vikor_run_frame l0 weights impacts v verbose h out f0 :
  h !! l0 = Some f0 →
  if vikor_ok f0 weights impacts v
  then vikor (PyFrame l0) weights impacts v verbose (World h out)
       = Ok (result_loc (PyFrame l0) (World h out) f0)
            (world_after (PyFrame l0) weights impacts v verbose (World h out) f0)
  else ∃ e, vikor (PyFrame l0) weights impacts v verbose (World h out) = Raise e.
Proof.
  intros Hin.
  set (P := λ o : outcome loc,
    if vikor_ok f0 weights impacts v
    then o = Ok (result_loc (PyFrame l0) (World h out) f0)
            (world_after (PyFrame l0) weights impacts v verbose (World h out) f0)
    else ∃ e, o = Raise e).
  change (P (vikor (PyFrame l0) weights impacts v verbose (World h out))).
  unfold vikor. rewrite ret_bind.
  step (copy_ok h out l0 f0 Hin).
  step (load_ok (<[fresh (dom h) := f0]> h) out _ _ (lookup_insert_eq _ _ _)).
  cbv zeta. rewrite !shape_values. cbn [fst snd]. rewrite !length_array.
  fold (normalize (np.array weights)).
  set (df := fresh (dom h)). set (h1 := <[df := f0]> h).
  set (n := length (columns f0)). set (m := nrows f0).
  assert (∀ o, vikor_ok f0 weights impacts v = false → (∃ e, o = Raise e) → P o)
    as Hfail by (intros o Hok He; unfold P; by rewrite Hok).
  destruct (decide (length weights ≠ n)) as [Hw|Hw%dec_stable].
  { apply Hfail; [|by eexists]. unfold vikor_ok.
    by rewrite (bool_decide_eq_false_2 _ Hw). }
  destruct (decide (length impacts ≠ n)) as [Hi|Hi%dec_stable].
  { apply Hfail; [|by eexists]. unfold vikor_ok.
    by rewrite (bool_decide_eq_false_2 _ Hi), andb_false_r. }
  destruct (forallb (λ i, bool_decide (i ∈ ["+"; "-"])) impacts) eqn:Hsym; cbn [negb].
  2:{ apply Hfail; [|by eexists]. unfold vikor_ok. by rewrite Hsym, andb_false_r. }
  assert (length (normalize (np.array weights)) = n) as Hws
    by (by rewrite length_normalize, length_array).
  destruct (decide (0 < n)) as [Hn|Hn]; destruct (decide (0 < m)) as [Hm|Hm].
  2:{ (* no row, some column: the first loop raises *)
    destruct (loop_ideal_raise f0 impacts (World h1 out)) as [e He];
      [lia | done | done |].
    apply Hfail; [|exists e; by rewrite (bind_raise _ _ _ _ He)].
    unfold vikor_ok. rewrite (bool_decide_eq_false_2 (0 < nrows f0)) by done.
    by rewrite andb_false_r. }
  2:{ (* no column, some row: the second loop raises *)
    step (loop_ideal_nil f0 impacts (World h1 out) ltac:(unfold n in *; lia)).
    destruct (loop_SR_raise f0 (normalize (np.array weights)) (World h1 out) Hm)
      as [e He].
    apply Hfail; [|exists e; by rewrite (bind_raise _ _ _ _ He)].
    unfold vikor_ok. rewrite (bool_decide_eq_false_2 (0 < length (columns f0))) by done.
    by rewrite andb_false_r. }
  2:{ (* neither rows nor columns: [np.min(S)] raises *)
    step (loop_ideal_nil f0 impacts (World h1 out) ltac:(unfold n in *; lia)).
    step (loop_SR_nil f0 (normalize (np.array weights)) (World h1 out)
            ltac:(unfold m in *; lia)).
    apply Hfail; [|by eexists].
    unfold vikor_ok. rewrite (bool_decide_eq_false_2 (0 < nrows f0)) by done.
    by rewrite andb_false_r. }
  step (loop_ideal_ok f0 impacts (World h1 out) Hm Hi).
  step (loop_SR_ok f0 (normalize (np.array weights)) (ideal_of (pd.values f0) impacts)
          (anti_ideal_of (pd.values f0) impacts) (World h1 out) Hn Hws
          (length_ideal_of _ _) (length_anti_ideal_of _ _)).
  set (S_ := S_of (pd.values f0) (normalize (np.array weights))
               (ideal_of (pd.values f0) impacts) (anti_ideal_of (pd.values f0) impacts)).
  set (R_ := R_of (pd.values f0) (normalize (np.array weights))
               (ideal_of (pd.values f0) impacts) (anti_ideal_of (pd.values f0) impacts)).
  assert (length S_ = m) as HlS by apply length_S_of.
  assert (length R_ = m) as HlR by apply length_R_of.
  assert (S_ ≠ []) as HS0 by (intros E; rewrite E in HlS; simpl in HlS; lia).
  assert (R_ ≠ []) as HR0 by (intros E; rewrite E in HlR; simpl in HlR; lia).
  step (np_min_ok S_ (World h1 out) HS0).
  step (np_max_ok S_ (World h1 out) HS0).
  step (np_min_ok R_ (World h1 out) HR0).
  step (np_max_ok R_ (World h1 out) HR0).
  fold (Q_of v S_ R_). set (Q_ := Q_of v S_ R_).
  assert (length Q_ = m) as HlQ by (unfold Q_; rewrite length_Q_of; congruence).
  step (copy_ok h1 out df f0 (lookup_insert_eq _ _ _)).
  set (res := fresh (dom h1)).
  step (setitem_ok h1 out res f0 "S" (FloatCol S_) HlS).
  name_frame f1.
  step (setitem_ok h1 out res f1 "R" (FloatCol R_) HlR).
  name_frame f2.
  step (setitem_ok h1 out res f2 "Q" (FloatCol Q_) HlQ).
  name_frame f3.
  assert (r_S (run_of f0 weights impacts v) = S_) as HrS by apply run_S.
  assert (r_R (run_of f0 weights impacts v) = R_) as HrR by apply run_R.
  assert (r_Q (run_of f0 weights impacts v) = Q_) as HrQ
    by (by rewrite run_Q, HrS, HrR).
  destruct (no_nan Q_) eqn:HQ.
  2:{ destruct (astype_int_raise Q_ (World (<[res := f3]> h1) out) HQ) as [e He].
    apply Hfail; [|exists e; by rewrite (bind_raise _ _ _ _ He)].
    unfold vikor_ok. by rewrite HrQ, HQ, andb_false_r. }
  destruct (Q_no_nan v S_ R_ ltac:(congruence) HQ) as [HS HR].
  step (astype_int_ok Q_ (World (<[res := f3]> h1) out) HQ).
  step (setitem_ok h1 out res f3 "Q_Rank" (IntCol (ranks Q_))
          ltac:(simpl; by rewrite length_ranks)).
  name_frame f4.
  step (astype_int_ok S_ (World (<[res := f4]> h1) out) HS).
  step (setitem_ok h1 out res f4 "S_Rank" (IntCol (ranks S_))
          ltac:(simpl; by rewrite length_ranks)).
  name_frame f5.
  step (astype_int_ok R_ (World (<[res := f5]> h1) out) HR).
  step (setitem_ok h1 out res f5 "R_Rank" (IntCol (ranks R_))
          ltac:(simpl; by rewrite length_ranks)).
  name_frame f6.
  step (getitem_ok h1 out res f6 "Q_Rank" (IntCol (ranks Q_)) ltac:(solve_get)).
  step (setitem_ok h1 out res f6 "Rank" (IntCol (ranks Q_))
          ltac:(simpl; by rewrite length_ranks)).
  name_frame f7.
  step (sort_values_ok h1 out res f7 "Q_Rank" (ranks Q_) ltac:(solve_get)
          ltac:(simpl; by rewrite length_ranks)).
  cbn [pd.sorted_index].
  set (order := sorted_by (ranks Q_)).
  assert (length order = m) as Hlo
    by (unfold order; by rewrite length_sorted_by, length_ranks).
  step (sorted_values_ok order f7 "Q" Q_ (World (<[res := f7]> h1) out) ltac:(solve_get)).
  set (Q_sorted := (λ i, Q_ !!! i) <$> order).
  assert (length Q_sorted = m) as HlQs by (unfold Q_sorted; by rewrite length_fmap).
  fold (DQ_of m).
  set (Q_diff := if decide (1 < m)
                 then Some ((Q_sorted !!! 1) - (Q_sorted !!! 0))%F else None).
  set (C1 := match Q_diff with Some d => (d >=? DQ_of m)%F | None => true end).
  assert ((if decide (1 < m) then
             q1 ← py_index Q_sorted 1;
             q0 ← py_index Q_sorted 0;
             mret (Some (q1 - q0)%F, (q1 - q0 >=? DQ_of m)%F)
           else mret (None, true)) (World (<[res := f7]> h1) out)
          = Ok (Q_diff, C1) (World (<[res := f7]> h1) out)) as Hdiff.
  { unfold C1, Q_diff. destruct (decide (1 < m)); [|done].
    step (py_index_ok Q_sorted 1 _ (World (<[res := f7]> h1) out)
            (list_lookup_lookup_total_lt Q_sorted 1 ltac:(lia))).
    step (py_index_ok Q_sorted 0 _ (World (<[res := f7]> h1) out)
            (list_lookup_lookup_total_lt Q_sorted 0 ltac:(lia))).
    done. }
  step Hdiff. clear Hdiff.
  step (py_index_ok order 0 _ (World (<[res := f7]> h1) out)
          (list_lookup_lookup_total_lt order 0 ltac:(lia))).
  destruct (ranks_find_1 S_ HS0) as [iS HiS].
  destruct (ranks_find_1 R_ HR0) as [iR HiR].
  step (first_with_rank_1_ok h1 out res f7 "S_Rank" (ranks S_) iS ltac:(solve_get) HiS).
  step (first_with_rank_1_ok h1 out res f7 "R_Rank" (ranks R_) iR ltac:(solve_get) HiR).
  step (setitem_scalar_ok h1 out res f7 "Is_Compromise" false).
  set (best_Q := order !!! 0).
  set (best_S := first_rank_1 (ranks S_)).
  set (best_R := first_rank_1 (ranks R_)).
  set (C2 := bool_decide (best_Q = best_S) || bool_decide (best_Q = best_R)).
  name_frame f8.
  assert (r_Q_Rank (run_of f0 weights impacts v) = ranks Q_) as HrQR by (by rewrite run_Q_Rank, HrQ).
  assert (r_S_Rank (run_of f0 weights impacts v) = ranks S_) as HrSR by (by rewrite run_S_Rank, HrS).
  assert (r_R_Rank (run_of f0 weights impacts v) = ranks R_) as HrRR by (by rewrite run_R_Rank, HrR).
  assert (r_order (run_of f0 weights impacts v) = order) as Hro by (by rewrite run_order, HrQR).
  assert (r_Q_sorted (run_of f0 weights impacts v) = Q_sorted) as HrQs
    by (by rewrite run_Q_sorted, Hro, HrQ).
  assert (r_DQ (run_of f0 weights impacts v) = DQ_of m) as HrDQ by apply run_DQ.
  assert (r_Q_diff (run_of f0 weights impacts v) = Q_diff) as HrQd by (by rewrite run_Q_diff, HrQs).
  assert (r_C1 (run_of f0 weights impacts v) = C1) as HrC1 by (by rewrite run_C1, HrQd, HrDQ).
  assert (r_best_Q (run_of f0 weights impacts v) = best_Q) as HrbQ by (by rewrite run_best_Q, Hro).
  assert (r_best_S (run_of f0 weights impacts v) = best_S) as HrbS by (by rewrite run_best_S, HrSR).
  assert (r_best_R (run_of f0 weights impacts v) = best_R) as HrbR by (by rewrite run_best_R, HrRR).
  assert (r_C2 (run_of f0 weights impacts v) = C2) as HrC2 by (by rewrite run_C2, HrbQ, HrbS, HrbR).
  match goal with |- P ((?blk ≫= _) _) =>
    assert (blk (World (<[res := f8]> h1) out)
            = Ok (r_set (run_of f0 weights impacts v), r_status (run_of f0 weights impacts v))
                 (World (<[res := mkFrame (nrows f0)
                             (pd.set_assoc "Is_Compromise" (BoolCol (r_flags (run_of f0 weights impacts v)))
                                (columns f7)) (attrs f0)]> h1) out)) as Hblk
  end.
  { destruct (C1 && C2) eqn:HC.
    - destruct (run_single f0 weights impacts v) as (-> & -> & ->);
        [by rewrite HrC1, HrC2|]. rewrite HrbQ.
      step (loc_set_ok h1 out res f8 "Is_Compromise" (replicate (nrows f7) false)
              best_Q true ltac:(apply get_set_assoc_eq)).
      unfold f8. cbn [nrows columns attrs]. by rewrite set_set_assoc.
    - destruct C1 eqn:HC1; cbn [negb].
      + destruct (run_union f0 weights impacts v) as (-> & -> & ->);
          [done | rewrite HrC2; by destruct C2 |].
        rewrite HrbQ, HrbS, HrbR.
        step (loop_best_ok res [best_Q; best_S; best_R] [] (replicate (nrows f7) false)
                (nrows f7) (columns f7) (attrs f7) h1 out).
        done.
      + destruct (run_multiple f0 weights impacts v) as (-> & -> & ->); [done|].
        rewrite HrQ, HrQs, HrDQ, Hro.
        step (loop_members_ok (pd.mkSorted order f7) Q_ Q_sorted (DQ_of m) res order
                ltac:(solve_get) ltac:(lia) [] (replicate (nrows f7) false)
                (nrows f7) (columns f7) (attrs f7) h1 out).
        done. }
  step Hblk. clear Hblk.
  rewrite tail_ok. cbn [nrows columns attrs].
  unfold P. replace (vikor_ok f0 weights impacts v) with true.
  2:{ symmetry. unfold vikor_ok. rewrite HrQ, HQ, Hsym.
      by rewrite !bool_decide_eq_true_2 by done. }
  unfold world_after, log_of_run. cbv zeta.
  rewrite HrC1, HrC2, HrDQ, HrQd, HrbQ, HrbS, HrbR.
  f_equal. f_equal. f_equal. unfold frame_of_run.
  rewrite HrC1, HrC2, HrDQ, HrQR, HrSR, HrRR, HrS, HrR, HrQ. done.
Qed.


Theorem vikor_run data weights impacts v verbose w f0 :
  input_frame data w = Some f0 →
  if vikor_ok f0 weights impacts v
  then vikor data weights impacts v verbose w
       = Ok (result_loc data w f0) (world_after data weights impacts v verbose w f0)
  else ∃ e, vikor data weights impacts v verbose w = Raise e.
Proof.
  destruct w as [h out]. destruct data as [rows|rows|l0|]; simpl; intros Hin.
  - injection Hin as <-. rewrite vikor_of_rows.
    pose proof (vikor_run_frame (fresh (dom h)) weights impacts v verbose
                  (<[fresh (dom h) := pd.DataFrame_of_rows rows]> h) out
                  (pd.DataFrame_of_rows rows) (lookup_insert_eq _ _ _)) as Hr.
    unfold result_loc, world_after, df_loc, heap_of_input in *.
    cbn [heap stdout] in *. exact Hr.
  - injection Hin as <-. rewrite vikor_of_array.
    pose proof (vikor_run_frame (fresh (dom h)) weights impacts v verbose
                  (<[fresh (dom h) := pd.DataFrame_of_rows rows]> h) out
                  (pd.DataFrame_of_rows rows) (lookup_insert_eq _ _ _)) as Hr.
    unfold result_loc, world_after, df_loc, heap_of_input in *.
    cbn [heap stdout] in *. exact Hr.
  - by apply vikor_run_frame.
  - done.
Qed.

Lemma vikor_no_input data weights impacts v verbose w :
  input_frame data w = None → ∃ e, vikor data weights impacts v verbose w = Raise e.
Proof.
  destruct w as [h out]. destruct data as [rows|rows|l0|]; simpl; intros Hin; try done.
  - unfold vikor. rewrite ret_bind. unfold pd.copy. rewrite bind_assoc.
    eexists. apply bind_raise. unfold load. simpl. by rewrite Hin.
  - by eexists.
Qed.

(** [vikor] returns exactly when [vikor_ok] holds, and then leaves
    [world_after] *)
Theorem vikor_inv data weights impacts v verbose w l w' :
  vikor data weights impacts v verbose w = Ok l w' →
  ∃ f0, input_frame data w = Some f0 ∧
        vikor_ok f0 weights impacts v = true ∧
        l = result_loc data w f0 ∧
        w' = world_after data weights impacts v verbose w f0.
Proof.
  intros H. destruct (input_frame data w) as [f0|] eqn:Hin.
  - exists f0. pose proof (vikor_run data weights impacts v verbose w f0 Hin) as Hr.
    destruct (vikor_ok f0 weights impacts v).
    + rewrite H in Hr. by injection Hr as -> ->.
    + destruct Hr as [e He]. congruence.
  - destruct (vikor_no_input data weights impacts v verbose w Hin) as [e He].
    congruence.
Qed.

(** ** Reading the result *)

Lemma result_lookup data weights impacts v verbose w f0 :
  heap (world_after data weights impacts v verbose w f0) !! result_loc data w f0
  = Some (frame_of_run f0 (run_of f0 weights impacts v)).
Proof. unfold world_after. simpl. apply lookup_insert_eq. Qed.

Lemma result_column data weights impacts v verbose w f0 (k : label) :
  column_of (world_after data weights impacts v verbose w f0) (result_loc data w f0) k
  = pd.get_assoc k (columns (frame_of_run f0 (run_of f0 weights impacts v))).
Proof. unfold column_of. by rewrite result_lookup. Qed.

Lemma result_attr data weights impacts v verbose w f0 key :
  attr_of (world_after data weights impacts v verbose w f0) (result_loc data w f0) key
  = attrs (frame_of_run f0 (run_of f0 weights impacts v)) !! key.
Proof. unfold attr_of. by rewrite result_lookup. Qed.

Lemma frame_of_run_columns f0 r :
  pd.get_assoc "S" (columns (frame_of_run f0 r)) = Some (FloatCol (r_S r)) ∧
  pd.get_assoc "R" (columns (frame_of_run f0 r)) = Some (FloatCol (r_R r)) ∧
  pd.get_assoc "Q" (columns (frame_of_run f0 r)) = Some (FloatCol (r_Q r)) ∧
  pd.get_assoc "Q_Rank" (columns (frame_of_run f0 r)) = Some (IntCol (r_Q_Rank r)) ∧
  pd.get_assoc "S_Rank" (columns (frame_of_run f0 r)) = Some (IntCol (r_S_Rank r)) ∧
  pd.get_assoc "R_Rank" (columns (frame_of_run f0 r)) = Some (IntCol (r_R_Rank r)) ∧
  pd.get_assoc "Rank" (columns (frame_of_run f0 r)) = Some (IntCol (r_Q_Rank r)) ∧
  pd.get_assoc "Is_Compromise" (columns (frame_of_run f0 r)) = Some (BoolCol (r_flags r)).
Proof. unfold frame_of_run. repeat split; solve_get. Qed.

Lemma frame_of_run_attrs f0 r :
  attrs (frame_of_run f0 r) !! "C1_satisfied" = Some (ABool (r_C1 r)) ∧
  attrs (frame_of_run f0 r) !! "C2_satisfied" = Some (ABool (r_C2 r)) ∧
  attrs (frame_of_run f0 r) !! "DQ" = Some (AFloat (r_DQ r)) ∧
  attrs (frame_of_run f0 r) !! "compromise_status" = Some (AStr (r_status r)) ∧
  attrs (frame_of_run f0 r) !! "compromise_set" = Some (AList (r_set r)).
Proof.
  unfold frame_of_run. simpl.
  repeat split;
    repeat first [ apply lookup_insert_eq | rewrite lookup_insert_ne by discriminate ].
Qed.

(** ** Maximum and minimum of an array *)

Lemma leb_refl x : isnan x = false → (x <=? x)%F = true.
Proof. destruct x; simpl; try done. intros _. apply Qcleb_le, Qcle_refl. Qed.

Lemma leb_trans x y z : (x <=? y)%F = true → (y <=? z)%F = true → (x <=? z)%F = true.
Proof.
  destruct x, y, z; simpl; try done.
  rewrite !Qcleb_le. apply Qcle_trans.
Qed.

Lemma leb_antisym x y : (x <=? y)%F = true → (y <=? x)%F = true → x = y.
Proof.
  destruct x, y; simpl; try done.
  rewrite !Qcleb_le. intros H1 H2. f_equal. by apply Qcle_antisym.
Qed.

Lemma leb_not_nan_l x y : (x <=? y)%F = true → isnan x = false.
Proof. by destruct x. Qed.
Lemma leb_not_nan_r x y : (x <=? y)%F = true → isnan y = false.
Proof. by destruct x, y. Qed.

Lemma ltb_leb x y : (x <? y)%F = true → (x <=? y)%F = true.
Proof.
  destruct x, y; simpl; try done.
  rewrite Qcltb_lt, Qcleb_le. apply Qclt_le_weak.
Qed.

Lemma nltb_leb x y :
  isnan x = false → isnan y = false → (x <? y)%F = false → (y <=? x)%F = true.
Proof. intros Hx Hy H. by rewrite leb_ltb, H. Qed.

Lemma maximum_spec x y :
  isnan x = false → isnan y = false →
  isnan (np.maximum x y) = false ∧
  (np.maximum x y = x ∨ np.maximum x y = y) ∧
  (x <=? np.maximum x y)%F = true ∧ (y <=? np.maximum x y)%F = true.
Proof.
  intros Hx Hy. unfold np.maximum. rewrite Hx, Hy.
  destruct (x <? y)%F eqn:H; repeat split; auto using leb_refl, ltb_leb, nltb_leb.
Qed.

Lemma minimum_spec x y :
  isnan x = false → isnan y = false →
  isnan (np.minimum x y) = false ∧
  (np.minimum x y = x ∨ np.minimum x y = y) ∧
  (np.minimum x y <=? x)%F = true ∧ (np.minimum x y <=? y)%F = true.
Proof.
  intros Hx Hy. unfold np.minimum. rewrite Hx, Hy.
  destruct (y <? x)%F eqn:H; repeat split; auto using leb_refl, ltb_leb, nltb_leb.
Qed.

Lemma foldl_maximum_spec a x :
  isnan x = false → no_nan a = true →
  let r := foldl np.maximum x a in
  isnan r = false ∧ r ∈ x :: a ∧ ∀ y, y ∈ x :: a → (y <=? r)%F = true.
Proof.
  revert x. induction a as [|z a IH]; intros x Hx Ha; simpl.
  - split; [done|]. split; [by left|].
    intros y ->%list_elem_of_singleton. by apply leb_refl.
  - unfold no_nan in Ha. simpl in Ha. apply andb_true_iff in Ha as [Hz Ha].
    apply negb_true_iff in Hz.
    destruct (maximum_spec x z Hx Hz) as (Hn & Hor & Hxm & Hzm).
    destruct (IH (np.maximum x z) Hn Ha) as (Hr & Hin & Hle).
    split; [done|]. split.
    + apply elem_of_cons in Hin as [->|Hin].
      * destruct Hor as [->| ->]; [by left | right; by left].
      * right. by right.
    + intros y [->|[->|Hy]%elem_of_cons]%elem_of_cons.
      * eapply leb_trans; [apply Hxm|]. apply Hle. by left.
      * eapply leb_trans; [apply Hzm|]. apply Hle. by left.
      * apply Hle. by right.
Qed.

Lemma foldl_minimum_spec a x :
  isnan x = false → no_nan a = true →
  let r := foldl np.minimum x a in
  isnan r = false ∧ r ∈ x :: a ∧ ∀ y, y ∈ x :: a → (r <=? y)%F = true.
Proof.
  revert x. induction a as [|z a IH]; intros x Hx Ha; simpl.
  - split; [done|]. split; [by left|].
    intros y ->%list_elem_of_singleton. by apply leb_refl.
  - unfold no_nan in Ha. simpl in Ha. apply andb_true_iff in Ha as [Hz Ha].
    apply negb_true_iff in Hz.
    destruct (minimum_spec x z Hx Hz) as (Hn & Hor & Hxm & Hzm).
    destruct (IH (np.minimum x z) Hn Ha) as (Hr & Hin & Hle).
    split; [done|]. split.
    + apply elem_of_cons in Hin as [->|Hin].
      * destruct Hor as [->| ->]; [by left | right; by left].
      * right. by right.
    + intros y [->|[->|Hy]%elem_of_cons]%elem_of_cons.
      * eapply leb_trans; [|apply Hxm]. apply Hle. by left.
      * eapply leb_trans; [|apply Hzm]. apply Hle. by left.
      * apply Hle. by right.
Qed.

Lemma amax_is_max a : a ≠ [] → no_nan a = true → is_max (amax a) a.
Proof.
  destruct a as [|x a]; [done|]. intros _ Ha.
  unfold no_nan in Ha. simpl in Ha. apply andb_true_iff in Ha as [Hx Ha].
  apply negb_true_iff in Hx.
  destruct (foldl_maximum_spec a x Hx Ha) as (_ & Hin & Hle). by split.
Qed.

Lemma amin_is_min a : a ≠ [] → no_nan a = true → is_min (amin a) a.
Proof.
  destruct a as [|x a]; [done|]. intros _ Ha.
  unfold no_nan in Ha. simpl in Ha. apply andb_true_iff in Ha as [Hx Ha].
  apply negb_true_iff in Hx.
  destruct (foldl_minimum_spec a x Hx Ha) as (_ & Hin & Hle). by split.
Qed.

(** a NaN in the array is what [np.max], [np.min] and [sum] return *)
Lemma foldl_maximum_nan_acc a : foldl np.maximum NaN a = NaN.
Proof. induction a; [done|]. simpl. apply IHa. Qed.
Lemma foldl_minimum_nan_acc a : foldl np.minimum NaN a = NaN.
Proof. induction a; [done|]. simpl. apply IHa. Qed.

Lemma foldl_maximum_nan a x : NaN ∈ a → foldl np.maximum x a = NaN.
Proof.
  revert x. induction a as [|z a IH]; intros x Hin; [by apply elem_of_nil in Hin|].
  simpl. apply elem_of_cons in Hin as [<-|Hin]; [|by apply IH].
  replace (np.maximum x NaN) with NaN; [apply foldl_maximum_nan_acc|].
  unfold np.maximum. by destruct x.
Qed.
Lemma foldl_minimum_nan a x : NaN ∈ a → foldl np.minimum x a = NaN.
Proof.
  revert x. induction a as [|z a IH]; intros x Hin; [by apply elem_of_nil in Hin|].
  simpl. apply elem_of_cons in Hin as [<-|Hin]; [|by apply IH].
  replace (np.minimum x NaN) with NaN; [apply foldl_minimum_nan_acc|].
  unfold np.minimum. by destruct x.
Qed.

Lemma amax_nan a : NaN ∈ a → amax a = NaN.
Proof.
  destruct a as [|x a]; [by intros ?%elem_of_nil|].
  intros [<-|Hin]%elem_of_cons; simpl;
    [apply foldl_maximum_nan_acc | by apply foldl_maximum_nan].
Qed.
Lemma amin_nan a : NaN ∈ a → amin a = NaN.
Proof.
  destruct a as [|x a]; [by intros ?%elem_of_nil|].
  intros [<-|Hin]%elem_of_cons; simpl;
    [apply foldl_minimum_nan_acc | by apply foldl_minimum_nan].
Qed.

Lemma add_nan_l y : (NaN + y)%F = NaN.
Proof. done. Qed.
Lemma add_nan_r x : (x + NaN)%F = NaN.
Proof. by destruct x. Qed.

Lemma foldl_add_nan_acc a : foldl Float.add NaN a = NaN.
Proof. induction a; [done|]. simpl. apply IHa. Qed.

Lemma sum_nan a : NaN ∈ a → np.sum a = NaN.
Proof.
  unfold np.sum. generalize zero. induction a as [|z a IH]; intros x Hin;
    [by apply elem_of_nil in Hin|].
  simpl. apply elem_of_cons in Hin as [<-|Hin]; [|by apply IH].
  rewrite add_nan_r. apply foldl_add_nan_acc.
Qed.

Lemma not_nan_elem a : no_nan a = true ↔ NaN ∉ a.
Proof.
  split.
  - intros H Hin. apply list_elem_of_lookup_1 in Hin as [i Hi].
    by pose proof (no_nan_lookup _ _ _ H Hi).
  - intros H. apply no_nan_intro. intros i y Hi. destruct y; try done.
    destruct H. by eapply list_elem_of_lookup_2.
Qed.

(** ** Finiteness *)

Lemma eps_pos : (0 < dec 1 10000000000)%Qc.
Proof. done. Qed.

Lemma all_finite_lookup a i x : all_finite a = true → a !! i = Some x → isfinite x = true.
Proof.
  unfold all_finite. rewrite forallb_forall. intros H Hi.
  by apply H, list_elem_of_In, list_elem_of_lookup_2 with i.
Qed.

Lemma all_finite_intro a :
  (∀ i x, a !! i = Some x → isfinite x = true) → all_finite a = true.
Proof.
  intros H. unfold all_finite. apply forallb_forall. intros y Hy.
  apply list_elem_of_In, list_elem_of_lookup_1 in Hy as [i Hi]. by apply (H i).
Qed.

Lemma all_finite_elem a x : all_finite a = true → x ∈ a → isfinite x = true.
Proof.
  intros H [i Hi]%list_elem_of_lookup_1. by eapply all_finite_lookup.
Qed.

Lemma all_finite_no_nan a : all_finite a = true → no_nan a = true.
Proof.
  intros H. apply no_nan_intro. intros i y Hi.
  pose proof (all_finite_lookup _ _ _ H Hi). by destruct y.
Qed.

Lemma isfinite_Fin x : isfinite x = true → ∃ q, x = Fin q.
Proof. destruct x; try done. eauto. Qed.

Lemma leb_pinf x : (PInf <=? x)%F = true → x = PInf.
Proof. by destruct x. Qed.
Lemma leb_ninf x : (x <=? NInf)%F = true → x = NInf.
Proof. by destruct x. Qed.

Lemma gap_nonzero (lo hi : Qc) : (lo ≤ hi)%Qc → (hi + - lo + dec 1 10000000000)%Qc ≠ 0%Qc.
Proof.
  intros Hle Heq.
  assert (0 < hi + - lo + dec 1 10000000000)%Qc as Hpos.
  { apply Qcplus_nonneg_pos; [|apply eps_pos]. by apply Qcle_minus_iff in Hle. }
  rewrite Heq in Hpos. by apply Qclt_not_eq in Hpos.
Qed.

(** a term of [Q] whose numerator involves an infinity is a NaN *)
Lemma term_pinf c lo :
  isnan lo = false → isnan (Fin c * (PInf - lo) / (PInf - lo + eps))%F = true.
Proof.
  destruct lo; simpl; try done; intros _;
    (destruct (decide _); [done|]; by destruct (neg c)).
Qed.

Lemma term_ninf c hi : isnan (Fin c * (NInf - NInf) / (hi - NInf + eps))%F = true.
Proof. done. Qed.

Lemma isnan_add_l x y : isnan x = true → isnan (x + y)%F = true.
Proof. by destruct x. Qed.
Lemma isnan_add_r x y : isnan y = true → isnan (x + y)%F = true.
Proof. by destruct x, y. Qed.

(** when no [Q] is a NaN, no [S] and no [R] is infinite *)
Lemma no_inf c lo hi a x :
  no_nan a = true → is_min lo a → is_max hi a → x ∈ a →
  isnan (Fin c * (x - lo) / (hi - lo + eps))%F = false → isfinite x = true.
Proof.
  intros Ha [Hlo Hmin] [Hhi Hmax] Hx Hq.
  destruct x as [q| | |]; [done| | |].
  - pose proof (leb_pinf _ (Hmax _ Hx)) as ->.
    rewrite term_pinf in Hq; [done|].
    apply not_nan_elem in Ha. destruct lo; try done.
  - pose proof (leb_ninf _ (Hmin _ Hx)) as ->. by rewrite term_ninf in Hq.
  - apply not_nan_elem in Ha. done.
Qed.

Lemma isnan_add_inv x y : isnan (x + y)%F = false → isnan x = false ∧ isnan y = false.
Proof. by destruct x, y. Qed.

Lemma Q_finite v S_ R_ :
  length R_ = length S_ → S_ ≠ [] → no_nan (Q_of v S_ R_) = true →
  all_finite S_ = true ∧ all_finite R_ = true ∧ all_finite (Q_of v S_ R_) = true.
Proof.
  intros Hlen HS0 HQ.
  assert (R_ ≠ []) as HR0 by (destruct R_, S_; done).
  destruct (Q_no_nan v S_ R_ Hlen HQ) as [HS HR].
  pose proof (amin_is_min S_ HS0 HS) as HminS.
  pose proof (amax_is_max S_ HS0 HS) as HmaxS.
  pose proof (amin_is_min R_ HR0 HR) as HminR.
  pose proof (amax_is_max R_ HR0 HR) as HmaxR.
  assert (∀ i s r, S_ !! i = Some s → R_ !! i = Some r →
                   isfinite s = true ∧ isfinite r = true) as Hfin.
  { intros i s r Hs Hr.
    pose proof (no_nan_lookup _ _ _ HQ (Q_of_lookup v _ _ _ _ _ Hs Hr)) as Hq.
    apply isnan_add_inv in Hq as [Hq1 Hq2]. split.
    - eapply (no_inf v (amin S_) (amax S_) S_ s); eauto.
      by eapply list_elem_of_lookup_2.
    - assert ((one - Fin v)%F = Fin (1 + - v)%Qc) as E by done. rewrite E in Hq2.
      eapply (no_inf _ (amin R_) (amax R_) R_ r); eauto.
      by eapply list_elem_of_lookup_2. }
  assert (all_finite S_ = true) as HfS.
  { apply all_finite_intro. intros i s Hs.
    destruct (lookup_lt_is_Some_2 R_ i) as [r Hr];
      [rewrite Hlen; by eapply lookup_lt_Some|].
    by destruct (Hfin i s r Hs Hr). }
  assert (all_finite R_ = true) as HfR.
  { apply all_finite_intro. intros i r Hr.
    destruct (lookup_lt_is_Some_2 S_ i) as [s Hs];
      [rewrite <-Hlen; by eapply lookup_lt_Some|].
    by destruct (Hfin i s r Hs Hr). }
  split; [done|]. split; [done|].
  apply all_finite_intro. intros i q Hq.
  assert (i < length S_) as Hi.
  { apply lookup_lt_Some in Hq. rewrite length_Q_of in Hq; done. }
  destruct (lookup_lt_is_Some_2 S_ i Hi) as [s Hs].
  destruct (lookup_lt_is_Some_2 R_ i) as [r Hr]; [by rewrite Hlen|].
  rewrite (Q_of_lookup v _ _ _ _ _ Hs Hr) in Hq. injection Hq as <-.
  destruct HminS as [HinS HleS], HmaxS as [HinS' HleS'].
  destruct HminR as [HinR HleR], HmaxR as [HinR' HleR'].
  destruct (isfinite_Fin _ (all_finite_elem _ _ HfS HinS)) as [slo Eslo].
  destruct (isfinite_Fin _ (all_finite_elem _ _ HfS HinS')) as [shi Eshi].
  destruct (isfinite_Fin _ (all_finite_elem _ _ HfR HinR)) as [rlo Erlo].
  destruct (isfinite_Fin _ (all_finite_elem _ _ HfR HinR')) as [rhi Erhi].
  destruct (isfinite_Fin _ (all_finite_lookup _ _ _ HfS Hs)) as [sq ->].
  destruct (isfinite_Fin _ (all_finite_lookup _ _ _ HfR Hr)) as [rq ->].
  pose proof (HleS _ HinS') as HS1. pose proof (HleR _ HinR') as HR1.
  rewrite Eslo, Eshi in *. rewrite Erlo, Erhi in *.
  simpl in HS1, HR1. apply Qcleb_le in HS1, HR1.
  unfold eps. simpl.
  rewrite !decide_False by by apply gap_nonzero. done.
Qed.

(** ** [sort_values] *)

Lemma insert_row_elem key i l j : j ∈ pd.insert_row key i l ↔ j = i ∨ j ∈ l.
Proof. rewrite insert_row_perm. apply elem_of_cons. Qed.

Lemma insert_row_sorted key i l :
  StronglySorted (before key) l → Forall (λ j, i < j) l →
  StronglySorted (before key) (pd.insert_row key i l).
Proof.
  induction 1 as [|j l Hl IH Hj]; intros Hlt; simpl.
  - repeat constructor.
  - apply Forall_cons in Hlt as [Hij Hlt].
    destruct (decide (key i ≤ key j)) as [Hle|Hnle].
    + constructor; [by constructor|].
      constructor.
      * unfold before. lia.
      * rewrite Forall_forall in Hj, Hlt |- *. intros k Hk.
        specialize (Hj k Hk). specialize (Hlt k Hk). unfold before in *. lia.
    + constructor; [by apply IH|].
      apply Forall_forall. intros k [->|Hk]%insert_row_elem.
      * unfold before. lia.
      * rewrite Forall_forall in Hj. by apply Hj.
Qed.

Lemma sorted_by_sorted keys :
  StronglySorted (before (λ i, keys !!! i)) (sorted_by keys).
Proof.
  unfold sorted_by, range. generalize 0 as k. generalize (length keys) as n.
  set (key := λ i, keys !!! i).
  assert (∀ n k, StronglySorted (before key) (foldr (pd.insert_row key) [] (seq k n)) ∧
                 Forall (λ j, k ≤ j) (foldr (pd.insert_row key) [] (seq k n))) as H.
  { induction n as [|n IH]; intros k; simpl; [by repeat constructor|].
    destruct (IH (S k)) as [Hs Hf]. split.
    - apply insert_row_sorted; [done|].
      eapply Forall_impl; [apply Hf|]. simpl. lia.
    - apply Forall_forall. intros j [->|Hj]%insert_row_elem; [lia|].
      rewrite Forall_forall in Hf. specialize (Hf j Hj). lia. }
  intros n k. apply H.
Qed.

Lemma sorted_by_elem keys i : i ∈ sorted_by keys ↔ i < length keys.
Proof.
  rewrite sorted_by_perm. unfold range. rewrite elem_of_seq. lia.
Qed.

Lemma sorted_by_NoDup keys : NoDup (sorted_by keys).
Proof. rewrite sorted_by_perm. apply NoDup_seq. Qed.

(** the first row of the sorted frame is the first row with the least key *)
Lemma sorted_by_head keys b :
  sorted_by keys !! 0 = Some b →
  b < length keys ∧
  ∀ j, j < length keys → j ≠ b → before (λ i, keys !!! i) b j.
Proof.
  intros Hb. pose proof (sorted_by_sorted keys) as Hs.
  pose proof (sorted_by_NoDup keys) as Hnd.
  assert (∀ j, j ∈ sorted_by keys ↔ j < length keys) as Hel
    by (intros; apply sorted_by_elem).
  destruct (sorted_by keys) as [|b' l]; [done|]. injection Hb as ->.
  apply StronglySorted_inv in Hs as [_ Hall].
  split; [apply Hel; by left|].
  intros j Hj Hne. rewrite Forall_forall in Hall. apply Hall.
  apply Hel in Hj. apply elem_of_cons in Hj as [->|]; done.
Qed.

(** ** Ranks *)

Lemma count_below_le x a b :
  (∀ z, z ∈ x → (z <? a)%F = true → (z <? b)%F = true) →
  count_below x a ≤ count_below x b.
Proof.
  unfold count_below. induction x as [|y x IH]; intros H; [done|].
  rewrite !filter_cons.
  assert (length (filter (λ z, (z <? a)%F = true) x)
          ≤ length (filter (λ z, (z <? b)%F = true) x)) as IH'.
  { apply IH. intros z Hz. apply H. by right. }
  destruct (decide ((y <? a)%F = true)) as [Hya|Hya].
  - rewrite decide_True by (apply H; [by left|done]). simpl. lia.
  - case_decide; simpl; lia.
Qed.

Lemma count_below_lt x a b :
  (∀ z, z ∈ x → (z <? a)%F = true → (z <? b)%F = true) →
  (∃ z, z ∈ x ∧ (z <? a)%F = false ∧ (z <? b)%F = true) →
  count_below x a < count_below x b.
Proof.
  unfold count_below. induction x as [|y x IH]; intros H (z & Hz & Hza & Hzb).
  { by apply elem_of_nil in Hz. }
  rewrite !filter_cons.
  assert (length (filter (λ z, (z <? a)%F = true) x)
          ≤ length (filter (λ z, (z <? b)%F = true) x)) as Hle.
  { apply (count_below_le x a b). intros z' Hz'. apply H. by right. }
  apply elem_of_cons in Hz as [->|Hz].
  - rewrite decide_False by (by rewrite Hza). rewrite decide_True by done.
    simpl. lia.
  - assert (length (filter (λ z, (z <? a)%F = true) x)
            < length (filter (λ z, (z <? b)%F = true) x)) as IH'.
    { apply IH; [intros z' Hz'; apply H; by right | eauto]. }
    destruct (decide ((y <? a)%F = true)) as [Hya|Hya].
    + rewrite decide_True by (apply H; [by left|done]). simpl. lia.
    + case_decide; simpl; lia.
Qed.

Lemma ranks_lookup_count x i y :
  x !! i = Some y → ranks x !! i = Some (S (count_below x y)).
Proof. apply ranks_lookup. Qed.

Lemma ranks_lookup_inv x i k :
  ranks x !! i = Some k → ∃ y, x !! i = Some y ∧ k = S (count_below x y).
Proof.
  unfold ranks. rewrite list_lookup_fmap. destruct (x !! i) as [y|]; [|done].
  intros [= <-]. eauto.
Qed.

(** a strictly smaller value has a strictly smaller rank *)
Lemma ranks_lt x i k a b :
  x !! i = Some a → x !! k = Some b → (a <? b)%F = true →
  count_below x a < count_below x b.
Proof.
  intros Hi Hk Hab. apply count_below_lt.
  - intros z _ Hza. by eapply ltb_trans.
  - exists a. split; [by eapply list_elem_of_lookup_2|]. split; [apply ltb_irrefl|done].
Qed.

(** rank 1 is the rank of the entries nothing is below *)
Lemma count_below_0 x y : count_below x y = 0 ↔ ∀ z, z ∈ x → (z <? y)%F = false.
Proof.
  unfold count_below. rewrite filter_nil_iff. split; intros H z Hz.
  - specialize (H z Hz). by destruct (z <? y)%F.
  - by rewrite (H z Hz).
Qed.

Lemma count_below_bound x y : count_below x y ≤ length x.
Proof. unfold count_below. apply length_filter. Qed.

Lemma count_below_lt_length x y : y ∈ x → count_below x y < length x.
Proof.
  intros Hy. unfold count_below.
  induction x as [|z x IH]; [by apply elem_of_nil in Hy|].
  rewrite filter_cons. simpl.
  pose proof (length_filter (λ z, (z <? y)%F = true) x) as Hb.
  apply elem_of_cons in Hy as [->|Hy].
  - rewrite decide_False by (by rewrite ltb_irrefl). lia.
  - specialize (IH Hy). case_decide; simpl; lia.
Qed.

(** ** What holds whenever [vikor] returns *)

Lemma weighted_distances_lookup ws ideal anti row j w i a x :
  ws !! j = Some w → ideal !! j = Some i → anti !! j = Some a → row !! j = Some x →
  weighted_distances ws ideal anti row !! j = Some (distance w i a x).
Proof.
  intros Hw Hi Ha Hx. unfold weighted_distances, np.vdiv, np.vmul, np.vsub, np.vadds.
  rewrite !lookup_zip_with, !list_lookup_fmap, !lookup_zip_with, Hw, Hi, Ha, Hx. done.
Qed.

Lemma distance_not_nan w i a x : isnan (distance w i a x) = false → isnan x = false.
Proof. destruct x; try done. unfold distance. by destruct w, i. Qed.

Lemma forallb_symbols impacts :
  forallb (λ i : string, bool_decide (i ∈ ["+"; "-"])) impacts = true →
  ∀ j s, impacts !! j = Some s → s = "+" ∨ s = "-".
Proof.
  rewrite forallb_forall. intros H j s Hj.
  apply list_elem_of_lookup_2, list_elem_of_In, H, bool_decide_eq_true in Hj.
  apply elem_of_cons in Hj as [->|Hj]; [by left|].
  apply list_elem_of_singleton in Hj as ->. by right.
Qed.

Lemma ok_facts f0 weights impacts v :
  vikor_ok f0 weights impacts v = true →
  let r := run_of f0 weights impacts v in
  length weights = length (columns f0) ∧
  length impacts = length (columns f0) ∧
  (∀ j s, impacts !! j = Some s → s = "+" ∨ s = "-") ∧
  0 < nrows f0 ∧ 0 < length (columns f0) ∧
  length (r_S r) = nrows f0 ∧ length (r_R r) = nrows f0 ∧ length (r_Q r) = nrows f0 ∧
  all_finite (r_S r) = true ∧ all_finite (r_R r) = true ∧ all_finite (r_Q r) = true.
Proof.
  unfold vikor_ok. rewrite !andb_true_iff, !bool_decide_eq_true.
  intros (((((Hw & Hi) & Hsym) & Hm) & Hn) & HQ). cbv zeta.
  assert (length (r_S (run_of f0 weights impacts v)) = nrows f0) as HlS
    by (rewrite run_S; apply length_S_of).
  assert (length (r_R (run_of f0 weights impacts v)) = nrows f0) as HlR
    by (rewrite run_R; apply length_R_of).
  rewrite run_Q in HQ |- *.
  assert (r_S (run_of f0 weights impacts v) ≠ []) as HS0
    by (intros E; rewrite E in HlS; simpl in HlS; lia).
  destruct (Q_finite v _ _ (eq_trans HlR (eq_sym HlS)) HS0 HQ) as (? & ? & ?).
  repeat split; try done.
  - by apply forallb_symbols.
  - rewrite length_Q_of; congruence.
Qed.

Lemma col_lookup f0 i j :
  i < nrows f0 → np.col (pd.values f0) j !! i = Some (cell f0 i j).
Proof.
  intros Hi. unfold np.col, cell, np.row. rewrite list_lookup_fmap.
  destruct (lookup_lt_is_Some_2 (np.rows (pd.values f0)) i) as [row Hrow];
    [by rewrite length_values|].
  by rewrite Hrow, (list_lookup_total_correct _ _ _ Hrow).
Qed.

Lemma col_elem f0 j x :
  x ∈ np.col (pd.values f0) j → ∃ i, i < nrows f0 ∧ x = cell f0 i j.
Proof.
  intros [i Hi]%list_elem_of_lookup_1.
  assert (i < nrows f0) as Hlt.
  { apply lookup_lt_Some in Hi. by rewrite length_col, length_values in Hi. }
  exists i. split; [done|]. rewrite col_lookup in Hi by done. congruence.
Qed.

Lemma row_lookup f0 i j :
  i < nrows f0 → j < length (columns f0) →
  np.row (pd.values f0) i !! j = Some (cell f0 i j).
Proof.
  intros Hi Hj. unfold cell. apply list_lookup_lookup_total_lt.
  by rewrite length_row.
Qed.

(** the weighted distances of a row, entry by entry *)
Lemma distances_of_row f0 weights impacts i :
  length weights = length (columns f0) → i < nrows f0 →
  let ws := normalize (np.array weights) in
  let ideal := ideal_of (pd.values f0) impacts in
  let anti := anti_ideal_of (pd.values f0) impacts in
  let d := weighted_distances ws ideal anti (np.row (pd.values f0) i) in
  length d = length (columns f0) ∧
  ∀ j, j < length (columns f0) →
    d !! j = Some (distance (ws !!! j) (ideal !!! j) (anti !!! j) (cell f0 i j)).
Proof.
  intros Hw Hi. cbv zeta.
  assert (length (normalize (np.array weights)) = length (columns f0)) as Hlw
    by (by rewrite length_normalize, length_array).
  split.
  - apply length_weighted_distances; try done;
      [apply length_ideal_of | apply length_anti_ideal_of | by apply length_row].
  - intros j Hj. apply weighted_distances_lookup.
    + apply list_lookup_lookup_total_lt. by rewrite Hlw.
    + apply list_lookup_lookup_total_lt. by rewrite length_ideal_of.
    + apply list_lookup_lookup_total_lt. by rewrite length_anti_ideal_of.
    + by apply row_lookup.
Qed.

(** whenever [vikor] returns, the weighted distances and the table hold no NaN *)
Lemma ok_no_nan f0 weights impacts v i :
  vikor_ok f0 weights impacts v = true → i < nrows f0 →
  no_nan (weighted_distances (normalize (np.array weights))
            (ideal_of (pd.values f0) impacts) (anti_ideal_of (pd.values f0) impacts)
            (np.row (pd.values f0) i)) = true ∧
  ∀ j, j < length (columns f0) → isnan (cell f0 i j) = false.
Proof.
  intros Hok Hi.
  destruct (ok_facts _ _ _ _ Hok) as (Hw & _ & _ & _ & _ & HlS & _ & _ & HfS & _).
  destruct (distances_of_row f0 weights impacts i Hw Hi) as [Hld Hd].
  assert (no_nan (weighted_distances (normalize (np.array weights))
            (ideal_of (pd.values f0) impacts) (anti_ideal_of (pd.values f0) impacts)
            (np.row (pd.values f0) i)) = true) as Hnn.
  { apply not_nan_elem. intros Hin%sum_nan.
    assert (r_S (run_of f0 weights impacts v) !! i = Some NaN) as HSi.
    { rewrite run_S. unfold S_of. rewrite lookup_fmap_range by done. by rewrite Hin. }
    by pose proof (all_finite_lookup _ _ _ HfS HSi). }
  split; [done|]. intros j Hj.
  eapply distance_not_nan, no_nan_lookup; [apply Hnn | by apply Hd].
Qed.

Lemma ok_col_no_nan f0 weights impacts v j :
  vikor_ok f0 weights impacts v = true → j < length (columns f0) →
  np.col (pd.values f0) j ≠ [] ∧ no_nan (np.col (pd.values f0) j) = true.
Proof.
  intros Hok Hj.
  destruct (ok_facts _ _ _ _ Hok) as (_ & _ & _ & Hm & _).
  split.
  - intros E%(f_equal length). rewrite length_col, length_values in E. simpl in E. lia.
  - apply not_nan_elem. intros (i & Hi & E)%col_elem.
    destruct (ok_no_nan f0 weights impacts v i Hok Hi) as [_ Hc].
    specialize (Hc j Hj). by rewrite <-E in Hc.
Qed.

(** ** The scores S and R *)

Lemma ideal_lookup f0 impacts j :
  j < length (columns f0) →
  ideal_of (pd.values f0) impacts !!! j =
  if decide (impacts !! j = Some "+") then amax (np.col (pd.values f0) j)
  else amin (np.col (pd.values f0) j).
Proof.
  intros Hj. apply list_lookup_total_correct. unfold ideal_of.
  by rewrite lookup_fmap_range.
Qed.

Lemma anti_ideal_lookup f0 impacts j :
  j < length (columns f0) →
  anti_ideal_of (pd.values f0) impacts !!! j =
  if decide (impacts !! j = Some "+") then amin (np.col (pd.values f0) j)
  else amax (np.col (pd.values f0) j).
Proof.
  intros Hj. apply list_lookup_total_correct. unfold anti_ideal_of.
  by rewrite lookup_fmap_range.
Qed.


(** ** The index Q and the ranks *)

Lemma count_below_compare x a b :
  a ∈ x → b ∈ x → isnan a = false → isnan b = false →
  ((a <? b)%F = true ↔ count_below x a < count_below x b) ∧
  (a = b ↔ count_below x a = count_below x b).
Proof.
  intros Ha Hb Hna Hnb.
  assert (∀ c d, c ∈ x → (c <? d)%F = true → count_below x c < count_below x d) as Hlt.
  { intros c d Hc Hcd. apply count_below_lt.
    - intros z _ Hz. by eapply ltb_trans.
    - exists c. by rewrite ltb_irrefl. }
  destruct (ltb_total a b Hna Hnb) as [H|[->|H]].
  - pose proof (Hlt a b Ha H). split; split; try done; try lia.
    intros ->. by rewrite ltb_irrefl in H.
  - rewrite ltb_irrefl. split; split; try done; lia.
  - pose proof (Hlt b a Hb H). rewrite (ltb_asym _ _ H). split; split; try done; try lia.
    intros ->. by rewrite ltb_irrefl in H.
Qed.


(** ** The order by Q and the acceptance conditions *)

Lemma StronglySorted_weaken {A} (R R' : A → A → Prop) l :
  (∀ x y, x ∈ l → y ∈ l → R x y → R' x y) →
  StronglySorted R l → StronglySorted R' l.
Proof.
  intros H Hs. induction Hs as [|x l Hs IH Hx]; [constructor|].
  constructor.
  - apply IH. intros y z Hy Hz. apply H; by right.
  - rewrite Forall_forall in Hx |- *. intros y Hy.
    apply H; [by left | by right | by apply Hx].
Qed.

Lemma ranks_total x i :
  i < length x → ranks x !!! i = S (count_below x (x !!! i)).
Proof.
  intros Hi. apply list_lookup_total_correct, ranks_lookup_count.
  by apply list_lookup_lookup_total_lt.
Qed.

(** sorting by the rank sorts by the value, ties in table order *)
Lemma before_ranks_ascending x i j :
  no_nan x = true → i < length x → j < length x →
  before (λ k, ranks x !!! k) i j ↔ ascending x i j.
Proof.
  intros Hx Hi Hj. unfold before, ascending. rewrite !ranks_total by done.
  pose proof (list_lookup_lookup_total_lt x i Hi) as Hxi.
  pose proof (list_lookup_lookup_total_lt x j Hj) as Hxj.
  destruct (count_below_compare x (x !!! i) (x !!! j)) as [H1 H2];
    [by eapply list_elem_of_lookup_2 | by eapply list_elem_of_lookup_2
    | by eapply no_nan_lookup | by eapply no_nan_lookup |].
  rewrite H1, H2. lia.
Qed.

Lemma order_ascending x :
  no_nan x = true → StronglySorted (ascending x) (sorted_by (ranks x)).
Proof.
  intros Hx. eapply StronglySorted_weaken; [|apply sorted_by_sorted].
  intros i j Hi%sorted_by_elem Hj%sorted_by_elem. rewrite length_ranks in Hi, Hj.
  by apply before_ranks_ascending.
Qed.

Lemma first_rank_1_spec x :
  x ≠ [] → first_best (ranks x) (first_rank_1 (ranks x)).
Proof.
  intros Hx. destruct (ranks_find_1 x Hx) as [i Hi].
  unfold first_rank_1. rewrite Hi. simpl.
  apply list_find_Some in Hi as (Hi & _ & Hlt). split; [done|].
  intros k Hk Hk1. by apply (Hlt k 1).
Qed.

Lemma first_best_unique rk a b : first_best rk a → first_best rk b → a = b.
Proof.
  intros [Ha Ha'] [Hb Hb'].
  destruct (Nat.lt_trichotomy a b) as [H|[H|H]]; [|done|].
  - by destruct (Hb' a H).
  - by destruct (Ha' b H).
Qed.

(** the first row of the frame sorted by Q_Rank is the first row of rank 1 *)
Lemma order_head_first_best x :
  x ≠ [] → first_best (ranks x) (sorted_by (ranks x) !!! 0).
Proof.
  intros Hx.
  assert (0 < length (sorted_by (ranks x))) as Hlen.
  { rewrite length_sorted_by, length_ranks. destruct x; [done|simpl; lia]. }
  pose proof (list_lookup_lookup_total_lt _ _ Hlen) as Hb.
  set (b := sorted_by (ranks x) !!! 0) in *.
  destruct (sorted_by_head _ _ Hb) as [Hbm Hbefore].
  rewrite length_ranks in Hbm, Hbefore.
  destruct (first_rank_1_spec x Hx) as [Hi Hfirst].
  set (i := first_rank_1 (ranks x)) in *.
  assert (i < length x) as Him
    by (apply lookup_lt_Some in Hi; by rewrite length_ranks in Hi).
  assert (ranks x !!! i = 1) as Hi1 by by apply list_lookup_total_correct.
  assert (ranks x !!! b = 1) as Hb1.
  { destruct (decide (i = b)) as [<-|Hne]; [done|].
    destruct (Hbefore i Him Hne) as [H|[H _]]; rewrite Hi1 in H;
      rewrite ranks_total in H |- * by done; lia. }
  split.
  - rewrite <-Hb1. apply list_lookup_lookup_total_lt. by rewrite length_ranks.
  - intros k Hk Hk1.
    assert (k < length x) as Hkm by lia.
    apply list_lookup_total_correct in Hk1.
    destruct (Hbefore k Hkm ltac:(lia)) as [H|[_ H]]; lia.
Qed.

Lemma order_perm f0 weights impacts v :
  let r := run_of f0 weights impacts v in
  length (r_Q r) = nrows f0 → r_order r ≡ₚ range (nrows f0).
Proof.
  cbv zeta. intros Hl. rewrite run_order, run_Q_Rank.
  rewrite sorted_by_perm, length_ranks, Hl. done.
Qed.

Lemma Q_sorted_lookup f0 weights impacts v i :
  let r := run_of f0 weights impacts v in
  length (r_Q r) = nrows f0 → i < nrows f0 →
  r_Q_sorted r !!! i = r_Q r !!! (r_order r !!! i).
Proof.
  cbv zeta. intros Hl Hi. rewrite run_Q_sorted.
  apply list_lookup_total_correct. rewrite list_lookup_fmap.
  rewrite (list_lookup_lookup_total_lt (r_order _) i); [done|].
  rewrite run_order, run_Q_Rank, length_sorted_by, length_ranks. lia.
Qed.


(** ** The compromise set *)

Lemma flag_insert (fl : list bool) b i :
  <[b := true]> fl !! i = Some true ↔ fl !! i = Some true ∨ (i = b ∧ b < length fl).
Proof.
  destruct (decide (i = b)) as [->|Hne].
  - destruct (decide (b < length fl)) as [Hb|Hb].
    + rewrite list_lookup_insert_eq by done. naive_solver.
    + rewrite list_insert_ge by lia. split; [by left|].
      intros [H|[_ H]]; [done|lia].
  - rewrite list_lookup_insert_ne by done. naive_solver.
Qed.

Lemma flag_foldl ms (fl : list bool) i :
  foldl (λ fl idx, <[idx := true]> fl) fl ms !! i = Some true ↔
  fl !! i = Some true ∨ (i ∈ ms ∧ i < length fl).
Proof.
  revert fl. induction ms as [|b ms IH]; intros fl; simpl.
  - rewrite elem_of_nil. naive_solver.
  - rewrite IH, flag_insert, length_insert, elem_of_cons. naive_solver.
Qed.

Lemma length_flag_foldl ms (fl : list bool) :
  length (foldl (λ fl idx, <[idx := true]> fl) fl ms) = length fl.
Proof.
  revert fl. induction ms as [|b ms IH]; intros fl; simpl; [done|].
  by rewrite IH, length_insert.
Qed.

Lemma clear_lookup m i : replicate m false !! i ≠ Some true.
Proof. intros [? _]%lookup_replicate. done. Qed.

Lemma union_members (a b c i : nat) :
  i ∈ foldl (λ cs idx, if decide (idx ∉ cs) then cs ++ [idx] else cs) [] [a; b; c]
  ↔ i = a ∨ i = b ∨ i = c.
Proof.
  simpl. repeat (case_decide; simpl); set_solver.
Qed.

Lemma union_NoDup (a b c : nat) :
  NoDup (foldl (λ cs idx, if decide (idx ∉ cs) then cs ++ [idx] else cs) [] [a; b; c]).
Proof.
  simpl. repeat (case_decide; simpl);
    repeat (apply NoDup_cons; split; [set_solver|]); apply NoDup_nil_2.
Qed.

Lemma first_best_lt rk b : first_best rk b → b < length rk.
Proof. intros [H _]. by eapply lookup_lt_Some. Qed.

Lemma length_flags f0 weights impacts v :
  length (r_flags (run_of f0 weights impacts v)) = nrows f0.
Proof.
  unfold run_of; cbv zeta.
  repeat (match goal with
          | |- context [if ?b then mkRun _ _ _ _ _ _ _ _ _ _ _ _ _ _ _ _ _ _ else _] =>
              destruct b
          end);
  cbn [r_flags]; rewrite ?length_flag_foldl, ?length_insert, length_replicate; done.
Qed.

(** what the three branches flag and list, in terms of the best alternatives *)
Lemma compromise_facts f0 weights impacts v :
  vikor_ok f0 weights impacts v = true →
  let r := run_of f0 weights impacts v in
  first_best (r_Q_Rank r) (r_best_Q r) ∧
  first_best (r_S_Rank r) (r_best_S r) ∧
  first_best (r_R_Rank r) (r_best_R r) ∧
  r_best_Q r < nrows f0 ∧ r_best_S r < nrows f0 ∧ r_best_R r < nrows f0 ∧
  NoDup (r_set r) ∧
  (∀ i, i ∈ r_set r ↔ r_flags r !! i = Some true) ∧
  (r_C1 r = true → r_C2 r = true →
     ∀ i, r_flags r !! i = Some true ↔ i = r_best_Q r) ∧
  (r_C1 r = false →
     ∀ i, r_flags r !! i = Some true ↔
          i < nrows f0 ∧ ((r_Q r !!! i) - (r_Q r !!! r_best_Q r) <? r_DQ r)%F = true) ∧
  (r_C1 r = true → r_C2 r = false →
     ∀ i, r_flags r !! i = Some true ↔
          i = r_best_Q r ∨ i = r_best_S r ∨ i = r_best_R r).
Proof.
  intros Hok.
  destruct (ok_facts _ _ _ _ Hok)
    as (_ & _ & _ & Hm & _ & HlS & HlR & HlQ & HfS & HfR & HfQ).
  cbv zeta in *.
  set (r := run_of f0 weights impacts v) in *.
  assert (r_S r ≠ []) as HS0 by (intros E; rewrite E in HlS; simpl in HlS; lia).
  assert (r_R r ≠ []) as HR0 by (intros E; rewrite E in HlR; simpl in HlR; lia).
  assert (r_Q r ≠ []) as HQ0 by (intros E; rewrite E in HlQ; simpl in HlQ; lia).
  assert (first_best (r_Q_Rank r) (r_best_Q r)) as HbQ.
  { unfold r. rewrite run_best_Q, run_order, run_Q_Rank. by apply order_head_first_best. }
  assert (first_best (r_S_Rank r) (r_best_S r)) as HbS.
  { unfold r. rewrite run_best_S, run_S_Rank. by apply first_rank_1_spec. }
  assert (first_best (r_R_Rank r) (r_best_R r)) as HbR.
  { unfold r. rewrite run_best_R, run_R_Rank. by apply first_rank_1_spec. }
  assert (r_best_Q r < nrows f0) as HQm.
  { apply first_best_lt in HbQ. unfold r in HbQ.
    rewrite run_Q_Rank, length_ranks in HbQ. fold r in HbQ. lia. }
  assert (r_best_S r < nrows f0) as HSm.
  { apply first_best_lt in HbS. unfold r in HbS.
    rewrite run_S_Rank, length_ranks in HbS. fold r in HbS. lia. }
  assert (r_best_R r < nrows f0) as HRm.
  { apply first_best_lt in HbR. unfold r in HbR.
    rewrite run_R_Rank, length_ranks in HbR. fold r in HbR. lia. }
  assert (∀ i, i ∈ r_order r ↔ i < nrows f0) as Horder.
  { intros i. unfold r. rewrite (order_perm f0 weights impacts v HlQ).
    unfold range. rewrite elem_of_seq. lia. }
  assert (NoDup (r_order r)) as Hnd.
  { unfold r. rewrite (order_perm f0 weights impacts v HlQ). apply NoDup_seq. }
  assert (r_Q_sorted r !!! 0 = r_Q r !!! r_best_Q r) as Hq0.
  { unfold r. rewrite Q_sorted_lookup, run_best_Q by done. done. }
  repeat (split; [done|]).
  destruct (r_C1 r) eqn:HC1; [destruct (r_C2 r) eqn:HC2|].
  - destruct (run_single f0 weights impacts v) as (Hfl & Hset & _).
    { fold r. by rewrite HC1, HC2. }
    fold r in Hfl, Hset.
    assert (∀ i, r_flags r !! i = Some true ↔ i = r_best_Q r) as Hflag.
    { intros i. rewrite Hfl, flag_insert, length_replicate.
      pose proof (clear_lookup (nrows f0) i). naive_solver. }
    split; [rewrite Hset; apply NoDup_singleton|].
    split; [intros i; rewrite Hflag, Hset; set_solver|].
    split; [intros _ _; exact Hflag|]. split; [intros ?; done|intros ? ?; done].
  - destruct (run_union f0 weights impacts v) as (Hfl & Hset & _); [done..|].
    fold r in Hfl, Hset.
    assert (∀ i, r_flags r !! i = Some true ↔
                 i = r_best_Q r ∨ i = r_best_S r ∨ i = r_best_R r) as Hflag.
    { intros i. rewrite Hfl, !flag_insert, !length_insert, length_replicate.
      pose proof (clear_lookup (nrows f0) i). naive_solver. }
    split; [rewrite Hset; apply union_NoDup|].
    split; [intros i; by rewrite Hflag, Hset, union_members|].
    split; [intros ? ?; done|]. split; [intros ?; done|intros _ _; exact Hflag].
  - destruct (run_multiple f0 weights impacts v) as (Hfl & Hset & _); [done|].
    fold r in Hfl, Hset.
    assert (∀ i, r_flags r !! i = Some true ↔
       i < nrows f0 ∧ ((r_Q r !!! i) - (r_Q r !!! r_best_Q r) <? r_DQ r)%F = true)
      as Hflag.
    { intros i. rewrite Hfl, flag_foldl, length_replicate, list_elem_of_filter, Horder.
      unfold close_to_best. rewrite Hq0.
      pose proof (clear_lookup (nrows f0) i). naive_solver. }
    split; [rewrite Hset; by apply NoDup_filter|].
    split.
    { intros i. rewrite Hflag, Hset, list_elem_of_filter, Horder.
      unfold close_to_best. rewrite Hq0. naive_solver. }
    split; [intros ? ?; done|]. split; [intros _; exact Hflag|intros ? ?; done].
Qed.
Lemma Qc_of_Z_pos z : (0 < z)%Z → (0 < Qc_of_Z z)%Qc.
Proof.
  intros Hz. unfold Qclt. simpl. rewrite Qred_correct.
  unfold Qlt. simpl. lia.
Qed.

Lemma Qcinv_pos q : (0 < q)%Qc → (0 < 1 / q)%Qc.
Proof.
  intros Hq. unfold Qclt, Qcdiv, Qcmult, Qcinv in *. simpl in *.
  rewrite !Qred_correct, Qmult_1_l.
  by apply Qinv_lt_0_compat.
Qed.

Lemma DQ_pos m : (zero <? DQ_of m)%F = true.
Proof.
  unfold DQ_of. case_decide as Hm; [|done].
  unfold one, of_nat, of_Z. simpl.
  assert (0 < Qc_of_Z (Z.of_nat (m - 1)))%Qc as Hpos by (apply Qc_of_Z_pos; lia).
  rewrite decide_False by (by intros E; rewrite E in Hpos).
  simpl. apply Qcltb_lt. by apply Qcinv_pos.
Qed.

Lemma sub_self_ltb x d : isfinite x = true → (zero <? d)%F = true → (x - x <? d)%F = true.
Proof.
  intros [q ->]%isfinite_Fin Hd. simpl.
  replace (q + - q)%Qc with 0%Qc by ring. done.
Qed.



(** ** The returned table and the caller's store *)

Lemma lookup_set_assoc_ne cols j k c k' c' :
  cols !! j = Some (k, c) → k ≠ k' → pd.set_assoc k' c' cols !! j = Some (k, c).
Proof.
  revert j. induction cols as [|[k0 c0] cols IH]; intros j Hj Hne; [done|].
  simpl. destruct j as [|j]; simpl in *.
  - injection Hj as -> ->. by rewrite decide_False.
  - destruct (decide (k0 = k')); simpl; [done|]. by apply IH.
Qed.

Lemma heap_of_input_lookup data w l0 f1 :
  heap w !! l0 = Some f1 → heap_of_input data w !! l0 = Some f1.
Proof.
  intros Hl. destruct data; simpl; try done.
  all: rewrite lookup_insert_ne; [done|];
    intros <-; by rewrite fresh_lookup in Hl.
Qed.

Lemma world_after_lookup data weights impacts v verbose w f0 l0 f1 :
  heap w !! l0 = Some f1 →
  heap (world_after data weights impacts v verbose w f0) !! l0 = Some f1.
Proof.
  intros Hl%(heap_of_input_lookup data). unfold world_after. simpl.
  assert (<[df_loc data w := f0]> (heap_of_input data w) !! l0 = Some f1) as Hl'.
  { rewrite lookup_insert_ne; [done|]. unfold df_loc.
    intros <-. by rewrite fresh_lookup in Hl. }
  rewrite lookup_insert_ne; [done|]. unfold result_loc.
  intros <-. by rewrite fresh_lookup in Hl'.
Qed.

Lemma result_loc_fresh data w f0 : heap w !! result_loc data w f0 = None.
Proof.
  destruct (heap w !! result_loc data w f0) as [f1|] eqn:Hl; [|done].
  apply (heap_of_input_lookup data) in Hl.
  assert (<[df_loc data w := f0]> (heap_of_input data w) !! result_loc data w f0
          = Some f1) as Hl'.
  { rewrite lookup_insert_ne; [done|]. unfold df_loc.
    intros E. rewrite <-E in Hl. by rewrite fresh_lookup in Hl. }
  unfold result_loc in Hl'. by rewrite fresh_lookup in Hl'.
Qed.

(** C7. Whenever [vikor] returns, the table it returns is a new table with as
    many rows as the input; every column of the input whose label is not one
    of the annotation labels is in it at the same position with the same
    entries row by row, so the rows are in the original order; the
    annotations are columns with one entry per row; and every table of the
    caller's store, the input table included, is what it was before the
    call. *)
Theorem vikor_frame data weights impacts v verbose w l w' :
  vikor data weights impacts v verbose w = Ok l w' →
  ∃ f0 f,
    input_frame data w = Some f0 ∧
    heap w !! l = None ∧
    heap w' !! l = Some f ∧
    (∀ l0 f1, heap w !! l0 = Some f1 → heap w' !! l0 = Some f1) ∧
    nrows f = nrows f0 ∧
    (∀ j k c, columns f0 !! j = Some (k, c) → k ∉ annotations →
       columns f !! j = Some (k, c)) ∧
    (∀ k, k ∉ annotations →
       pd.get_assoc k (columns f) = pd.get_assoc k (columns f0)) ∧
    (∀ k, k ∈ annotations →
       ∃ c, pd.get_assoc k (columns f) = Some c ∧ pd.col_length c = nrows f0).
Proof.
  intros (f0 & Hin & Hok & -> & ->)%vikor_inv.
  destruct (ok_facts _ _ _ _ Hok)
    as (_ & _ & _ & Hm & _ & HlS & HlR & HlQ & _ & _ & _).
  set (r := run_of f0 weights impacts v) in *.
  exists f0, (frame_of_run f0 r).
  split; [done|]. split; [apply result_loc_fresh|].
  split; [apply result_lookup|].
  split; [intros l0 f1; apply world_after_lookup|].
  split; [done|].
  split.
  { intros j k c Hj Hk. unfold frame_of_run, annotations in *. cbn [columns].
    rewrite !not_elem_of_cons in Hk.
    destruct Hk as (? & ? & ? & ? & ? & ? & ? & ? & _).
    repeat (apply lookup_set_assoc_ne; [|done]). done. }
  split.
  { intros k Hk. unfold frame_of_run, annotations in *. cbn [columns].
    rewrite !not_elem_of_cons in Hk.
    destruct Hk as (? & ? & ? & ? & ? & ? & ? & ? & _).
    rewrite !get_set_assoc_ne by done. done. }
  intros k Hk. unfold annotations in Hk.
  destruct (frame_of_run_columns f0 r) as (? & ? & ? & ? & ? & ? & ? & ?).
  assert (length (r_Q_Rank r) = nrows f0) as HlQr
    by (unfold r; rewrite run_Q_Rank, length_ranks; done).
  assert (length (r_S_Rank r) = nrows f0) as HlSr
    by (unfold r; rewrite run_S_Rank, length_ranks; done).
  assert (length (r_R_Rank r) = nrows f0) as HlRr
    by (unfold r; rewrite run_R_Rank, length_ranks; done).
  pose proof (length_flags f0 weights impacts v) as Hlf. fold r in Hlf.
  rewrite !elem_of_cons, elem_of_nil in Hk.
  destruct Hk as [->|[->|[->|[->|[->|[->|[->|[->|[]]]]]]]]];
    eexists; (split; [eassumption|]); simpl; done.
Qed.

(** ** The flag [verbose] *)

Lemma agree_refl o : agree o o.
Proof. by destruct o. Qed.

Lemma agree_bind {A} (c : M A) (k1 k2 : A → M loc) w :
  (∀ a w', agree (k1 a w') (k2 a w')) → agree ((c ≫= k1) w) ((c ≫= k2) w).
Proof. unfold mbind, M_bind. destruct (c w); [auto | done]. Qed.

Ltac agree_step :=
  first
    [ match goal with |- agree ?o ?o => apply agree_refl end
    | apply agree_bind; intros ? ?; cbv beta zeta
    | match goal with
      | |- agree ((if ?b then _ else _) _) _ => destruct b
      | |- agree ((let '(_, _) := ?x in _) _) _ => destruct x
      | |- agree (match ?x with _ => _ end _) _ => destruct x
      end ].

(** the two runs differ in the final [if verbose:] only, which prints *)
Lemma vikor_agree data weights impacts v w :
  agree (vikor data weights impacts v true w) (vikor data weights impacts v false w).
Proof.
  unfold vikor. cbv zeta.
  repeat agree_step.
  all: cbv [mbind M_bind mret M_ret print agree];
    try match goal with o : option float |- _ => destruct o end; cbn [heap]; done.
Qed.

(** C8. The call with verbose=True and the call with verbose=False on the
    same input in the same store end alike: either both raise the same
    exception, or both return the same reference and leave the same store of
    tables, so every column and every attribute of the result is the same;
    the call with verbose=False prints nothing and the call with verbose=True
    only appends lines to the standard output. *)
Theorem vikor_verbose data weights impacts v w :
  match vikor data weights impacts v true w, vikor data weights impacts v false w with
  | Ok l1 w1, Ok l2 w2 =>
      l1 = l2 ∧ heap w1 = heap w2 ∧
      (∀ k, column_of w1 l1 k = column_of w2 l2 k) ∧
      (∀ key, attr_of w1 l1 key = attr_of w2 l2 key) ∧
      stdout w2 = stdout w ∧
      ∃ log, stdout w1 = stdout w ++ log
  | Raise e1, Raise e2 => e1 = e2
  | _, _ => False
  end.
Proof.
  pose proof (vikor_agree data weights impacts v w) as Hag.
  destruct (vikor data weights impacts v true w) as [l1 w1|e1] eqn:H1;
    destruct (vikor data weights impacts v false w) as [l2 w2|e2] eqn:H2;
    simpl in Hag; try done.
  destruct Hag as [-> Hh].
  apply vikor_inv in H1 as (f1 & Hin1 & _ & _ & ->).
  apply vikor_inv in H2 as (f2 & Hin2 & _ & _ & ->).
  split; [done|]. split; [done|].
  split; [intros k; unfold column_of; by rewrite Hh|].
  split; [intros key; unfold attr_of; by rewrite Hh|].
  unfold world_after. simpl. split; [by rewrite app_nil_r|]. eauto.
Qed.

(** ** When [vikor] returns *)

Lemma foldl_add_Fin a ws :
  foldl Float.add (Fin a) (Fin <$> ws) = Fin (foldl Qcplus a ws).
Proof. revert a. induction ws as [|x ws IH]; intros a; simpl; [done|apply IH]. Qed.

Lemma sum_array ws : np.sum (np.array ws) = Fin (weight_sum ws).
Proof. apply foldl_add_Fin. Qed.

Lemma normalize_finite ws :
  weight_sum ws ≠ 0%Qc → all_finite (normalize (np.array ws)) = true.
Proof.
  intros Hs. unfold normalize. rewrite sum_array.
  destruct (_ >? _)%F.
  - apply all_finite_intro. intros i x. unfold np.vdivs, np.array.
    rewrite !list_lookup_fmap. destruct (ws !! i); simpl; [|done].
    intros [= <-]. by rewrite decide_False.
  - apply all_finite_intro. intros i x. unfold np.array.
    rewrite list_lookup_fmap. destruct (ws !! i); simpl; [|done]. by intros [= <-].
Qed.

Lemma amax_finite a : a ≠ [] → all_finite a = true → isfinite (amax a) = true.
Proof.
  intros Ha Hf. destruct (amax_is_max a Ha (all_finite_no_nan _ Hf)) as [Hin _].
  by eapply all_finite_elem.
Qed.

Lemma amin_finite a : a ≠ [] → all_finite a = true → isfinite (amin a) = true.
Proof.
  intros Ha Hf. destruct (amin_is_min a Ha (all_finite_no_nan _ Hf)) as [Hin _].
  by eapply all_finite_elem.
Qed.

Lemma amin_le_amax a : a ≠ [] → all_finite a = true → (amin a <=? amax a)%F = true.
Proof.
  intros Ha Hf. destruct (amax_is_max a Ha (all_finite_no_nan _ Hf)) as [Hin _].
  destruct (amin_is_min a Ha (all_finite_no_nan _ Hf)) as [_ Hle]. by apply Hle.
Qed.

(** the denominator [hi - lo + eps] is a positive number when [lo <= hi] *)
Lemma gap_pos lo hi :
  isfinite lo = true → isfinite hi = true → (lo <=? hi)%F = true →
  ∃ q, (hi - lo + eps)%F = Fin q ∧ (0 < q)%Qc.
Proof.
  intros [a ->]%isfinite_Fin [b ->]%isfinite_Fin Hle. simpl in Hle.
  apply Qcleb_le in Hle. eexists. split; [done|].
  apply Qclt_le_trans with (dec 1 10000000000); [apply eps_pos|].
  rewrite <-(Qcplus_0_l (dec 1 10000000000)) at 1.
  apply Qcplus_le_compat; [|apply Qcle_refl].
  apply Qcle_minus_iff in Hle. done.
Qed.

Lemma distance_finite w i a x :
  isfinite w = true → isfinite i = true → isfinite a = true → isfinite x = true →
  (i - a + eps)%F ≠ zero → isfinite (distance w i a x) = true.
Proof.
  intros [qw ->]%isfinite_Fin [qi ->]%isfinite_Fin [qa ->]%isfinite_Fin
    [qx ->]%isfinite_Fin Hd.
  unfold distance. simpl in *. rewrite decide_False; [done|].
  intros E. apply Hd. unfold zero. by rewrite E.
Qed.

Lemma sum_finite a : all_finite a = true → isfinite (np.sum a) = true.
Proof.
  unfold np.sum, zero. generalize 0%Qc.
  induction a as [|x a IH]; intros q Ha; simpl; [done|].
  unfold all_finite in Ha. simpl in Ha. apply andb_true_iff in Ha as [Hx Ha].
  apply isfinite_Fin in Hx as [qx ->]. simpl. by apply IH.
Qed.

Lemma Q_index_finite v s s_star s_minus r r_star r_minus :
  isfinite s = true → isfinite s_star = true → isfinite s_minus = true →
  isfinite r = true → isfinite r_star = true → isfinite r_minus = true →
  (s_star <=? s_minus)%F = true → (r_star <=? r_minus)%F = true →
  isfinite (Q_index v s s_star s_minus r r_star r_minus) = true.
Proof.
  intros [qs ->]%isfinite_Fin Hs1 Hs2 [qr ->]%isfinite_Fin Hr1 Hr2 HS HR.
  destruct (gap_pos _ _ Hs1 Hs2 HS) as (ds & Hds & Hpos_s).
  destruct (gap_pos _ _ Hr1 Hr2 HR) as (dr & Hdr & Hpos_r).
  unfold Q_index. rewrite Hds, Hdr.
  apply isfinite_Fin in Hs1 as [q1 ->]. apply isfinite_Fin in Hr1 as [q2 ->].
  simpl. rewrite !decide_False; [done| |].
  - by intros ->.
  - by intros ->.
Qed.

Lemma finite_table_cell f0 i j :
  finite_table f0 = true → i < nrows f0 → j < length (columns f0) →
  isfinite (cell f0 i j) = true.
Proof.
  unfold finite_table. rewrite forallb_forall. intros Hf Hi Hj.
  assert (np.rows (pd.values f0) !! i = Some (np.row (pd.values f0) i)) as Hrow.
  { apply list_lookup_lookup_total_lt. by rewrite length_values. }
  apply list_elem_of_lookup_2, list_elem_of_In, Hf in Hrow.
  eapply all_finite_lookup; [exact Hrow|]. by apply row_lookup.
Qed.

Lemma cost_ranges_ok_lookup f0 impacts j :
  cost_ranges_ok f0 impacts = true → j < length (columns f0) →
  impacts !! j = Some "-" →
  (amin (np.col (pd.values f0) j) - amax (np.col (pd.values f0) j) + eps)%F ≠ zero.
Proof.
  unfold cost_ranges_ok. rewrite forallb_forall. intros Hc Hj Himp.
  specialize (Hc j). rewrite decide_True in Hc by done.
  apply negb_true_iff, bool_decide_eq_false in Hc; [done|].
  apply list_elem_of_In. unfold range. apply elem_of_seq. lia.
Qed.

Lemma finite_col f0 j :
  finite_table f0 = true → 0 < nrows f0 → j < length (columns f0) →
  np.col (pd.values f0) j ≠ [] ∧ all_finite (np.col (pd.values f0) j) = true.
Proof.
  intros Hf Hm Hj. split.
  - intros E. pose proof (col_lookup f0 0 j Hm) as H0. by rewrite E in H0.
  - apply all_finite_intro. intros i x Hi.
    apply list_elem_of_lookup_2, col_elem in Hi as (i' & Hi' & ->).
    by apply finite_table_cell.
Qed.

(** under the side conditions no score is a NaN, so that [vikor] returns *)
Lemma checks_ok f0 weights impacts v :
  checks f0 weights impacts = true →
  0 < nrows f0 → 0 < length (columns f0) →
  finite_table f0 = true → weight_sum weights ≠ 0%Qc →
  cost_ranges_ok f0 impacts = true →
  vikor_ok f0 weights impacts v = true.
Proof.
  unfold checks. rewrite !andb_true_iff, !bool_decide_eq_true.
  intros [[Hw Hi] Hsym] Hm Hn Hf Hs Hc.
  pose proof (forallb_symbols _ Hsym) as Hsym'.
  set (ws := normalize (np.array weights)).
  set (ideal := ideal_of (pd.values f0) impacts).
  set (anti := anti_ideal_of (pd.values f0) impacts).
  assert (∀ i, i < nrows f0 →
            let d := weighted_distances ws ideal anti (np.row (pd.values f0) i) in
            d ≠ [] ∧ all_finite d = true) as Hd.
  { intros i Hi'. cbv zeta.
    destruct (distances_of_row f0 weights impacts i Hw Hi') as [Hlen Hlook].
    fold ws ideal anti in Hlen, Hlook. split.
    { intros E. rewrite E in Hlen. simpl in Hlen. lia. }
    apply all_finite_intro. intros j x Hj.
    assert (j < length (columns f0)) as Hjn
      by (rewrite <-Hlen; by eapply lookup_lt_Some).
    rewrite (Hlook j Hjn) in Hj. injection Hj as <-.
    destruct (finite_col f0 j Hf Hm Hjn) as [Hne Hfc].
    destruct (lookup_lt_is_Some_2 impacts j) as [s Hs']; [lia|].
    unfold ideal, anti. rewrite ideal_lookup, anti_ideal_lookup by done.
    apply distance_finite.
    - eapply all_finite_lookup; [by apply normalize_finite|].
      apply list_lookup_lookup_total_lt. unfold ws.
      rewrite length_normalize, length_array. lia.
    - case_decide; [by apply amax_finite | by apply amin_finite].
    - case_decide; [by apply amin_finite | by apply amax_finite].
    - by apply finite_table_cell.
    - destruct (Hsym' j s Hs') as [-> | ->].
      + rewrite !decide_True by done.
        destruct (gap_pos (amin (np.col (pd.values f0) j))
                    (amax (np.col (pd.values f0) j))) as (q & -> & Hq);
          [by apply amin_finite | by apply amax_finite | by apply amin_le_amax |].
        intros [= ->]. done.
      + rewrite !decide_False by (rewrite Hs'; discriminate).
        by apply (cost_ranges_ok_lookup f0 impacts j). }
  set (r := run_of f0 weights impacts v).
  assert (length (r_S r) = nrows f0) as HlS by (unfold r; rewrite run_S; apply length_S_of).
  assert (length (r_R r) = nrows f0) as HlR by (unfold r; rewrite run_R; apply length_R_of).
  assert (all_finite (r_S r) = true) as HfS.
  { apply all_finite_intro. intros i x Hx.
    assert (i < nrows f0) as Hi' by (rewrite <-HlS; by eapply lookup_lt_Some).
    unfold r in Hx. rewrite run_S in Hx. unfold S_of in Hx.
    rewrite shape_values in Hx. cbn [fst] in Hx.
    rewrite lookup_fmap_range in Hx by done. injection Hx as <-.
    apply sum_finite. by apply (Hd i). }
  assert (all_finite (r_R r) = true) as HfR.
  { apply all_finite_intro. intros i x Hx.
    assert (i < nrows f0) as Hi' by (rewrite <-HlR; by eapply lookup_lt_Some).
    unfold r in Hx. rewrite run_R in Hx. unfold R_of in Hx.
    rewrite shape_values in Hx. cbn [fst] in Hx.
    rewrite lookup_fmap_range in Hx by done. injection Hx as <-.
    apply amax_finite; by apply (Hd i). }
  assert (r_S r ≠ []) as HS0 by (intros E; rewrite E in HlS; simpl in HlS; lia).
  assert (r_R r ≠ []) as HR0 by (intros E; rewrite E in HlR; simpl in HlR; lia).
  assert (all_finite (r_Q r) = true) as HfQ.
  { apply all_finite_intro. intros i x Hx.
    unfold r in Hx. rewrite run_Q in Hx. fold r in Hx.
    assert (i < nrows f0) as Hi'.
    { apply lookup_lt_Some in Hx. rewrite length_Q_of in Hx; lia. }
    destruct (lookup_lt_is_Some_2 (r_S r) i) as [s Hs']; [lia|].
    destruct (lookup_lt_is_Some_2 (r_R r) i) as [r' Hr']; [lia|].
    rewrite (Q_of_lookup v _ _ i s r' Hs' Hr') in Hx. injection Hx as <-.
    apply (Q_index_finite v s (amin (r_S r)) (amax (r_S r)) r' (amin (r_R r))
             (amax (r_R r))).
    - exact (all_finite_lookup _ _ _ HfS Hs').
    - by apply amin_finite.
    - by apply amax_finite.
    - exact (all_finite_lookup _ _ _ HfR Hr').
    - by apply amin_finite.
    - by apply amax_finite.
    - by apply amin_le_amax.
    - by apply amin_le_amax. }
  unfold vikor_ok. fold r.
  rewrite !andb_true_iff, !bool_decide_eq_true.
  repeat split; try done. by apply all_finite_no_nan.
Qed.

Lemma check_error_frame l0 weights impacts v verbose h out f0 e :
  h !! l0 = Some f0 → check_error f0 weights impacts = Some e →
  vikor (PyFrame l0) weights impacts v verbose (World h out) = Raise e.
Proof.
  intros Hin. unfold check_error, vikor. rewrite ret_bind.
  step (copy_ok h out l0 f0 Hin).
  step (load_ok (<[fresh (dom h) := f0]> h) out _ _ (lookup_insert_eq _ _ _)).
  cbv zeta. rewrite !shape_values. cbn [fst snd]. rewrite !length_array.
  destruct (decide (length weights ≠ length (columns f0))); [by intros [= <-]|].
  destruct (decide (length impacts ≠ length (columns f0))); [by intros [= <-]|].
  destruct (negb _); [by intros [= <-]|done].
Qed.

Lemma vikor_check_error data weights impacts v verbose w f0 e :
  input_frame data w = Some f0 → check_error f0 weights impacts = Some e →
  vikor data weights impacts v verbose w = Raise e.
Proof.
  destruct w as [h out]. destruct data as [rows|rows|l0|]; simpl; intros Hin He.
  - injection Hin as <-. rewrite vikor_of_rows.
    eapply check_error_frame; [apply lookup_insert_eq|done].
  - injection Hin as <-. rewrite vikor_of_array.
    eapply check_error_frame; [apply lookup_insert_eq|done].
  - by eapply check_error_frame.
  - done.
Qed.

Lemma checks_false_error f0 weights impacts :
  checks f0 weights impacts = false → ∃ msg, check_error f0 weights impacts = Some (ValueError msg).
Proof.
  unfold checks, check_error. cbv zeta. intros H.
  destruct (decide (length weights ≠ _)); [by eexists|].
  destruct (decide (length impacts ≠ _)); [by eexists|].
  destruct (forallb _ impacts); simpl; [|by eexists].
  rewrite !bool_decide_eq_true_2 in H by by apply dec_stable. done.
Qed.


(** ** The strategy weight at its extremes *)

Lemma count_pointwise (P Q : float → Prop) `{∀ z, Decision (P z)} `{∀ z, Decision (Q z)}
    (x y : list float) :
  length x = length y →
  (∀ k xk yk, x !! k = Some xk → y !! k = Some yk → (P xk ↔ Q yk)) →
  length (filter P x) = length (filter Q y).
Proof.
  revert y. induction x as [|a x IH]; intros [|b y] Hlen Hpq; try done.
  simpl in Hlen. rewrite !filter_cons.
  pose proof (Hpq 0 a b eq_refl eq_refl) as Hab.
  assert (length (filter P x) = length (filter Q y)) as Hrec.
  { apply IH; [lia|]. intros k xk yk Hx Hy. by apply (Hpq (S k)). }
  destruct (decide (P a)), (decide (Q b)); simpl; try lia; tauto.
Qed.

(** series that order their entries alike have the same ranks *)
Lemma ranks_same_order x y :
  length x = length y →
  (∀ i k xi xk yi yk,
     x !! i = Some xi → x !! k = Some xk → y !! i = Some yi → y !! k = Some yk →
     (xi <? xk)%F = (yi <? yk)%F) →
  ranks x = ranks y.
Proof.
  intros Hlen Hord. apply list_eq. intros i.
  destruct (x !! i) as [xi|] eqn:Hxi.
  - destruct (lookup_lt_is_Some_2 y i) as [yi Hyi];
      [rewrite <-Hlen; by eapply lookup_lt_Some|].
    rewrite (ranks_lookup_count _ _ _ Hxi), (ranks_lookup_count _ _ _ Hyi).
    f_equal. f_equal. unfold count_below. apply count_pointwise; [done|].
    intros k xk yk Hxk Hyk. by rewrite (Hord k i xk xi yk yi).
  - rewrite !lookup_ge_None_2; [done| |].
    + rewrite length_ranks, <-Hlen. by apply lookup_ge_None.
    + rewrite length_ranks. by apply lookup_ge_None.
Qed.

Lemma Qc_scale_lt (a b c d : Qc) :
  (0 < d)%Qc → ((a + - c) / d < (b + - c) / d)%Qc ↔ (a < b)%Qc.
Proof.
  intros Hd. unfold Qcdiv.
  assert (0 < / d)%Qc as Hinv.
  { replace (/ d)%Qc with (1 / d)%Qc by (unfold Qcdiv; ring). by apply Qcinv_pos. }
  rewrite <-(Qcmult_lt_mono_pos_r _ _ _ Hinv), <-Qcplus_lt_mono_r. done.
Qed.

(** with [v = 0] the index Q orders the alternatives as R does *)
Lemma Q_index_v0 si sk s1 s2 ri rk r1 r2 :
  isfinite si = true → isfinite sk = true → isfinite s1 = true → isfinite s2 = true →
  isfinite ri = true → isfinite rk = true → isfinite r1 = true → isfinite r2 = true →
  (s1 <=? s2)%F = true → (r1 <=? r2)%F = true →
  (Q_index 0 si s1 s2 ri r1 r2 <? Q_index 0 sk s1 s2 rk r1 r2)%F = (ri <? rk)%F.
Proof.
  intros [qsi ->]%isfinite_Fin [qsk ->]%isfinite_Fin Hs1 Hs2
    [qri ->]%isfinite_Fin [qrk ->]%isfinite_Fin Hr1 Hr2 HS HR.
  destruct (gap_pos _ _ Hs1 Hs2 HS) as (ds & Hds & Hpos_s).
  destruct (gap_pos _ _ Hr1 Hr2 HR) as (dr & Hdr & Hpos_r).
  unfold Q_index. rewrite Hds, Hdr.
  apply isfinite_Fin in Hs1 as [q1 ->]. apply isfinite_Fin in Hr1 as [q2 ->].
  simpl. rewrite !decide_False by (by intros ->). simpl.
  unfold Qcltb. apply bool_decide_ext.
  rewrite <-(Qc_scale_lt qri qrk q2 dr Hpos_r).
  replace (0 * (qsi + - q1) / ds + (1 + - 0) * (qri + - q2) / dr)%Qc
    with ((qri + - q2) / dr)%Qc by (unfold Qcdiv; ring).
  replace (0 * (qsk + - q1) / ds + (1 + - 0) * (qrk + - q2) / dr)%Qc
    with ((qrk + - q2) / dr)%Qc by (unfold Qcdiv; ring).
  done.
Qed.

(** with [v = 1] the index Q orders the alternatives as S does *)
Lemma Q_index_v1 si sk s1 s2 ri rk r1 r2 :
  isfinite si = true → isfinite sk = true → isfinite s1 = true → isfinite s2 = true →
  isfinite ri = true → isfinite rk = true → isfinite r1 = true → isfinite r2 = true →
  (s1 <=? s2)%F = true → (r1 <=? r2)%F = true →
  (Q_index 1 si s1 s2 ri r1 r2 <? Q_index 1 sk s1 s2 rk r1 r2)%F = (si <? sk)%F.
Proof.
  intros [qsi ->]%isfinite_Fin [qsk ->]%isfinite_Fin Hs1 Hs2
    [qri ->]%isfinite_Fin [qrk ->]%isfinite_Fin Hr1 Hr2 HS HR.
  destruct (gap_pos _ _ Hs1 Hs2 HS) as (ds & Hds & Hpos_s).
  destruct (gap_pos _ _ Hr1 Hr2 HR) as (dr & Hdr & Hpos_r).
  unfold Q_index. rewrite Hds, Hdr.
  apply isfinite_Fin in Hs1 as [q1 ->]. apply isfinite_Fin in Hr1 as [q2 ->].
  simpl. rewrite !decide_False by (by intros ->). simpl.
  unfold Qcltb. apply bool_decide_ext.
  rewrite <-(Qc_scale_lt qsi qsk q1 ds Hpos_s).
  replace (1 * (qsi + - q1) / ds + (1 + - 1) * (qri + - q2) / dr)%Qc
    with ((qsi + - q1) / ds)%Qc by (unfold Qcdiv; ring).
  replace (1 * (qsk + - q1) / ds + (1 + - 1) * (qrk + - q2) / dr)%Qc
    with ((qsk + - q1) / ds)%Qc by (unfold Qcdiv; ring).
  done.
Qed.


(** ** Scaling the weights *)

Lemma bind_ext {A B} (c : M A) (k1 k2 : A → M B) w :
  (∀ a w', k1 a w' = k2 a w') → (c ≫= k1) w = (c ≫= k2) w.
Proof. intros H. unfold mbind, M_bind. destruct (c w); [apply H|done]. Qed.

(** [vikor] reads the weights through their number and their normalized
    values only *)
Lemma vikor_weights_ext data w1 w2 impacts v verbose w :
  length w1 = length w2 →
  normalize (np.array w1) = normalize (np.array w2) →
  vikor data w1 impacts v verbose w = vikor data w2 impacts v verbose w.
Proof.
  intros Hlen Hnorm. unfold vikor. cbv zeta.
  fold (normalize (np.array w1)). fold (normalize (np.array w2)).
  rewrite Hnorm, !length_array, Hlen. done.
Qed.

Lemma foldl_scale c a ws :
  foldl Qcplus (c * a)%Qc (scale c ws) = (c * foldl Qcplus a ws)%Qc.
Proof.
  revert a. induction ws as [|x ws IH]; intros a; simpl; [done|].
  rewrite <-IH. f_equal. ring.
Qed.

Lemma weight_sum_scale c ws : weight_sum (scale c ws) = (c * weight_sum ws)%Qc.
Proof.
  unfold weight_sum. rewrite <-foldl_scale. f_equal. ring.
Qed.

Lemma length_scale c ws : length (scale c ws) = length ws.
Proof. apply length_fmap. Qed.

Lemma normalize_array ws :
  normalize (np.array ws) =
  if (Float.abs (Fin (weight_sum ws) - one) >? tol)%F
  then np.vdivs (np.array ws) (Fin (weight_sum ws)) else np.array ws.
Proof. unfold normalize. by rewrite sum_array. Qed.

Lemma settled_one : (Float.abs (Fin 1 - one) >? tol)%F = false.
Proof. done. Qed.

Lemma settled_far s :
  settled s = true → s ≠ 1%Qc → (Float.abs (Fin s - one) >? tol)%F = true.
Proof.
  unfold settled. intros [H|H]%orb_true_iff Hs; [|done].
  by apply bool_decide_eq_true in H.
Qed.

Lemma vdivs_array ws s :
  s ≠ 0%Qc → np.vdivs (np.array ws) (Fin s) = np.array ((λ x, x / s)%Qc <$> ws).
Proof.
  intros Hs. unfold np.vdivs, np.array. rewrite <-!list_fmap_compose.
  apply list_fmap_ext. intros i x _. simpl. by rewrite decide_False.
Qed.

Lemma normalize_scale c ws :
  c ≠ 0%Qc → weight_sum ws ≠ 0%Qc →
  settled (weight_sum ws) = true → settled (c * weight_sum ws) = true →
  normalize (np.array (scale c ws)) = normalize (np.array ws).
Proof.
  intros Hc Hs H1 H2. rewrite !normalize_array, weight_sum_scale.
  assert (c * weight_sum ws ≠ 0)%Qc as Hcs.
  { intros E. apply Qcmult_integral in E as [E|E]; [by apply Hc|by apply Hs]. }
  destruct (decide (weight_sum ws = 1%Qc)) as [E1|E1];
    destruct (decide (c * weight_sum ws = 1)%Qc) as [E2|E2].
  - rewrite E2, E1, settled_one. f_equal.
    rewrite E1 in E2. assert (c = 1%Qc) as -> by (rewrite <-E2; ring).
    unfold scale. rewrite <-(list_fmap_id ws) at 2.
    apply list_fmap_ext. intros i x _. simpl. ring.
  - rewrite (settled_far _ H2 E2), (vdivs_array _ _ Hcs), E1, settled_one.
    f_equal. unfold scale. rewrite <-list_fmap_compose.
    rewrite <-(list_fmap_id ws) at 2.
    apply list_fmap_ext. intros i x _. simpl. rewrite E1 in *. field. 
    intros E. apply Hc. rewrite <-E. ring.
  - rewrite E2, settled_one, (settled_far _ H1 E1), (vdivs_array _ _ Hs).
    f_equal. unfold scale. apply list_fmap_ext. intros i x _. simpl.
    rewrite <-(Qcmult_1_l (x / weight_sum ws)), <-E2. field. done.
  - rewrite (settled_far _ H2 E2), (settled_far _ H1 E1),
      (vdivs_array _ _ Hcs), (vdivs_array _ _ Hs).
    f_equal. unfold scale. rewrite <-list_fmap_compose.
    apply list_fmap_ext. intros i x _. simpl. field. done.
Qed.


(** ** The test table *)

Lemma vikor_returns data weights impacts v verbose w f0 :
  input_frame data w = Some f0 → vikor_ok f0 weights impacts v = true →
  vikor data weights impacts v verbose w
  = Ok (result_loc data w f0) (world_after data weights impacts v verbose w f0).
Proof.
  intros Hin Hok. pose proof (vikor_run data weights impacts v verbose w f0 Hin) as H.
  by rewrite Hok in H.
Qed.

Lemma ex_ok v :
  vikor_ok ex_frame ex_weights ex_impacts v = true →
  vikor (PyFrame 0) ex_weights ex_impacts v false ex_world = Ok ex_result (ex_after v).
Proof. intros Hok. by apply vikor_returns. Qed.

Lemma ex_returns :
  vikor (PyFrame 0) ex_weights ex_impacts ex_v false ex_world
  = Ok ex_result (ex_after ex_v).
Proof. apply ex_ok. vm_compute. reflexivity. Qed.

Lemma ex_returns_0 :
  vikor (PyFrame 0) ex_weights ex_impacts 0 false ex_world = Ok ex_result (ex_after 0).
Proof. apply ex_ok. vm_compute. reflexivity. Qed.

Lemma ex_returns_1 :
  vikor (PyFrame 0) ex_weights ex_impacts 1 false ex_world = Ok ex_result (ex_after 1).
Proof. apply ex_ok. vm_compute. reflexivity. Qed.

(** C5. On the table of the repository's test the call with v = 0 ranks by
    R, not by S: the third and the fourth alternative share the second rank
    by Q as they do by R, while S tells them apart; and the call with v = 1
    ranks by S, not by R. *)
Theorem vikor_strategy_example :
  vikor (PyFrame 0) ex_weights ex_impacts 0 false ex_world = Ok ex_result (ex_after 0) ∧
  column_of (ex_after 0) ex_result "Q_Rank" = Some (IntCol [1; 4; 2; 2]) ∧
  column_of (ex_after 0) ex_result "S_Rank" = Some (IntCol [1; 4; 2; 3]) ∧
  column_of (ex_after 0) ex_result "R_Rank" = Some (IntCol [1; 4; 2; 2]) ∧
  vikor (PyFrame 0) ex_weights ex_impacts 1 false ex_world = Ok ex_result (ex_after 1) ∧
  column_of (ex_after 1) ex_result "Q_Rank" = Some (IntCol [1; 4; 2; 3]) ∧
  column_of (ex_after 1) ex_result "S_Rank" = Some (IntCol [1; 4; 2; 3]) ∧
  column_of (ex_after 1) ex_result "R_Rank" = Some (IntCol [1; 4; 2; 2]).
Proof.
  split; [exact ex_returns_0|].
  do 3 (split; [vm_compute; reflexivity|]).
  split; [exact ex_returns_1|].
  repeat split; vm_compute; reflexivity.
Qed.

(** ** The theorems on the test table *)






Lemma vikor_frame_witness :
  vikor (PyFrame 0) ex_weights ex_impacts ex_v false ex_world
  = Ok ex_result (ex_after ex_v) ∧
  heap (ex_after ex_v) !! 0 = Some ex_frame ∧
  heap ex_world !! ex_result = None.
Proof.
  split; [exact ex_returns|].
  destruct (vikor_frame _ _ _ _ _ _ _ _ ex_returns)
    as (f0 & f & _ & Hfresh & _ & Hkeep & _).
  split; [|exact Hfresh]. by apply Hkeep.
Defined.





(** * Further properties of [vikor] *)

(** ** The exceptions *)

Lemma astype_int_raise_exact (r : list (option nat)) w :
  None ∈ r →
  pd.astype_int r w
  = Raise (ValueError "Cannot convert non-finite values (NA or inf) to integer").
Proof.
  induction r as [|[k|] r IH]; intros Hin.
  - by apply elem_of_nil in Hin.
  - apply elem_of_cons in Hin as [|Hin]; [done|].
    simpl. by rewrite (bind_raise _ _ _ _ (IH Hin)).
  - done.
Qed.

Lemma rank_nan x : no_nan x = false → None ∈ pd.rank x.
Proof.
  intros H. unfold no_nan in H. apply not_true_iff_false in H.
  rewrite forallb_forall in H. apply list_elem_of_fmap.
  destruct (decide (NaN ∈ x)) as [Hin|Hnin].
  - exists NaN. split; [done|done].
  - exfalso. apply H. intros y Hy. apply list_elem_of_In in Hy.
    destruct y; try done.
Qed.

Lemma check_error_None f0 weights impacts :
  check_error f0 weights impacts = None →
  length weights = length (columns f0) ∧ length impacts = length (columns f0) ∧
  forallb (λ i, bool_decide (i ∈ ["+"; "-"])) impacts = true.
Proof.
  unfold check_error. cbv zeta.
  destruct (decide (length weights ≠ _)) as [|Hw%dec_stable]; [done|].
  destruct (decide (length impacts ≠ _)) as [|Hi%dec_stable]; [done|].
  destruct (forallb _ impacts); [done|done].
Qed.

Lemma vikor_fails_frame l0 weights impacts v verbose h out f0 :
  h !! l0 = Some f0 → vikor_ok f0 weights impacts v = false →
  vikor (PyFrame l0) weights impacts v verbose (World h out)
  = Raise (failure f0 weights impacts).
Proof.
  intros Hin Hok. unfold failure.
  destruct (check_error f0 weights impacts) as [e|] eqn:Hce.
  { by eapply check_error_frame. }
  destruct (check_error_None _ _ _ Hce) as (Hw & Hi & Hsym).
  unfold vikor. rewrite ret_bind.
  step (copy_ok h out l0 f0 Hin).
  step (load_ok (<[fresh (dom h) := f0]> h) out _ _ (lookup_insert_eq _ _ _)).
  cbv zeta. rewrite !shape_values. cbn [fst snd]. rewrite !length_array.
  fold (normalize (np.array weights)).
  set (df := fresh (dom h)). set (h1 := <[df := f0]> h).
  destruct (decide (length weights ≠ length (columns f0))) as [Hw'|_]; [done|].
  destruct (decide (length impacts ≠ length (columns f0))) as [Hi'|_]; [done|].
  rewrite Hsym. cbn [negb].
  assert (length (normalize (np.array weights)) = length (columns f0)) as Hws
    by (by rewrite length_normalize, length_array).
  destruct (decide (0 < nrows f0 ∧ 0 < length (columns f0))) as [[Hm Hn]|Hne].
  - step (loop_ideal_ok f0 impacts (World h1 out) Hm Hi).
    step (loop_SR_ok f0 (normalize (np.array weights)) (ideal_of (pd.values f0) impacts)
            (anti_ideal_of (pd.values f0) impacts) (World h1 out) Hn Hws
            (length_ideal_of _ _) (length_anti_ideal_of _ _)).
    set (S_ := S_of (pd.values f0) (normalize (np.array weights))
                 (ideal_of (pd.values f0) impacts) (anti_ideal_of (pd.values f0) impacts)).
    set (R_ := R_of (pd.values f0) (normalize (np.array weights))
                 (ideal_of (pd.values f0) impacts) (anti_ideal_of (pd.values f0) impacts)).
    assert (length S_ = nrows f0) as HlS by apply length_S_of.
    assert (length R_ = nrows f0) as HlR by apply length_R_of.
    assert (S_ ≠ []) as HS0 by (intros E; rewrite E in HlS; simpl in HlS; lia).
    assert (R_ ≠ []) as HR0 by (intros E; rewrite E in HlR; simpl in HlR; lia).
    step (np_min_ok S_ (World h1 out) HS0).
    step (np_max_ok S_ (World h1 out) HS0).
    step (np_min_ok R_ (World h1 out) HR0).
    step (np_max_ok R_ (World h1 out) HR0).
    fold (Q_of v S_ R_). set (Q_ := Q_of v S_ R_).
    assert (length Q_ = nrows f0) as HlQ by (unfold Q_; rewrite length_Q_of; congruence).
    step (copy_ok h1 out df f0 (lookup_insert_eq _ _ _)).
    set (res := fresh (dom h1)).
    step (setitem_ok h1 out res f0 "S" (FloatCol S_) HlS).
    name_frame f1.
    step (setitem_ok h1 out res f1 "R" (FloatCol R_) HlR).
    name_frame f2.
    step (setitem_ok h1 out res f2 "Q" (FloatCol Q_) HlQ).
    name_frame f3.
    assert (r_Q (run_of f0 weights impacts v) = Q_) as HrQ
      by (by rewrite run_Q, run_S, run_R).
    assert (no_nan Q_ = false) as HQ.
    { unfold vikor_ok in Hok. rewrite HrQ, Hsym in Hok.
      rewrite !bool_decide_eq_true_2 in Hok by done. done. }
    apply bind_raise. apply astype_int_raise_exact. by apply rank_nan.
  - unfold empty_error.
    destruct (decide (0 < length (columns f0))) as [Hn|Hn];
      destruct (decide (0 < nrows f0)) as [Hm|Hm]; [lia| | |].
    + (* no row, some column: the first loop raises *)
      destruct (length (columns f0)) as [|n] eqn:Hlen; [lia|].
      destruct impacts as [|imp impacts]; [done|].
      assert (np.col (pd.values f0) 0 = []) as Hcol.
      { apply length_zero_iff_nil. rewrite length_col, length_values. lia. }
      apply bind_raise. unfold range. simpl seq. simpl for_each.
      step (py_index_ok (imp :: impacts) 0 imp (World h1 out) eq_refl).
      simpl. destruct (decide (imp = "+")) as [->|Himp].
      * rewrite decide_True by done. by rewrite Hcol.
      * rewrite decide_False by congruence. by rewrite Hcol.
    + (* no column, some row: the second loop raises *)
      step (loop_ideal_nil f0 impacts (World h1 out) ltac:(lia)).
      apply bind_raise.
      destruct (nrows f0) as [|m]; [lia|].
      unfold range. simpl seq. simpl for_each.
      assert (np.vdiv (np.vmul (normalize (np.array weights)) []) [] = []) as ->.
      { unfold np.vdiv. by rewrite zip_with_nil_r. }
      done.
    + (* neither rows nor columns: [np.min(S)] raises *)
      step (loop_ideal_nil f0 impacts (World h1 out) ltac:(lia)).
      step (loop_SR_nil f0 (normalize (np.array weights)) (World h1 out) ltac:(lia)).
      done.
Qed.

Lemma vikor_fails data weights impacts v verbose w f0 :
  input_frame data w = Some f0 → vikor_ok f0 weights impacts v = false →
  vikor data weights impacts v verbose w = Raise (failure f0 weights impacts).
Proof.
  destruct w as [h out]. destruct data as [rows|rows|l0|]; simpl; intros Hin Hok.
  - injection Hin as <-. rewrite vikor_of_rows.
    apply vikor_fails_frame; [apply lookup_insert_eq|done].
  - injection Hin as <-. rewrite vikor_of_array.
    apply vikor_fails_frame; [apply lookup_insert_eq|done].
  - by apply vikor_fails_frame.
  - done.
Qed.

Lemma failure_ValueError f0 weights impacts :
  ∃ msg, failure f0 weights impacts = ValueError msg.
Proof.
  unfold failure, check_error, empty_error. cbv zeta.
  destruct (decide (length weights ≠ _)); [by eexists|].
  destruct (decide (length impacts ≠ _)); [by eexists|].
  destruct (negb _); [by eexists|].
  repeat case_decide; by eexists.
Qed.


(** X2. A table without rows or without columns makes the call raise a
    ValueError; when the three checks pass it is numpy's "zero-size array"
    error. *)
Theorem vikor_empty_table data weights impacts v verbose w f0 :
  input_frame data w = Some f0 →
  nrows f0 = 0 ∨ length (columns f0) = 0 →
  vikor data weights impacts v verbose w = Raise (failure f0 weights impacts) ∧
  (checks f0 weights impacts = true →
   failure f0 weights impacts = empty_error f0 impacts).
Proof.
  intros Hin Hempty. split.
  - apply vikor_fails; [done|]. unfold vikor_ok.
    destruct Hempty as [-> | ->]; simpl; by rewrite ?andb_false_r.
  - unfold checks, failure, check_error. cbv zeta.
    rewrite !andb_true_iff, !bool_decide_eq_true. intros [[Hw Hi] Hsym].
    rewrite !decide_False by (intros H; by apply H). rewrite Hsym. simpl.
    rewrite decide_False by lia. done.
Qed.

(** X3. A missing value in the table makes the call raise: a NaN entry reaches
    the scores and the ranks cannot be converted to integers. *)
Theorem vikor_missing_value data weights impacts v verbose w f0 i j :
  input_frame data w = Some f0 →
  i < nrows f0 → j < length (columns f0) → isnan (cell f0 i j) = true →
  vikor data weights impacts v verbose w = Raise (failure f0 weights impacts) ∧
  (checks f0 weights impacts = true →
   failure f0 weights impacts
   = ValueError "Cannot convert non-finite values (NA or inf) to integer").
Proof.
  intros Hin Hi Hj Hnan. split.
  - apply vikor_fails; [done|].
    destruct (vikor_ok f0 weights impacts v) eqn:Hok; [|done].
    destruct (ok_no_nan f0 weights impacts v i Hok Hi) as [_ Hc].
    specialize (Hc j Hj). congruence.
  - unfold checks, failure, check_error. cbv zeta.
    rewrite !andb_true_iff, !bool_decide_eq_true. intros [[Hw Himp] Hsym].
    rewrite !decide_False by (intros H; by apply H). rewrite Hsym. simpl.
    rewrite decide_True by lia. done.
Qed.


Lemma vikor_empty_table_witness :
  vikor (PyList []) [] [] ex_v false ex_world
  = Raise (failure (pd.DataFrame_of_rows []) [] []).
Proof.
  exact (proj1 (vikor_empty_table (PyList []) [] [] ex_v false ex_world
                  (pd.DataFrame_of_rows []) eq_refl (or_introl eq_refl))).
Defined.

Lemma vikor_missing_value_witness :
  vikor (PyFrame 0) [1%Qc; 1%Qc] ["+"; "-"] ex_v false nan_world
  = Raise (failure nan_frame [1%Qc; 1%Qc] ["+"; "-"]).
Proof.
  refine (proj1 (vikor_missing_value (PyFrame 0) [1%Qc; 1%Qc] ["+"; "-"] ex_v false
                   nan_world nan_frame 1 0 eq_refl _ _ eq_refl)); simpl; lia.
Defined.

(** ** The scores are finite numbers *)

Lemma isfinite_add_inv x y :
  isfinite (x + y)%F = true → isfinite x = true ∧ isfinite y = true.
Proof. by destruct x, y. Qed.

Lemma foldl_add_finite_inv a acc :
  isfinite (foldl Float.add acc a) = true →
  isfinite acc = true ∧ all_finite a = true.
Proof.
  revert acc. induction a as [|x a IH]; intros acc H; simpl in *; [done|].
  destruct (IH _ H) as [Hacc Ha].
  destruct (isfinite_add_inv _ _ Hacc) as [? Hx].
  split; [done|]. unfold all_finite in *. simpl. by rewrite Hx.
Qed.

Lemma sum_finite_inv a : isfinite (np.sum a) = true → all_finite a = true.
Proof. intros H. by destruct (foldl_add_finite_inv a zero H). Qed.

Lemma isfinite_inf s : isfinite (inf s) = false.
Proof. by destruct s. Qed.

Lemma isfinite_sub_inv x y :
  isfinite (x - y)%F = true → isfinite x = true ∧ isfinite y = true.
Proof. by destruct x, y. Qed.

Lemma isfinite_mul_inv x y :
  isfinite (x * y)%F = true → isfinite x = true ∧ isfinite y = true.
Proof.
  destruct x, y; simpl; try done; case_decide; simpl; rewrite ?isfinite_inf; done.
Qed.

Lemma isfinite_div_inv x y : isfinite (x / y)%F = true → isfinite x = true.
Proof. destruct x, y; simpl; rewrite ?isfinite_inf; done. Qed.

(** a finite weighted distance comes from a finite weight and a finite value *)
Lemma distance_finite_inv w i a x :
  isfinite (distance w i a x) = true → isfinite w = true ∧ isfinite x = true.
Proof.
  unfold distance. intros H%isfinite_div_inv.
  apply isfinite_mul_inv in H as [Hw H]. by apply isfinite_sub_inv in H as [_ Hx].
Qed.

Lemma ok_finite_table f0 weights impacts v :
  vikor_ok f0 weights impacts v = true → finite_table f0 = true.
Proof.
  intros Hok.
  destruct (ok_facts _ _ _ _ Hok) as (Hw & _ & _ & Hm & Hn & HlS & _ & _ & HfS & _).
  unfold finite_table. apply forallb_forall. intros row Hrow.
  apply list_elem_of_In, list_elem_of_lookup_1 in Hrow as [i Hi].
  assert (i < nrows f0) as Him
    by (apply lookup_lt_Some in Hi; by rewrite length_values in Hi).
  assert (row = np.row (pd.values f0) i) as ->.
  { unfold np.row. symmetry. by apply list_lookup_total_correct. }
  destruct (distances_of_row f0 weights impacts i Hw Him) as [Hld Hd].
  assert (r_S (run_of f0 weights impacts v) !! i
          = Some (np.sum (weighted_distances (normalize (np.array weights))
                    (ideal_of (pd.values f0) impacts)
                    (anti_ideal_of (pd.values f0) impacts)
                    (np.row (pd.values f0) i)))) as HSi.
  { rewrite run_S. unfold S_of. rewrite shape_values. cbn [fst].
    by rewrite lookup_fmap_range. }
  pose proof (sum_finite_inv _ (all_finite_lookup _ _ _ HfS HSi)) as Hfd.
  apply all_finite_intro. intros j x Hx.
  assert (j < length (columns f0)) as Hj.
  { apply lookup_lt_Some in Hx. by rewrite length_row in Hx. }
  rewrite (row_lookup f0 i j Him Hj) in Hx. injection Hx as <-.
  pose proof (all_finite_lookup _ _ _ Hfd (Hd j Hj)) as Hfin.
  by apply distance_finite_inv in Hfin as [_ ?].
Qed.

(** X4. Whenever [vikor] returns, every entry of the table is a finite number
    and so is every entry of the columns S, R and Q: no NaN and no infinity
    is ever returned. *)
Theorem vikor_finite data weights impacts v verbose w l w' :
  vikor data weights impacts v verbose w = Ok l w' →
  ∃ f0 S_ R_ Q_,
    input_frame data w = Some f0 ∧
    column_of w' l "S" = Some (FloatCol S_) ∧
    column_of w' l "R" = Some (FloatCol R_) ∧
    column_of w' l "Q" = Some (FloatCol Q_) ∧
    finite_table f0 = true ∧
    all_finite S_ = true ∧ all_finite R_ = true ∧ all_finite Q_ = true.
Proof.
  intros (f0 & Hin & Hok & -> & ->)%vikor_inv.
  destruct (ok_facts _ _ _ _ Hok)
    as (_ & _ & _ & _ & _ & _ & _ & _ & HfS & HfR & HfQ).
  set (r := run_of f0 weights impacts v) in *.
  exists f0, (r_S r), (r_R r), (r_Q r).
  rewrite !result_column. fold r.
  destruct (frame_of_run_columns f0 r) as (? & ? & ? & _).
  repeat (split; [done|]).
  split; [by eapply ok_finite_table|]. done.
Qed.

Lemma vikor_finite_witness :
  vikor (PyFrame 0) ex_weights ex_impacts ex_v false ex_world
  = Ok ex_result (ex_after ex_v) ∧
  finite_table ex_frame = true.
Proof.
  split; [exact ex_returns|].
  destruct (vikor_finite _ _ _ _ _ _ _ _ ex_returns)
    as (f0 & S_ & R_ & Q_ & Hin & _ & _ & _ & Hf & _).
  injection Hin as <-. exact Hf.
Defined.

(** ** The ranks, the attributes and the status *)

Lemma ranks_rank_column x : x ≠ [] → rank_column (length x) (ranks x).
Proof.
  intros Hx. split; [apply length_ranks|]. split.
  - intros i r (y & Hy & ->)%ranks_lookup_inv.
    pose proof (count_below_lt_length x y (list_elem_of_lookup_2 _ _ _ Hy)). lia.
  - destruct (ranks_find_1 x Hx) as [i Hi].
    apply list_find_Some in Hi as (Hi & _). by exists i.
Qed.



(** X6. Whenever [vikor] returns, the result carries the five attributes
    C1_satisfied, C2_satisfied, DQ, compromise_status and compromise_set, and
    every other attribute of the input table unchanged. *)
Theorem vikor_attrs data weights impacts v verbose w l w' :
  vikor data weights impacts v verbose w = Ok l w' →
  ∃ f0,
    input_frame data w = Some f0 ∧
    (∀ key, key ∈ attr_keys → is_Some (attr_of w' l key)) ∧
    (∀ key, key ∉ attr_keys → attr_of w' l key = attrs f0 !! key).
Proof.
  intros (f0 & Hin & Hok & -> & ->)%vikor_inv.
  exists f0. split; [done|].
  set (r := run_of f0 weights impacts v).
  destruct (frame_of_run_attrs f0 r) as (H1 & H2 & H3 & H4 & H5).
  split; intros key Hkey; rewrite result_attr; fold r; unfold attr_keys in Hkey.
  - rewrite !elem_of_cons, elem_of_nil in Hkey.
    destruct Hkey as [->|[->|[->|[->|[->|[]]]]]]; by eexists.
  - rewrite !not_elem_of_cons in Hkey.
    destruct Hkey as (? & ? & ? & ? & ? & _).
    unfold frame_of_run. cbn [attrs].
    by rewrite !lookup_insert_ne by done.
Qed.

Lemma vikor_attrs_witness :
  vikor (PyFrame 0) ex_weights ex_impacts ex_v false ex_world
  = Ok ex_result (ex_after ex_v) ∧
  is_Some (attr_of (ex_after ex_v) ex_result "compromise_status") ∧
  attr_of (ex_after ex_v) ex_result "source" = None.
Proof.
  split; [exact ex_returns|].
  destruct (vikor_attrs _ _ _ _ _ _ _ _ ex_returns) as (f0 & Hin & Hset & Hkeep).
  injection Hin as <-. split.
  - apply Hset. unfold attr_keys. rewrite !elem_of_cons. tauto.
  - rewrite Hkeep; [done|]. unfold attr_keys. rewrite !not_elem_of_cons.
    repeat split; try discriminate. apply not_elem_of_nil.
Defined.

Lemma run_status f0 weights impacts v :
  let r := run_of f0 weights impacts v in
  r_status r = status_text (r_C1 r) (r_C2 r) (length (r_set r)).
Proof.
  cbv zeta. unfold status_text.
  destruct (r_C1 (run_of f0 weights impacts v)) eqn:HC1;
    [destruct (r_C2 (run_of f0 weights impacts v)) eqn:HC2|]; simpl.
  - destruct (run_single f0 weights impacts v) as (_ & _ & ->); [|done].
    by rewrite HC1, HC2.
  - destruct (run_union f0 weights impacts v) as (_ & -> & ->); done.
  - destruct (run_multiple f0 weights impacts v) as (_ & -> & ->); done.
Qed.

(** X7. Whenever [vikor] returns, the attribute compromise_status is determined
    by the two conditions and by the size of the compromise set: the "Single
    compromise solution" text when C1 and C2 are satisfied, otherwise the
    "Multiple compromise solutions" text when C1 is not satisfied and the
    "Compromise set" text when only C2 is not, each with the number of
    alternatives the attribute compromise_set lists. *)
Theorem vikor_status data weights impacts v verbose w l w' :
  vikor data weights impacts v verbose w = Ok l w' →
  ∃ C1 C2 members,
    attr_of w' l "C1_satisfied" = Some (ABool C1) ∧
    attr_of w' l "C2_satisfied" = Some (ABool C2) ∧
    attr_of w' l "compromise_set" = Some (AList members) ∧
    attr_of w' l "compromise_status"
    = Some (AStr (status_text C1 C2 (length members))).
Proof.
  intros (f0 & Hin & Hok & -> & ->)%vikor_inv.
  set (r := run_of f0 weights impacts v).
  exists (r_C1 r), (r_C2 r), (r_set r).
  rewrite !result_attr. fold r.
  destruct (frame_of_run_attrs f0 r) as (? & ? & _ & Hst & ?).
  repeat (split; [done|]).
  rewrite Hst. unfold r. by rewrite run_status.
Qed.

Lemma vikor_status_witness :
  vikor (PyFrame 0) ex_weights ex_impacts ex_v false ex_world
  = Ok ex_result (ex_after ex_v) ∧
  ∃ C1 C2 k, attr_of (ex_after ex_v) ex_result "compromise_status"
             = Some (AStr (status_text C1 C2 k)).
Proof.
  split; [exact ex_returns|].
  destruct (vikor_status _ _ _ _ _ _ _ _ ex_returns)
    as (C1 & C2 & members & _ & _ & _ & Hst).
  exists C1, C2, (length members). exact Hst.
Defined.

(** ** A single alternative *)

Lemma ranks_single x : ranks [x] = [1].
Proof.
  unfold ranks. simpl. rewrite filter_cons, decide_False, filter_nil; [done|].
  by rewrite ltb_irrefl.
Qed.

Lemma Q_of_single v s r :
  isfinite s = true → isfinite r = true → Q_of v [s] [r] = [zero].
Proof.
  intros [qs ->]%isfinite_Fin [qr ->]%isfinite_Fin.
  unfold Q_of, np.vadd, np.vdivs, np.smul, np.vsubs. simpl.
  assert (∀ q, (q + - q + dec 1 10000000000)%Qc ≠ 0%Qc) as Hne.
  { intros q. replace (q + - q + dec 1 10000000000)%Qc with (dec 1 10000000000)
      by ring. done. }
  rewrite !decide_False by apply Hne. simpl. unfold zero. do 2 f_equal.
  unfold Qcdiv. ring.
Qed.

(** X8. On a table with a single alternative, whenever [vikor] returns: Q is 0,
    every rank is 1, DQ is 1, both conditions are satisfied, and the
    alternative is the single compromise solution. *)
Theorem vikor_single_alternative data weights impacts v verbose w l w' f0 :
  vikor data weights impacts v verbose w = Ok l w' →
  input_frame data w = Some f0 → nrows f0 = 1 →
  column_of w' l "Q" = Some (FloatCol [zero]) ∧
  column_of w' l "Q_Rank" = Some (IntCol [1]) ∧
  column_of w' l "S_Rank" = Some (IntCol [1]) ∧
  column_of w' l "R_Rank" = Some (IntCol [1]) ∧
  column_of w' l "Rank" = Some (IntCol [1]) ∧
  column_of w' l "Is_Compromise" = Some (BoolCol [true]) ∧
  attr_of w' l "C1_satisfied" = Some (ABool true) ∧
  attr_of w' l "C2_satisfied" = Some (ABool true) ∧
  attr_of w' l "DQ" = Some (AFloat one) ∧
  attr_of w' l "compromise_set" = Some (AList [0]) ∧
  attr_of w' l "compromise_status"
  = Some (AStr "Single compromise solution (C1 and C2 satisfied)").
Proof.
  intros (f0' & Hin' & Hok & -> & ->)%vikor_inv Hin Hm.
  assert (f0' = f0) as -> by congruence.
  destruct (ok_facts _ _ _ _ Hok)
    as (_ & _ & _ & _ & _ & HlS & HlR & HlQ & HfS & HfR & _).
  set (r := run_of f0 weights impacts v) in *.
  rewrite Hm in HlS, HlR.
  destruct (r_S r) as [|s [|]] eqn:HS; try done.
  destruct (r_R r) as [|r' [|]] eqn:HR; try done.
  assert (isfinite s = true) as Hs.
  { rewrite ?HS in HfS. unfold all_finite in HfS. simpl in HfS.
    by apply andb_true_iff in HfS as [? _]. }
  assert (isfinite r' = true) as Hr.
  { rewrite ?HR in HfR. unfold all_finite in HfR. simpl in HfR.
    by apply andb_true_iff in HfR as [? _]. }
  assert (r_Q r = [zero]) as HQ.
  { unfold r. rewrite run_Q. fold r. rewrite HS, HR. by apply Q_of_single. }
  assert (r_Q_Rank r = [1]) as HQR
    by (unfold r; rewrite run_Q_Rank; fold r; by rewrite HQ).
  assert (r_S_Rank r = [1]) as HSR
    by (unfold r; rewrite run_S_Rank; fold r; rewrite HS; apply ranks_single).
  assert (r_R_Rank r = [1]) as HRR
    by (unfold r; rewrite run_R_Rank; fold r; rewrite HR; apply ranks_single).
  assert (r_best_Q r = 0) as HbQ
    by (unfold r; rewrite run_best_Q, run_order; fold r; by rewrite HQR).
  assert (r_best_S r = 0) as HbS
    by (unfold r; rewrite run_best_S; fold r; by rewrite HSR).
  assert (r_C1 r = true) as HC1.
  { unfold r. rewrite run_C1, run_Q_diff. rewrite decide_False by lia. done. }
  assert (r_C2 r = true) as HC2.
  { unfold r. rewrite run_C2. fold r. by rewrite HbQ, HbS. }
  assert (r_DQ r = one) as HDQ.
  { unfold r. rewrite run_DQ. unfold DQ_of. rewrite decide_False by lia. done. }
  destruct (run_single f0 weights impacts v) as (Hfl & Hset & Hst).
  { fold r. by rewrite HC1, HC2. }
  fold r in Hfl, Hset, Hst. rewrite HbQ, Hm in Hfl. rewrite HbQ in Hset.
  rewrite !result_column, !result_attr. fold r.
  destruct (frame_of_run_columns f0 r) as (_ & _ & -> & -> & -> & -> & -> & ->).
  destruct (frame_of_run_attrs f0 r) as (-> & -> & -> & -> & ->).
  rewrite HQ, HQR, HSR, HRR, Hfl, HC1, HC2, HDQ, Hset, Hst. done.
Qed.

Lemma vikor_single_alternative_witness :
  column_of (world_after (PyFrame 0) half_weights ["+"; "-"] ex_v false one_world
               one_frame)
    (result_loc (PyFrame 0) one_world one_frame) "Q"
  = Some (FloatCol [zero]).
Proof.
  refine (proj1 (vikor_single_alternative (PyFrame 0) half_weights ["+"; "-"] ex_v
                   false one_world _ _ one_frame _ eq_refl eq_refl)).
  apply vikor_returns; [reflexivity|]. vm_compute. reflexivity.
Defined.

(** ** The size and the order of the compromise set *)

Lemma filter_sorted_prefix {A} (R : A → A → Prop) (P : A → Prop)
    `{∀ x, Decision (P x)} (l : list A) :
  StronglySorted R l →
  (∀ x y, x ∈ l → y ∈ l → R x y → P y → P x) →
  filter P l = take (length (filter P l)) l.
Proof.
  intros Hs. induction Hs as [|x l Hs IH Hx]; intros Hdown; [done|].
  rewrite filter_cons. destruct (decide (P x)) as [HP|HP]; simpl.
  - f_equal. apply IH. intros y z Hy Hz. apply Hdown; by right.
  - assert (filter P l = []) as ->; [|done].
    apply length_zero_iff_nil, filter_nil_iff. intros y Hy HPy. apply HP.
    rewrite Forall_forall in Hx.
    apply (Hdown x y); [by left | by right | by apply Hx | done].
Qed.

Lemma sub_ltb_mono a b c d :
  isfinite a = true → isfinite b = true → isfinite c = true →
  (a <=? b)%F = true → (b - c <? d)%F = true → (a - c <? d)%F = true.
Proof.
  intros [qa ->]%isfinite_Fin [qb ->]%isfinite_Fin [qc ->]%isfinite_Fin.
  destruct d as [qd| | |]; simpl; try done.
  rewrite Qcleb_le, !Qcltb_lt. intros Hab Hb.
  apply Qcle_lt_trans with (qb + - qc)%Qc; [|done].
  by apply Qcplus_le_mono_r.
Qed.

Lemma ascending_leb x i j :
  no_nan x = true → i < length x → j < length x →
  ascending x i j → (x !!! i <=? x !!! j)%F = true.
Proof.
  intros Hx Hi Hj [H|[H _]].
  - by apply ltb_leb.
  - rewrite H. apply leb_refl. eapply no_nan_lookup; [done|].
    by apply list_lookup_lookup_total_lt.
Qed.

Lemma ngeb_ltb x y :
  isfinite x = true → isfinite y = true → (x >=? y)%F = false → (x <? y)%F = true.
Proof.
  intros [qx ->]%isfinite_Fin [qy ->]%isfinite_Fin. unfold geb. simpl.
  rewrite Qcleb_nle, Qcltb_lt. done.
Qed.

Lemma isfinite_sub x y :
  isfinite x = true → isfinite y = true → isfinite (x - y)%F = true.
Proof. by intros [qx ->]%isfinite_Fin [qy ->]%isfinite_Fin. Qed.

Lemma DQ_finite m : isfinite (DQ_of m) = true.
Proof.
  unfold DQ_of. case_decide as Hm; [|done].
  unfold one, of_nat, of_Z. simpl.
  assert (0 < Qc_of_Z (Z.of_nat (m - 1)))%Qc as Hpos by (apply Qc_of_Z_pos; lia).
  rewrite decide_False by (by intros E; rewrite E in Hpos). done.
Qed.

Lemma union_list (a b c : nat) :
  b ≠ a → c ≠ a →
  foldl (λ cs idx, if decide (idx ∉ cs) then cs ++ [idx] else cs) [] [a; b; c]
  = a :: b :: (if decide (c = b) then [] else [c]).
Proof.
  intros Hb Hc. simpl.
  destruct (decide (a ∉ [])) as [_|H]; [|by destruct H; apply not_elem_of_nil].
  simpl. destruct (decide (b ∉ [a])) as [_|H];
    [|destruct H; rewrite elem_of_cons, elem_of_nil; tauto].
  simpl. destruct (decide (c = b)) as [->|Hcb].
  - destruct (decide (b ∉ [a; b])) as [H|_]; [|done].
    destruct H. rewrite !elem_of_cons. tauto.
  - destruct (decide (c ∉ [a; b])) as [_|H]; [done|].
    destruct H. rewrite !elem_of_cons, elem_of_nil. tauto.
Qed.



(** ** The range of Q *)

Lemma frac_bounds (x lo hi : Qc) :
  (lo ≤ x)%Qc → (x ≤ hi)%Qc →
  (0 ≤ (x + - lo) / (hi + - lo + dec 1 10000000000))%Qc ∧
  ((x + - lo) / (hi + - lo + dec 1 10000000000) < 1)%Qc.
Proof.
  intros Hlo Hhi. set (d := (hi + - lo + dec 1 10000000000)%Qc).
  assert (0 ≤ x + - lo)%Qc as Hx by by apply (proj1 (Qcle_minus_iff lo x)).
  assert (x + - lo < d)%Qc as Hxd.
  { unfold d. apply Qcle_lt_trans with (hi + - lo)%Qc.
    - by apply Qcplus_le_mono_r.
    - rewrite <-(Qcplus_0_r (hi + - lo)) at 1.
      apply Qcplus_lt_mono_l, eps_pos. }
  assert (0 < d)%Qc as Hd by by apply Qcle_lt_trans with (x + - lo)%Qc.
  assert (0 < / d)%Qc as Hinv.
  { replace (/ d)%Qc with (1 / d)%Qc by (unfold Qcdiv; ring). by apply Qcinv_pos. }
  unfold Qcdiv. split.
  - apply Qcmult_nonneg_nonneg; [done|by apply Qclt_le_weak].
  - replace 1%Qc with (d * / d)%Qc.
    + by apply Qcmult_lt_mono_pos_r.
    + apply Qcmult_inv_r. intros E. rewrite E in Hd. done.
Qed.

Lemma convex_bounds (v A B : Qc) :
  (0 ≤ v)%Qc → (v ≤ 1)%Qc → (0 ≤ A)%Qc → (A < 1)%Qc → (0 ≤ B)%Qc → (B < 1)%Qc →
  (0 ≤ v * A + (1 + - v) * B)%Qc ∧ (v * A + (1 + - v) * B < 1)%Qc.
Proof.
  intros Hv0 Hv1 HA0 HA1 HB0 HB1.
  assert (0 ≤ 1 + - v)%Qc as Hw by by apply (proj1 (Qcle_minus_iff v 1)).
  split.
  - apply Qcplus_nonneg_nonneg; by apply Qcmult_nonneg_nonneg.
  - destruct (Qcle_lt_or_eq _ _ Hv0) as [Hpos| <-].
    + apply Qclt_le_trans with (v * 1 + (1 + - v) * B)%Qc.
      * apply Qcplus_lt_mono_r. by apply Qcmult_lt_mono_pos_l.
      * replace 1%Qc with (v * 1 + (1 + - v) * 1)%Qc at 3 by ring.
        apply Qcplus_le_mono_l. apply Qcmult_le_mono_nonneg_l; [done|].
        by apply Qclt_le_weak.
    + replace (0 * A + (1 + - 0) * B)%Qc with B by ring. done.
Qed.

Lemma Q_index_bounds v s s1 s2 r r1 r2 :
  (0 ≤ v)%Qc → (v ≤ 1)%Qc →
  isfinite s1 = true → isfinite s2 = true → isfinite r1 = true → isfinite r2 = true →
  (s1 <=? s)%F = true → (s <=? s2)%F = true →
  (r1 <=? r)%F = true → (r <=? r2)%F = true →
  (zero <=? Q_index v s s1 s2 r r1 r2)%F = true ∧
  (Q_index v s s1 s2 r r1 r2 <? one)%F = true.
Proof.
  intros Hv0 Hv1 [q1 ->]%isfinite_Fin [q2 ->]%isfinite_Fin
    [p1 ->]%isfinite_Fin [p2 ->]%isfinite_Fin Hs1 Hs2 Hr1 Hr2.
  destruct s as [qs| | |], r as [qr| | |]; try done.
  simpl in Hs1, Hs2, Hr1, Hr2. rewrite Qcleb_le in Hs1, Hs2, Hr1, Hr2.
  destruct (frac_bounds qs q1 q2 Hs1 Hs2) as [HA0 HA1].
  destruct (frac_bounds qr p1 p2 Hr1 Hr2) as [HB0 HB1].
  unfold Q_index. simpl.
  rewrite !decide_False.
  2:{ apply gap_nonzero. by apply Qcle_trans with qr. }
  2:{ apply gap_nonzero. by apply Qcle_trans with qs. }
  simpl. rewrite Qcleb_le, Qcltb_lt.
  replace (v * (qs + - q1) / (q2 + - q1 + dec 1 10000000000)
           + (1 + - v) * (qr + - p1) / (p2 + - p1 + dec 1 10000000000))%Qc
    with (v * ((qs + - q1) / (q2 + - q1 + dec 1 10000000000))
          + (1 + - v) * ((qr + - p1) / (p2 + - p1 + dec 1 10000000000)))%Qc
    by (unfold Qcdiv; ring).
  by apply convex_bounds.
Qed.



(** ** An acceptable advantage leaves no tie at the top *)

Lemma gap_ltb a b d :
  isfinite a = true → isfinite b = true →
  (zero <? d)%F = true → (b - a >=? d)%F = true → (a <? b)%F = true.
Proof.
  intros [qa ->]%isfinite_Fin [qb ->]%isfinite_Fin.
  destruct d as [qd| | |]; unfold geb; simpl; try done.
  rewrite Qcleb_le, !Qcltb_lt. intros Hd Hgap.
  apply Qclt_minus_iff. by apply Qclt_le_trans with qd.
Qed.

Lemma ltb_leb_trans x y z :
  (x <? y)%F = true → (y <=? z)%F = true → (x <? z)%F = true.
Proof.
  destruct x, y, z; simpl; try done.
  rewrite !Qcltb_lt, Qcleb_le. apply Qclt_le_trans.
Qed.



(** ** A criterion that is constant *)

Lemma distance_constant w c :
  isfinite c = true → isnan (distance w c c c) = false → distance w c c c = zero.
Proof.
  intros [q ->]%isfinite_Fin. unfold distance.
  assert (q + - q = 0)%Qc as E by ring.
  destruct w as [qw| | |]; simpl.
  - intros _. destruct (decide (q + - q + dec 1 10000000000 = 0)%Qc) as [H|_].
    + rewrite E in H. done.
    + unfold zero. f_equal. unfold Qcdiv. ring.
  - by rewrite decide_True by done.
  - by rewrite decide_True by done.
  - done.
Qed.



(** ** The normalization of the weights *)

Lemma weight_sum_div ws s :
  weight_sum ((λ x, x / s)%Qc <$> ws) = (weight_sum ws / s)%Qc.
Proof.
  unfold weight_sum.
  assert (∀ a, foldl Qcplus (a / s)%Qc ((λ x, x / s)%Qc <$> ws)
               = (foldl Qcplus a ws / s)%Qc) as H.
  { induction ws as [|x ws IH]; intros a; simpl; [done|].
    rewrite <-IH. f_equal. unfold Qcdiv. ring. }
  rewrite <-H. f_equal. unfold Qcdiv. ring.
Qed.



(** ** The report of the verbose mode *)

(** X14. Whenever [vikor] returns, the call with verbose=True has made 14 calls
    of print, or 13 on a single alternative, where the line of the actual
    difference is left out; the call with verbose=False has made none. *)
Theorem vikor_report_length data weights impacts v verbose w l w' :
  vikor data weights impacts v verbose w = Ok l w' →
  ∃ f0 lines,
    input_frame data w = Some f0 ∧
    stdout w' = stdout w ++ lines ∧
    length lines = if verbose then (if decide (1 < nrows f0) then 14 else 13) else 0.
Proof.
  intros (f0 & Hin & Hok & -> & ->)%vikor_inv.
  set (r := run_of f0 weights impacts v).
  exists f0, (if verbose then log_of_run r else []).
  split; [done|]. split; [done|].
  destruct verbose; [|done].
  unfold log_of_run, log_lines. unfold r. rewrite run_Q_diff.
  by destruct (decide (1 < nrows f0)).
Qed.

Lemma vikor_report_length_witness :
  ∃ lines,
    stdout (world_after (PyFrame 0) ex_weights ex_impacts ex_v true ex_world ex_frame)
    = stdout ex_world ++ lines ∧ length lines = 14.
Proof.
  destruct (vikor_report_length (PyFrame 0) ex_weights ex_impacts ex_v true ex_world
              _ _ (vikor_returns (PyFrame 0) ex_weights ex_impacts ex_v true ex_world
                     ex_frame eq_refl ltac:(vm_compute; reflexivity)))
    as (f0 & lines & Hin & Hout & Hlen).
  injection Hin as <-. exists lines. split; [exact Hout|exact Hlen].
Defined.

(** ** Calling [vikor] again *)

Lemma input_frame_after data weights impacts v verbose w f0 :
  input_frame data w = Some f0 →
  input_frame data (world_after data weights impacts v verbose w f0) = Some f0.
Proof.
  intros Hin. destruct data as [rows|rows|l0|]; simpl in *; try done.
  exact (world_after_lookup (PyFrame l0) weights impacts v verbose w f0 l0 f0 Hin).
Qed.

(** X15. A second call on the same input, made in the world the first call left,
    returns a new table with the same columns and attributes as the first
    result, and leaves the first result as it is. *)
Theorem vikor_again data weights impacts v verbose verbose' w l1 w1 :
  vikor data weights impacts v verbose w = Ok l1 w1 →
  ∃ l2 w2,
    vikor data weights impacts v verbose' w1 = Ok l2 w2 ∧
    l2 ≠ l1 ∧
    heap w2 !! l1 = heap w1 !! l1 ∧
    (∀ k, column_of w2 l2 k = column_of w1 l1 k) ∧
    (∀ key, attr_of w2 l2 key = attr_of w1 l1 key).
Proof.
  intros (f0 & Hin & Hok & -> & ->)%vikor_inv.
  set (w1 := world_after data weights impacts v verbose w f0).
  pose proof (input_frame_after data weights impacts v verbose w f0 Hin) as Hin1.
  fold w1 in Hin1.
  exists (result_loc data w1 f0), (world_after data weights impacts v verbose' w1 f0).
  split; [by apply vikor_returns|].
  pose proof (result_lookup data weights impacts v verbose w f0) as Hres.
  fold w1 in Hres.
  split.
  { intros E. pose proof (result_loc_fresh data w1 f0) as Hfresh.
    rewrite E, Hres in Hfresh. done. }
  split.
  { rewrite Hres. by apply world_after_lookup. }
  split.
  - intros k. rewrite result_column. unfold column_of. by rewrite Hres.
  - intros key. rewrite result_attr. unfold attr_of. by rewrite Hres.
Qed.

Lemma vikor_again_witness :
  ∃ l2 w2,
    vikor (PyFrame 0) ex_weights ex_impacts ex_v true (ex_after ex_v) = Ok l2 w2 ∧
    l2 ≠ ex_result.
Proof.
  destruct (vikor_again (PyFrame 0) ex_weights ex_impacts ex_v false true ex_world
              ex_result (ex_after ex_v) ex_returns)
    as (l2 & w2 & Hcall & Hne & _).
  exists l2, w2. split; [exact Hcall|exact Hne].
Defined.


(** ** Benefit criteria with non-negative weights *)

Lemma qsum_ge (qs : list Qc) :
  (∀ q, q ∈ qs → (0 ≤ q)%Qc) →
  ∀ a, (a ≤ foldl Qcplus a qs)%Qc ∧
       ∀ x, x ∈ qs → (a + x ≤ foldl Qcplus a qs)%Qc.
Proof.
  induction qs as [|y qs IH]; intros Hpos a; simpl.
  - split; [apply Qcle_refl|]. intros x Hx. by apply elem_of_nil in Hx.
  - assert (0 ≤ y)%Qc as Hy by (apply Hpos; by left).
    assert (∀ q, q ∈ qs → (0 ≤ q)%Qc) as Hpos' by (intros q Hq; apply Hpos; by right).
    destruct (IH Hpos' (a + y)%Qc) as [Hacc Hel].
    assert (a ≤ a + y)%Qc as Hay.
    { rewrite <-(Qcplus_0_r a) at 1. by apply Qcplus_le_mono_l. }
    split; [by apply Qcle_trans with (a + y)%Qc|].
    intros x [->|Hx]%elem_of_cons; [done|].
    apply Qcle_trans with (a + y + x)%Qc; [|by apply Hel].
    by apply Qcplus_le_mono_r.
Qed.

Lemma all_finite_Fin a : all_finite a = true → ∃ qs, a = Fin <$> qs.
Proof.
  induction a as [|x a IH]; intros H; [by exists []|].
  unfold all_finite in H. simpl in H. apply andb_true_iff in H as [Hx Ha].
  apply isfinite_Fin in Hx as [q ->]. destruct (IH Ha) as [qs ->].
  by exists (q :: qs).
Qed.

Lemma nonneg_max_le_sum d :
  d ≠ [] → all_finite d = true →
  (∀ x, x ∈ d → (zero <=? x)%F = true) →
  (zero <=? amax d)%F = true ∧ (amax d <=? np.sum d)%F = true ∧
  (zero <=? np.sum d)%F = true.
Proof.
  intros Hd Hf Hpos.
  destruct (amax_is_max d Hd (all_finite_no_nan _ Hf)) as [Hin _].
  pose proof (Hpos _ Hin) as Hmax.
  destruct (all_finite_Fin d Hf) as [qs ->].
  apply list_elem_of_fmap in Hin as (x & Hx & Hxin). rewrite Hx in *.
  unfold np.sum, zero in *. rewrite foldl_add_Fin. simpl in *.
  rewrite Qcleb_le in Hmax. rewrite !Qcleb_le.
  assert (∀ q, q ∈ qs → (0 ≤ q)%Qc) as Hq.
  { intros q Hqin. specialize (Hpos (Fin q)). simpl in Hpos. rewrite Qcleb_le in Hpos.
    apply Hpos. apply list_elem_of_fmap. by exists q. }
  destruct (qsum_ge qs Hq 0%Qc) as [H0 Hel].
  split; [done|]. split; [|done].
  specialize (Hel x Hxin). by rewrite Qcplus_0_l in Hel.
Qed.

Lemma distance_benefit_nonneg w hi lo x :
  isfinite w = true → isfinite hi = true → isfinite lo = true →
  (zero <=? w)%F = true → (lo <=? x)%F = true → (x <=? hi)%F = true →
  (zero <=? distance w hi lo x)%F = true.
Proof.
  intros [qw ->]%isfinite_Fin [qh ->]%isfinite_Fin [ql ->]%isfinite_Fin Hw Hlo Hhi.
  destruct x as [qx| | |]; try done.
  unfold distance, zero in *. simpl in *. rewrite Qcleb_le in Hw, Hlo, Hhi.
  rewrite decide_False by (apply gap_nonzero; by apply Qcle_trans with qx).
  simpl. rewrite Qcleb_le.
  assert (0 < qh + - ql + dec 1 10000000000)%Qc as Hd.
  { apply Qclt_le_trans with (dec 1 10000000000); [apply eps_pos|].
    rewrite <-(Qcplus_0_l (dec 1 10000000000)) at 1.
    apply Qcplus_le_mono_r. apply (proj1 (Qcle_minus_iff ql qh)).
    by apply Qcle_trans with qx. }
  unfold Qcdiv. apply Qcmult_nonneg_nonneg.
  - apply Qcmult_nonneg_nonneg; [done|]. by apply (proj1 (Qcle_minus_iff qx qh)).
  - apply Qclt_le_weak.
    replace (/ (qh + - ql + dec 1 10000000000))%Qc
      with (1 / (qh + - ql + dec 1 10000000000))%Qc by (unfold Qcdiv; ring).
    by apply Qcinv_pos.
Qed.

Lemma weight_sum_nonneg_acc ws a :
  (∀ q, q ∈ ws → (0 ≤ q)%Qc) → (0 ≤ a)%Qc → (0 ≤ foldl Qcplus a ws)%Qc.
Proof.
  intros Hpos Ha. destruct (qsum_ge ws Hpos a) as [H _].
  by apply Qcle_trans with a.
Qed.

Lemma normalize_nonneg ws i w :
  (∀ q, q ∈ ws → (0 ≤ q)%Qc) → (0 < weight_sum ws)%Qc →
  normalize (np.array ws) !! i = Some w →
  isfinite w = true ∧ (zero <=? w)%F = true.
Proof.
  intros Hpos Hs. rewrite normalize_array.
  assert (weight_sum ws ≠ 0%Qc) as Hne by (intros E; rewrite E in Hs; done).
  destruct (_ >? _)%F.
  - rewrite (vdivs_array _ _ Hne). unfold np.array. rewrite <-list_fmap_compose.
    rewrite list_lookup_fmap. destruct (ws !! i) as [q|] eqn:Hq; [|done].
    intros [= <-]. simpl. split; [done|]. rewrite Qcleb_le.
    unfold Qcdiv. apply Qcmult_nonneg_nonneg.
    + apply Hpos. by eapply list_elem_of_lookup_2.
    + apply Qclt_le_weak.
      replace (/ weight_sum ws)%Qc with (1 / weight_sum ws)%Qc
        by (unfold Qcdiv; ring).
      by apply Qcinv_pos.
  - unfold np.array. rewrite list_lookup_fmap.
    destruct (ws !! i) as [q|] eqn:Hq; [|done].
    intros [= <-]. simpl. split; [done|]. rewrite Qcleb_le.
    apply Hpos. by eapply list_elem_of_lookup_2.
Qed.

(** with benefit criteria and non-negative weights of positive sum, the
    weighted distances of every alternative are non-negative numbers *)
Lemma benefit_distances f0 weights impacts v i :
  vikor_ok f0 weights impacts v = true →
  (∀ s, s ∈ impacts → s = "+") →
  (∀ q, q ∈ weights → (0 ≤ q)%Qc) → (0 < weight_sum weights)%Qc →
  i < nrows f0 →
  let d := weighted_distances (normalize (np.array weights))
             (ideal_of (pd.values f0) impacts) (anti_ideal_of (pd.values f0) impacts)
             (np.row (pd.values f0) i) in
  d ≠ [] ∧ all_finite d = true ∧ (∀ x, x ∈ d → (zero <=? x)%F = true) ∧
  r_S (run_of f0 weights impacts v) !! i = Some (np.sum d) ∧
  r_R (run_of f0 weights impacts v) !! i = Some (amax d).
Proof.
  intros Hok Hplus Hpos Hsum Hi. cbv zeta.
  destruct (ok_facts _ _ _ _ Hok) as (Hw & Himp & _ & Hm & Hn & HlS & _ & _ & HfS & _).
  destruct (distances_of_row f0 weights impacts i Hw Hi) as [Hld Hd].
  set (d := weighted_distances _ _ _ _) in *.
  assert (r_S (run_of f0 weights impacts v) !! i = Some (np.sum d)) as HSi.
  { rewrite run_S. unfold S_of. rewrite shape_values. cbn [fst].
    by rewrite lookup_fmap_range. }
  assert (r_R (run_of f0 weights impacts v) !! i = Some (amax d)) as HRi.
  { rewrite run_R. unfold R_of. rewrite shape_values. cbn [fst].
    by rewrite lookup_fmap_range. }
  pose proof (sum_finite_inv _ (all_finite_lookup _ _ _ HfS HSi)) as Hfd.
  split; [intros E; rewrite E in Hld; simpl in Hld; lia|].
  split; [done|]. split; [|done].
  intros x [j Hj]%list_elem_of_lookup_1.
  assert (j < length (columns f0)) as Hjn by (rewrite <-Hld; by eapply lookup_lt_Some).
  rewrite (Hd j Hjn) in Hj. injection Hj as <-.
  destruct (ok_col_no_nan f0 weights impacts v j Hok Hjn) as [Hne Hnn].
  pose proof (ok_finite_table _ _ _ _ Hok) as Hft.
  destruct (finite_col f0 j Hft Hm Hjn) as [_ Hfc].
  assert (impacts !! j = Some "+") as Hj.
  { destruct (lookup_lt_is_Some_2 impacts j) as [s Hs]; [lia|].
    rewrite Hs. f_equal. apply Hplus. by eapply list_elem_of_lookup_2. }
  rewrite ideal_lookup, anti_ideal_lookup by done. rewrite !decide_True by done.
  destruct (amax_is_max _ Hne Hnn) as [_ Hmax].
  destruct (amin_is_min _ Hne Hnn) as [_ Hmin].
  assert (normalize (np.array weights) !! j
          = Some (normalize (np.array weights) !!! j)) as Hwj.
  { apply list_lookup_lookup_total_lt. rewrite length_normalize, length_array. lia. }
  destruct (normalize_nonneg weights j _ Hpos Hsum Hwj) as [Hwf Hw0].
  apply distance_benefit_nonneg; try done.
  - by apply amax_finite.
  - by apply amin_finite.
  - apply Hmin. eapply list_elem_of_lookup_2. by apply col_lookup.
  - apply Hmax. eapply list_elem_of_lookup_2. by apply col_lookup.
Qed.

(** X16. Whenever [vikor] returns on benefit criteria only, with non-negative
    weights of positive sum: for every alternative the regret R is at least
    0 and at most the utility S. *)
Theorem vikor_regret_le_utility data weights impacts v verbose w l w' :
  vikor data weights impacts v verbose w = Ok l w' →
  (∀ s, s ∈ impacts → s = "+") →
  (∀ q, q ∈ weights → (0 ≤ q)%Qc) → (0 < weight_sum weights)%Qc →
  ∃ S_ R_,
    column_of w' l "S" = Some (FloatCol S_) ∧
    column_of w' l "R" = Some (FloatCol R_) ∧
    ∀ i s r, S_ !! i = Some s → R_ !! i = Some r →
      (zero <=? r)%F = true ∧ (r <=? s)%F = true.
Proof.
  intros (f0 & Hin & Hok & -> & ->)%vikor_inv Hplus Hpos Hsum.
  destruct (ok_facts _ _ _ _ Hok) as (_ & _ & _ & _ & _ & HlS & _).
  set (r := run_of f0 weights impacts v) in *.
  exists (r_S r), (r_R r). rewrite !result_column. fold r.
  destruct (frame_of_run_columns f0 r) as (? & ? & _).
  split; [done|]. split; [done|].
  intros i s r' Hs Hr.
  assert (i < nrows f0) as Hi by (rewrite <-HlS; by eapply lookup_lt_Some).
  destruct (benefit_distances f0 weights impacts v i Hok Hplus Hpos Hsum Hi)
    as (Hne & Hfd & Hnn & HSi & HRi).
  fold r in HSi, HRi. rewrite HSi in Hs. rewrite HRi in Hr.
  injection Hs as <-. injection Hr as <-.
  destruct (nonneg_max_le_sum _ Hne Hfd Hnn) as (? & ? & _). done.
Qed.

Lemma vikor_regret_le_utility_witness :
  vikor (PyFrame 0) ex_weights ex_impacts ex_v false ex_world
  = Ok ex_result (ex_after ex_v) ∧
  ∃ S_ R_,
    column_of (ex_after ex_v) ex_result "S" = Some (FloatCol S_) ∧
    column_of (ex_after ex_v) ex_result "R" = Some (FloatCol R_) ∧
    ∀ i s r, S_ !! i = Some s → R_ !! i = Some r →
      (zero <=? r)%F = true ∧ (r <=? s)%F = true.
Proof.
  split; [exact ex_returns|].
  apply (vikor_regret_le_utility _ _ _ _ _ _ _ _ ex_returns).
  - intros s. unfold ex_impacts. rewrite !elem_of_cons, elem_of_nil.
    intros [->|[->|[->|[]]]]; reflexivity.
  - intros q. unfold ex_weights. rewrite !elem_of_cons, elem_of_nil.
    intros [->|[->|[->|[]]]]; done.
  - done.
Defined.

(** ** An alternative that is best on every criterion *)

Lemma distance_at_ideal w hi lo :
  isfinite w = true → isfinite hi = true → isfinite lo = true →
  (lo <=? hi)%F = true → distance w hi lo hi = zero.
Proof.
  intros [qw ->]%isfinite_Fin [qh ->]%isfinite_Fin [ql ->]%isfinite_Fin Hle.
  simpl in Hle. rewrite Qcleb_le in Hle.
  unfold distance, zero. simpl. rewrite decide_False by by apply gap_nonzero.
  f_equal. unfold Qcdiv. ring.
Qed.

Lemma sum_zeros d : (∀ x, x ∈ d → x = zero) → np.sum d = zero.
Proof.
  unfold np.sum. induction d as [|x d IH]; intros H; simpl; [done|].
  rewrite (H x) by by left. 
  replace (zero + zero)%F with zero by (unfold zero; simpl; f_equal; ring).
  apply IH. intros y Hy. apply H. by right.
Qed.

Lemma amax_zeros d : d ≠ [] → (∀ x, x ∈ d → x = zero) → amax d = zero.
Proof.
  intros Hd H. apply H.
  assert (no_nan d = true) as Hnn.
  { apply no_nan_intro. intros i y Hy.
    by rewrite (H y (list_elem_of_lookup_2 _ _ _ Hy)). }
  by destruct (amax_is_max d Hd Hnn).
Qed.

Lemma nonneg_not_below x :
  (∀ z, z ∈ x → (zero <=? z)%F = true) → count_below x zero = 0.
Proof.
  intros H. apply count_below_0. intros z Hz. specialize (H z Hz).
  rewrite leb_ltb in H; [by destruct (z <? zero)%F|done|].
  by eapply leb_not_nan_r.
Qed.

Lemma amin_zero x i :
  x ≠ [] → no_nan x = true →
  (∀ z, z ∈ x → (zero <=? z)%F = true) → x !! i = Some zero → amin x = zero.
Proof.
  intros Hx Hnn Hpos Hi. destruct (amin_is_min x Hx Hnn) as [Hin Hmin].
  apply leb_antisym.
  - apply Hmin. by eapply list_elem_of_lookup_2.
  - by apply Hpos.
Qed.

Lemma ok_Q_nonneg f0 weights impacts v :
  vikor_ok f0 weights impacts v = true → (0 ≤ v)%Qc → (v ≤ 1)%Qc →
  ∀ q, q ∈ r_Q (run_of f0 weights impacts v) → (zero <=? q)%F = true.
Proof.
  intros Hok Hv0 Hv1 q [i Hq]%list_elem_of_lookup_1.
  destruct (ok_facts _ _ _ _ Hok)
    as (_ & _ & _ & Hm & _ & HlS & HlR & HlQ & HfS & HfR & HfQ).
  set (r := run_of f0 weights impacts v) in *.
  assert (r_S r ≠ []) as HS0 by (intros E; rewrite E in HlS; simpl in HlS; lia).
  assert (r_R r ≠ []) as HR0 by (intros E; rewrite E in HlR; simpl in HlR; lia).
  assert (i < nrows f0) as Hi by (rewrite <-HlQ; by eapply lookup_lt_Some).
  destruct (lookup_lt_is_Some_2 (r_S r) i) as [s Hs]; [lia|].
  destruct (lookup_lt_is_Some_2 (r_R r) i) as [r' Hr]; [lia|].
  unfold r in Hq. rewrite run_Q in Hq. fold r in Hq.
  rewrite (Q_of_lookup v _ _ i s r' Hs Hr) in Hq. injection Hq as <-.
  destruct (amin_is_min _ HS0 (all_finite_no_nan _ HfS)) as [_ HminS].
  destruct (amax_is_max _ HS0 (all_finite_no_nan _ HfS)) as [_ HmaxS].
  destruct (amin_is_min _ HR0 (all_finite_no_nan _ HfR)) as [_ HminR].
  destruct (amax_is_max _ HR0 (all_finite_no_nan _ HfR)) as [_ HmaxR].
  apply (Q_index_bounds v s (amin (r_S r)) (amax (r_S r)) r' (amin (r_R r))
           (amax (r_R r)) Hv0 Hv1
           (amin_finite _ HS0 HfS) (amax_finite _ HS0 HfS)
           (amin_finite _ HR0 HfR) (amax_finite _ HR0 HfR)).
  - apply HminS. by eapply list_elem_of_lookup_2.
  - apply HmaxS. by eapply list_elem_of_lookup_2.
  - apply HminR. by eapply list_elem_of_lookup_2.
  - apply HmaxR. by eapply list_elem_of_lookup_2.
Qed.


